(** * Control interface of compliance-trestle: a shallow embedding

    This development embeds the query and update operations of
    [trestle/core/control_interface.py] (class [ControlInterface]) as Rocq
    functions and proves properties of them.

    Conventions of the embedding.
    - A Python [str] is a [string]; each [ascii] stands for the code point of
      the same number, so the strings covered are those over code points
      below 256.
    - An [Optional[T]] field is an [option T]; Python truthiness of such a
      field is written out where the source relies on it.
    - A function that can [raise TrestleError] returns an [outcome]; a
      constructor call of a validated class returns a [built].
    - In-place mutation of a node is a function returning the updated node.
      Where the source changes in place objects that can be held in several
      places (the header values that [merge_dicts_deep] merges), sequences
      and mappings are objects of a store, addressed by reference.
    - A [dict] is an insertion-ordered association list with unique keys. *)

From Stdlib Require Import String Ascii List Bool Arith ZArith Lia.
Import ListNotations.

Local Open Scope string_scope.
Local Open Scope list_scope.
Local Open Scope nat_scope.

Set Implicit Arguments.
Set Warnings "-register-all".

(* ===================================================================== *)
(** * Python strings *)
(* ===================================================================== *)

Section PyStr.

(** [str.isspace] on one code point below 256: the whitespace set that
    [str.strip()] removes. *)
Definition is_space (c : ascii) : bool :=
  let n := nat_of_ascii c in
  ((9 <=? n) && (n <=? 13)) || ((28 <=? n) && (n <=? 32))
  || (n =? 133) || (n =? 160).

(** [str.lower] on one code point below 256. *)
Definition lower_char (c : ascii) : ascii :=
  let n := nat_of_ascii c in
  if ((65 <=? n) && (n <=? 90))
     || ((192 <=? n) && (n <=? 222) && negb (n =? 215))
  then ascii_of_nat (n + 32) else c.

Fixpoint lower (s : string) : string :=
  match s with
  | EmptyString => EmptyString
  | String c r => String (lower_char c) (lower r)
  end.

Fixpoint lstrip (s : string) : string :=
  match s with
  | EmptyString => EmptyString
  | String c r => if is_space c then lstrip r else s
  end.

Fixpoint rstrip (s : string) : string :=
  match s with
  | EmptyString => EmptyString
  | String c r =>
      match rstrip r with
      | EmptyString => if is_space c then EmptyString else String c EmptyString
      | r' => String c r'
      end
  end.

(** [s.strip()] *)
Definition strip (s : string) : string := rstrip (lstrip s).

(** Truthiness of a string: [bool(s)]. *)
Definition truthy (s : string) : bool :=
  match s with EmptyString => false | String _ _ => true end.

(** Truthiness of an optional string: [None] and [''] are falsy. *)
Definition truthy_opt (o : option string) : bool :=
  match o with Some s => truthy s | None => false end.

(** The string of an optional string whose truthiness has been tested. *)
Definition unwrap (o : option string) : string :=
  match o with Some s => s | None => EmptyString end.

(** [s.count(c)] for a one-character pattern. *)
Fixpoint count_char (c : ascii) (s : string) : nat :=
  match s with
  | EmptyString => 0
  | String d r => (if Ascii.eqb d c then 1 else 0) + count_char c r
  end.

(** [s.replace(c, new)] for a one-character pattern. *)
Fixpoint replace_char (c : ascii) (new : string) (s : string) : string :=
  match s with
  | EmptyString => EmptyString
  | String d r =>
      if Ascii.eqb d c then (new ++ replace_char c new r)%string
      else String d (replace_char c new r)
  end.

(** [s.split(sep)] for a one-character separator. *)
Fixpoint split (sep : ascii) (s : string) : list string :=
  match s with
  | EmptyString => [EmptyString]
  | String c r =>
      if Ascii.eqb c sep then EmptyString :: split sep r
      else match split sep r with
           | h :: t => String c h :: t
           | [] => [String c EmptyString]
           end
  end.

(** [x in names] for a list of strings. *)
Definition str_in (x : string) (names : list string) : bool :=
  existsb (String.eqb x) names.

(** [names.index(x)]: position of the first equal element. *)
Fixpoint index_of (x : string) (names : list string) : nat :=
  match names with
  | [] => 0
  | n :: r => if String.eqb n x then 0 else S (index_of x r)
  end.

Definition newline : string := String (ascii_of_nat 10) EmptyString.
Definition dot : ascii := "."%char.

End PyStr.

(* ===================================================================== *)
(** * Raising functions and helper functions of [trestle.common] *)
(* ===================================================================== *)

(** [TrestleError(msg)] *)
Inductive TrestleError : Type := mkTrestleError (msg : string).

Inductive outcome (A : Type) : Type :=
| Returns (a : A)
| Raises (e : TrestleError).

Arguments Returns {A} a.
Arguments Raises {A} e.

Definition raised {A : Type} (o : outcome A) : bool :=
  match o with Returns _ => false | Raises _ => true end.

(** Modelled from the spec: [trestle.common.list_utils.as_list] is not among
    the sources; its uses fix it (an optional collection is iterated, and
    appended to, through it): the list itself, the empty list for an absent
    one. *)
Definition as_list {A : Type} (o : option (list A)) : list A :=
  match o with Some l => l | None => [] end.

(** Modelled from the spec: [trestle.common.list_utils.none_if_empty] is not
    among the sources; it "collapses an empty resulting collection to
    absent rather than an empty container". *)
Definition none_if_empty {A : Type} (o : option (list A)) : option (list A) :=
  match o with
  | Some (x :: l) => Some (x :: l)
  | _ => None
  end.

(** Modelled from the spec: [trestle.common.str_utils.string_from_root] is
    not among the sources; the metadata properties are "keyed by remarks",
    an optional wrapped string: the string it holds, the empty string for an
    absent one. *)
Definition string_from_root (o : option string) : string :=
  match o with
  | Some s => s
  | None => EmptyString
  end.

(** [del l[i]] for an index in range. *)
Fixpoint list_del {A : Type} (i : nat) (l : list A) : list A :=
  match l, i with
  | [], _ => []
  | _ :: r, 0 => r
  | x :: r, S j => x :: list_del j r
  end.

(* ===================================================================== *)
(** * Insertion-ordered dictionaries *)
(* ===================================================================== *)

Section Dict.
Variable V : Type.

Definition dict : Type := list (string * V).

(** [d.get(k)] *)
Fixpoint dict_get (k : string) (d : dict) : option V :=
  match d with
  | [] => None
  | (k', v) :: r => if String.eqb k' k then Some v else dict_get k r
  end.

(** [k in d] *)
Definition dict_mem (k : string) (d : dict) : bool :=
  match dict_get k d with Some _ => true | None => false end.

(** [d[k] = v]: an existing key keeps its position, a new key goes last. *)
Fixpoint dict_set (k : string) (v : V) (d : dict) : dict :=
  match d with
  | [] => [(k, v)]
  | (k', v') :: r =>
      if String.eqb k' k then (k', v) :: r else (k', v') :: dict_set k v r
  end.

Definition dict_keys (d : dict) : list string := map fst d.

End Dict.

(* ===================================================================== *)
(** * Document model *)
(* ===================================================================== *)

(** Modelled from the spec: the generated OSCAL classes are not among the
    sources; the records carry the fields the spec's data model lists. *)
Record Property : Type := mkProperty {
  prop_name : string;
  prop_value : string;
  prop_remarks : option string
}.

(** An optional collection of properties, the [props] field of any node. *)
Definition Props : Type := option (list Property).

(** Modelled from the spec: [TypeWithProps] is the union of the node types
    that carry a [props] field; the spec calls it the capability interface
    [HasProperties { get_properties(); set_properties(seq<Property>) }].
    Reading the field after an assignment gives what was assigned. *)
Class TypeWithProps (T : Type) : Type := {
  get_props : T -> Props;
  set_props : T -> Props -> T;
  get_set_props : forall (x : T) (ps : Props), get_props (set_props x ps) = ps
}.

(** Modelled from the spec: a recursive part
    [{ id, name, title?, prose?, parts?: ordered-seq<Part> }], with the
    [props] every node may carry. *)
Inductive Part : Type :=
  mkPart (id : string) (name : string) (title : option string)
         (prose : option string) (props : Props)
         (parts : option (list Part)).

Definition part_id (p : Part) : string :=
  match p with mkPart i _ _ _ _ _ => i end.
Definition part_name (p : Part) : string :=
  match p with mkPart _ n _ _ _ _ => n end.
Definition part_title (p : Part) : option string :=
  match p with mkPart _ _ t _ _ _ => t end.
Definition part_prose (p : Part) : option string :=
  match p with mkPart _ _ _ pr _ _ => pr end.
Definition part_props (p : Part) : Props :=
  match p with mkPart _ _ _ _ ps _ => ps end.
Definition part_parts (p : Part) : option (list Part) :=
  match p with mkPart _ _ _ _ _ sub => sub end.

#[export] Instance Part_TypeWithProps : TypeWithProps Part := {
  get_props := part_props;
  set_props := fun p ps =>
    match p with mkPart i n t pr _ sub => mkPart i n t pr ps sub end;
  get_set_props := fun p ps =>
    match p with mkPart _ _ _ _ _ _ => eq_refl end
}.

(** Modelled from the spec: a control [{ id, title, props?, parts? }]; the
    parameters of a control play no role in the operations below. *)
Record Control : Type := mkControl {
  control_id : string;
  control_title : string;
  control_props : Props;
  control_parts : option (list Part)
}.

#[export] Instance Control_TypeWithProps : TypeWithProps Control := {
  get_props := control_props;
  set_props := fun c ps =>
    mkControl (control_id c) (control_title c) ps (control_parts c);
  get_set_props := fun _ _ => eq_refl
}.

(* ===================================================================== *)
(** * Prose of sections: [_gap_join], [_get_control_section_prose] *)
(* ===================================================================== *)

Definition _gap_join (a_str b_str : string) : string :=
  let a_clean := strip a_str in
  let b_clean := strip b_str in
  if negb (truthy b_clean) then a_clean
  else
    let gap := if truthy a_clean then newline else EmptyString in
    (a_clean ++ gap ++ b_clean)%string.

Fixpoint _get_control_section_part (part : Part) (section_name : string)
  : string :=
  let prose := EmptyString in
  let prose :=
    match part_prose part with
    | Some p =>
        if String.eqb (part_name part) section_name
        then _gap_join prose p else prose
    | None => prose
    end in
  match part with
  | mkPart _ _ _ _ _ (Some sub) =>
      (fix loop (l : list Part) (prose : string) : string :=
         match l with
         | [] => prose
         | sub_part :: r =>
             loop r (_gap_join prose
                       (_get_control_section_part sub_part section_name))
         end) sub prose
  | mkPart _ _ _ _ _ None => prose
  end.

Definition _get_control_section_prose (control : Control)
  (section_name : string) : string :=
  fold_left
    (fun prose part =>
       _gap_join prose (_get_control_section_part part section_name))
    (as_list (control_parts control)) EmptyString.

(* ===================================================================== *)
(** * Section search: [_find_section_info], [_find_section], [get_section] *)
(* ===================================================================== *)

(** The triple [(id, name, title)]; a title may be [None]. *)
Definition section_info : Type := (string * string * option string)%type.

Definition no_section : section_info :=
  (EmptyString, EmptyString, Some EmptyString).

Fixpoint _find_section_info (part : Part) (skip_section_list : list string)
  : section_info :=
  if truthy_opt (part_prose part)
     && negb (str_in (part_name part) skip_section_list)
  then (part_id part, part_name part, part_title part)
  else
    match part with
    | mkPart _ _ _ _ _ (Some sub) =>
        (fix loop (l : list Part) : section_info :=
           match l with
           | [] => no_section
           | sub_part :: r =>
               let '(id_, name, title) :=
                 _find_section_info sub_part skip_section_list in
               if truthy id_ then (id_, name, title) else loop r
           end) sub
    | mkPart _ _ _ _ _ None => no_section
    end.

Fixpoint _find_section_loop (parts : list Part)
  (skip_section_list : list string) : section_info :=
  match parts with
  | [] => no_section
  | part :: r =>
      let '(id_, name, title) := _find_section_info part skip_section_list in
      if truthy id_ then (id_, name, title)
      else _find_section_loop r skip_section_list
  end.

Definition _find_section (control : Control) (skip_section_list : list string)
  : section_info :=
  _find_section_loop (as_list (control_parts control)) skip_section_list.

Definition get_section (control : Control) (skip_section_list : list string)
  : string * string * option string * string :=
  let '(id_, name, title) := _find_section control skip_section_list in
  if truthy id_
  then (id_, name, title, _get_control_section_prose control name)
  else (EmptyString, EmptyString, Some EmptyString, EmptyString).

(* ===================================================================== *)
(** * Properties: [get_prop], [_delete_prop], [_replace_prop] *)
(* ===================================================================== *)

Section Props.
Context {T : Type} `{TypeWithProps T}.

(** The loop of [get_prop]: the first property whose trimmed, lower-cased
    name equals the trimmed, lower-cased name asked for. *)
Fixpoint get_prop_loop (props : list Property) (pname : string)
  : option string :=
  match props with
  | [] => None
  | prop :: r =>
      if String.eqb (lower (strip (prop_name prop))) (lower (strip pname))
      then Some (strip (prop_value prop))
      else get_prop_loop r pname
  end.

Definition get_prop (part_control : T) (pname : string)
  (default : option string) : string :=
  match get_prop_loop (as_list (get_props part_control)) pname with
  | Some v => v
  | None => if truthy_opt default then unwrap default
            else EmptyString
  end.

Definition _delete_prop (part_control : T) (pname : string) : T :=
  let names := map prop_name (as_list (get_props part_control)) in
  let props :=
    if str_in pname names
    then option_map (list_del (index_of pname names))
                    (get_props part_control)
    else get_props part_control in
  set_props part_control (none_if_empty props).

Definition _replace_prop (part_control : T) (new_prop : Property) : T :=
  let names := map prop_name (as_list (get_props part_control)) in
  let props :=
    if str_in (prop_name new_prop) names
    then option_map (list_del (index_of (prop_name new_prop) names))
                    (get_props part_control)
    else get_props part_control in
  set_props part_control (Some (as_list props ++ [new_prop])).

Definition get_label (part_control : T) : string :=
  get_prop part_control "label" None.

End Props.

(* ===================================================================== *)
(** * Rendering a part tree: [get_part] *)
(* ===================================================================== *)

(** An element of the rendered sequence: a line, or a nested sub-sequence. *)
Inductive item : Type :=
| Line (s : string)
| Sub (l : list item).

(** The label brackets are written with a backslash each: ['\['], ['\]']. *)
Definition _wrap_label (label : string) : string :=
  let l_side := String (ascii_of_nat 92) "[" in
  let r_side := String (ascii_of_nat 92) "]" in
  if String.eqb label EmptyString then EmptyString
  else (l_side ++ label ++ r_side)%string.

Definition opt_str_eqb (a : string) (b : option string) : bool :=
  match b with Some s => String.eqb a s | None => false end.

Fixpoint get_part (part : Part) (item_type : string) (skip_id : option string)
  : list item :=
  if str_in (part_name part) ["statement"; item_type] then
    let label := get_label part in
    let label :=
      if negb (truthy label) then last (split dot (part_id part)) EmptyString
      else label in
    let wrapped_label := _wrap_label label in
    let pad :=
      if String.eqb wrapped_label EmptyString
         || negb (truthy_opt (part_prose part))
      then EmptyString else " " in
    let prose := match part_prose part with None => EmptyString | Some p => p end in
    let items :=
      if negb (opt_str_eqb (part_id part) skip_id)
      then [Line (wrapped_label ++ pad ++ prose)%string] else [] in
    match part with
    | mkPart _ _ _ _ _ (Some (prt0 :: rest)) =>
        let sub_list :=
          flat_map (fun prt => get_part prt item_type skip_id) (prt0 :: rest) in
        items ++ [Sub (sub_list ++ [Line EmptyString])]
    | _ => items
    end
  else [].

(* ===================================================================== *)
(** * Rule and parameter metadata: [get_rules_from_item],
      [get_params_from_item] *)
(* ===================================================================== *)

Section Metadata.
Context {T : Type} `{TypeWithProps T}.

(** The loop state of [get_rules_from_item]: [rules], [name], [desc],
    [id_]. *)
Definition rules_state : Type :=
  (dict (dict string) * string * string * string)%type.

Definition get_rules_step (st : rules_state) (prop : Property)
  : rules_state :=
  let '(rules, name, desc, id_) := st in
  let '(name, desc, id_) :=
    if String.eqb (prop_name prop) "rule_name_id"
    then (prop_value prop, desc, string_from_root (prop_remarks prop))
    else if String.eqb (prop_name prop) "rule_description"
    then (name, prop_value prop, id_)
    else (name, desc, id_) in
  if truthy name && truthy desc
  then (dict_set id_ [("name", name); ("description", desc)] rules,
        EmptyString, EmptyString, EmptyString)
  else (rules, name, desc, id_).

Definition get_rules_from_item (item : T) : dict (dict string) :=
  let '(rules, _, _, _) :=
    fold_left get_rules_step (as_list (get_props item))
              ([], EmptyString, EmptyString, EmptyString) in
  rules.

Definition get_rule_list_for_item (item : T) : list string :=
  map prop_value
      (filter (fun prop => String.eqb (prop_name prop) "rule_name_id")
              (as_list (get_props item))).

Definition duplicate_param_msg (param_name rule_id : string) : string :=
  ("Duplicate param " ++ param_name ++ " found for rule " ++ rule_id)%string.

Definition orphan_description_msg (rule_id : string) : string :=
  ("Param description for rule " ++ rule_id
     ++ " found with no param_id")%string.

Definition orphan_options_msg (rule_id : string) : string :=
  ("Param options for rule " ++ rule_id ++ " found with no param_id")%string.

(** The loop of [get_params_from_item], from a given [params]. *)
Fixpoint get_params_loop (props : list Property) (params : dict (dict string))
  : outcome (dict (dict string)) :=
  match props with
  | [] => Returns params
  | prop :: r =>
      let rule_id := string_from_root (prop_remarks prop) in
      if String.eqb (prop_name prop) "param_id" then
        let param_name := prop_value prop in
        if dict_mem rule_id params
        then Raises (mkTrestleError (duplicate_param_msg param_name rule_id))
        else get_params_loop r (dict_set rule_id [("name", param_name)] params)
      else if String.eqb (prop_name prop) "param_description" then
        match dict_get rule_id params with
        | Some entry =>
            get_params_loop r
              (dict_set rule_id
                 (dict_set "description" (prop_value prop) entry) params)
        | None => Raises (mkTrestleError (orphan_description_msg rule_id))
        end
      else if String.eqb (prop_name prop) "param_options" then
        match dict_get rule_id params with
        | Some entry =>
            get_params_loop r
              (dict_set rule_id
                 (dict_set "options" (prop_value prop) entry) params)
        | None => Raises (mkTrestleError (orphan_options_msg rule_id))
        end
      else get_params_loop r params
  end.

Definition get_params_from_item (item : T) : outcome (dict (dict string)) :=
  get_params_loop (as_list (get_props item)) [].

End Metadata.

(* ===================================================================== *)
(** * Parameters: [param_to_str] and its helpers *)
(* ===================================================================== *)

Inductive ParameterRep : Type :=
| LEAVE_MOUSTACHE
| VALUE_OR_STRING_NONE
| LABEL_OR_CHOICES
| VALUE_OR_LABEL_OR_CHOICES
| VALUE_OR_EMPTY_STRING.

Inductive HowMany : Type := one | one_or_more.

(** Modelled from the spec: a parameter
    [{ id, label?, select?: { how_many, choice }, values? }]; a value is the
    string its [__root__] holds. *)
Record ParameterSelection : Type := mkParameterSelection {
  how_many : option HowMany;
  choice : option (list string)
}.

(** [common.Parameter]; the bare name is reserved in Rocq. *)
Record CommonParameter : Type := mkParameter {
  param_id : string;
  param_label : option string;
  param_select : option ParameterSelection;
  param_values : option (list string)
}.

Definition list_truthy {A : Type} (o : option (list A)) : bool :=
  match o with Some (_ :: _) => true | _ => false end.

Definition _param_values_as_str_list (param : CommonParameter) : list string :=
  as_list (param_values param).

Definition _param_values_as_str (param : CommonParameter) (brackets : bool)
  : option string :=
  if negb (list_truthy (param_values param)) then None
  else
    let values_str := String.concat ", " (_param_values_as_str_list param) in
    Some (if brackets then ("[" ++ values_str ++ "]")%string else values_str).

Definition _param_selection_as_str (param : CommonParameter) (verbose brackets : bool)
  : string :=
  match param_select param with
  | Some select =>
      if list_truthy (choice select) then
        let how_many_str :=
          match how_many select with
          | Some one => "one"
          | Some one_or_more => "one or more"
          | None => EmptyString
          end in
        let choices_str := String.concat "; " (as_list (choice select)) in
        let choices_str :=
          if brackets then ("[" ++ choices_str ++ "]")%string
          else choices_str in
        if verbose
        then ("Choose " ++ how_many_str ++ ": " ++ choices_str)%string
        else choices_str
      else EmptyString
  | None => EmptyString
  end.

Definition _param_label_choices_as_str (param : CommonParameter)
  (verbose brackets : bool) : string :=
  let choices := _param_selection_as_str param verbose brackets in
  let text := if truthy choices then Some choices else param_label param in
  if truthy_opt text then unwrap text else param_id param.

Definition multiple_dots_msg (params_format : string) : string :=
  ("Additional text " ++ params_format
     ++ " for the parameters cannot contain multiple dots (.)")%string.

Definition param_to_str (param : CommonParameter) (param_rep : ParameterRep)
  (verbose brackets : bool) (params_format : option string)
  : outcome (option string) :=
  let param_str :=
    match param_rep with
    | LEAVE_MOUSTACHE => None
    | VALUE_OR_STRING_NONE =>
        let param_str := _param_values_as_str param false in
        Some (if truthy_opt param_str then unwrap param_str
              else "None")
    | LABEL_OR_CHOICES =>
        Some (_param_label_choices_as_str param verbose brackets)
    | VALUE_OR_LABEL_OR_CHOICES =>
        let param_str := _param_values_as_str param false in
        Some (if truthy_opt param_str then unwrap param_str
              else _param_label_choices_as_str param verbose brackets)
    | VALUE_OR_EMPTY_STRING =>
        let param_str := _param_values_as_str param brackets in
        Some (if truthy_opt param_str then unwrap param_str
              else EmptyString)
    end in
  match param_str, params_format with
  | Some rendered, Some fmt =>
      if truthy fmt then
        if 1 <? count_char dot fmt
        then Raises (mkTrestleError (multiple_dots_msg fmt))
        else Returns (Some (replace_char dot rendered fmt))
      else Returns param_str
  | _, _ => Returns param_str
  end.

(* ===================================================================== *)
(** * Deep merge of header mappings: [merge_dicts_deep] *)
(* ===================================================================== *)

(** The values of a header mapping: scalars, sequences and nested mappings
    with string keys.  A mapping keeps its keys in insertion order.  A value
    of this type is a tree: every sequence and every mapping in it is held in
    one place only.  Values in which one object is held in several places
    live in a store of objects, further down. *)
Inductive value : Type :=
| VNone
| VBool (b : bool)
| VInt (z : Z)
| VStr (s : string)
| VList (l : list value)
| VDict (d : vdict)
with vdict : Type :=
| DNil
| DCons (key : string) (v : value) (rest : vdict).

(** [key in d], [d[key]] *)
Fixpoint vget (k : string) (d : vdict) : option value :=
  match d with
  | DNil => None
  | DCons k' v r => if String.eqb k' k then Some v else vget k r
  end.

(** [d[key] = v] *)
Fixpoint vset (k : string) (v : value) (d : vdict) : vdict :=
  match d with
  | DNil => DCons k v DNil
  | DCons k' v' r =>
      if String.eqb k' k then DCons k' v r else DCons k' v' (vset k v r)
  end.

Fixpoint vkeys (d : vdict) : list string :=
  match d with
  | DNil => []
  | DCons k _ r => k :: vkeys r
  end.

(** Python's [==] on these values: [True == 1], sequences compare
    element-wise, mappings compare key-wise whatever the order of keys. *)
Fixpoint py_eq (a b : value) {struct a} : bool :=
  match a, b with
  | VNone, VNone => true
  | VBool x, VBool y => Bool.eqb x y
  | VBool x, VInt y => Z.eqb (Z.b2z x) y
  | VInt x, VBool y => Z.eqb x (Z.b2z y)
  | VInt x, VInt y => Z.eqb x y
  | VStr x, VStr y => String.eqb x y
  | VList xs, VList ys =>
      (fix go (xs ys : list value) : bool :=
         match xs, ys with
         | [], [] => true
         | x :: xs', y :: ys' => py_eq x y && go xs' ys'
         | _, _ => false
         end) xs ys
  | VDict d1, VDict d2 =>
      Nat.eqb (length (vkeys d1)) (length (vkeys d2)) && py_dict_le d1 d2
  | _, _ => false
  end
with py_dict_le (d1 d2 : vdict) {struct d1} : bool :=
  match d1 with
  | DNil => true
  | DCons k v r =>
      match vget k d2 with Some w => py_eq v w | None => false end
      && py_dict_le r d2
  end.

(** [item in l] *)
Definition py_in (item : value) (l : list value) : bool :=
  existsb (fun x => py_eq x item) l.

(** The loop [for item in src[key]: if item not in dest[key]:
    dest[key].append(item)]. *)
Definition extend_novel (dest_list src_list : list value) : list value :=
  fold_left
    (fun d item => if negb (py_in item d) then d ++ [item] else d)
    src_list dest_list.

(** [merge_dicts_deep] on mappings that hold every sequence and every
    mapping in one place only, [dest] and [src] sharing none: the update in
    place of the object under a key is then the replacement of the entry
    under that key. *)
Fixpoint merge_dicts_deep (dest src : vdict) (overwrite_header_values : bool)
  {struct src} : vdict :=
  match src with
  | DNil => dest
  | DCons key sv rest =>
      let dest :=
        match vget key dest with
        | Some dv =>
            match dv, sv with
            | VDict d, VDict s =>
                vset key (VDict (merge_dicts_deep d s overwrite_header_values))
                     dest
            | VList dl, VList sl => vset key (VList (extend_novel dl sl)) dest
            | _, _ =>
                if overwrite_header_values then vset key sv dest else dest
            end
        | None => vset key sv dest
        end in
      merge_dicts_deep dest rest overwrite_header_values
  end.

(* ===================================================================== *)
(** * Deep merge in a store of objects *)
(* ===================================================================== *)

(** A sequence or a mapping is an object of the store, and a value refers to
    it by its address: one object can be held under several keys, of one
    mapping or of several, and a change made to it in place shows in all of
    them. *)
Definition address : Type := nat.

Inductive hval : Type :=
| HNone
| HBool (b : bool)
| HInt (z : Z)
| HStr (s : string)
| HRef (a : address).

Inductive object : Type :=
| OList (items : list hval)
| ODict (entries : dict hval).

Definition heap : Type := list object.

Definition heap_get (h : heap) (a : address) : option object :=
  nth_error h a.

(** The object at an address is changed in place. *)
Fixpoint heap_set (h : heap) (a : address) (o : object) : heap :=
  match h, a with
  | [], _ => []
  | _ :: r, 0 => o :: r
  | x :: r, S a' => x :: heap_set r a' o
  end.

(** [x is y or x == y]: the comparison of the elements of two sequences, of
    the values of two mappings and of an item with the elements of a
    sequence takes an object for equal to itself before it looks into it. *)
Definition same_or (eq : hval -> hval -> option bool) (x y : hval)
  : option bool :=
  match x, y with
  | HRef p, HRef q => if Nat.eqb p q then Some true else eq x y
  | _, _ => eq x y
  end.

(** Two sequences of one length, element by element, up to the first pair
    that differs. *)
Fixpoint all_eq_with (eq : hval -> hval -> option bool) (xs ys : list hval)
  : option bool :=
  match xs, ys with
  | x :: xs', y :: ys' =>
      match eq x y with
      | Some true => all_eq_with eq xs' ys'
      | other => other
      end
  | _, _ => Some true
  end.

(** Two mappings of one size: every key of the first is a key of the second,
    with an equal value. *)
Fixpoint dict_le_with (eq : hval -> hval -> option bool) (d1 d2 : dict hval)
  : option bool :=
  match d1 with
  | [] => Some true
  | (k, v) :: r =>
      match dict_get k d2 with
      | None => Some false
      | Some w =>
          match eq v w with
          | Some true => dict_le_with eq r d2
          | other => other
          end
      end
  end.

(** Python's [==] in the store.  [None] when the [fuel] does not reach the
    bottom of the two values (objects that hold themselves have none) or an
    address leads nowhere. *)
Fixpoint py_eq_heap (fuel : nat) (h : heap) (a b : hval) {struct fuel}
  : option bool :=
  match a, b with
  | HNone, HNone => Some true
  | HBool x, HBool y => Some (Bool.eqb x y)
  | HBool x, HInt y => Some (Z.eqb (Z.b2z x) y)
  | HInt x, HBool y => Some (Z.eqb x (Z.b2z y))
  | HInt x, HInt y => Some (Z.eqb x y)
  | HStr x, HStr y => Some (String.eqb x y)
  | HRef p, HRef q =>
      match fuel with
      | 0 => None
      | S fuel =>
          match heap_get h p, heap_get h q with
          | Some (OList xs), Some (OList ys) =>
              if Nat.eqb (length xs) (length ys)
              then all_eq_with (same_or (py_eq_heap fuel h)) xs ys
              else Some false
          | Some (ODict d1), Some (ODict d2) =>
              if Nat.eqb (length d1) (length d2)
              then dict_le_with (same_or (py_eq_heap fuel h)) d1 d2
              else Some false
          | Some _, Some _ => Some false
          | _, _ => None
          end
      end
  | _, _ => Some false
  end.

(** [x is item or x == item], the test that [item in l] makes of each
    element. *)
Definition same_or_eq_heap (fuel : nat) (h : heap) (x item : hval)
  : option bool :=
  same_or (py_eq_heap fuel h) x item.

(** [item in l] *)
Fixpoint py_in_heap (fuel : nat) (h : heap) (item : hval) (l : list hval)
  : option bool :=
  match l with
  | [] => Some false
  | x :: r =>
      match same_or_eq_heap fuel h x item with
      | Some false => py_in_heap fuel h item r
      | other => other
      end
  end.

(** How a call ends: it returns, leaving the store as given; it raises the
    error of a mapping that changed size while it was iterated; or the model
    does not follow it to its end (the [fuel] is spent, an address leads
    nowhere, or an argument is not a mapping). *)
Inductive run (A : Type) : Type :=
| Done (a : A)
| RuntimeError
| Unfinished.

Arguments Done {A} a.
Arguments RuntimeError {A}.
Arguments Unfinished {A}.

(** The loop [for item in src[key]: if item not in dest[key]:
    dest[key].append(item)], [dest[key]] being the sequence at the address
    [dest_list] and [items] the elements of [src[key]] yet to come.  (When
    the two are one object, every element is found in it and nothing is
    appended, so the elements to come are those the loop started with.) *)
Fixpoint extend_heap (fuel : nat) (h : heap) (dest_list : address)
  (items : list hval) : run heap :=
  match items with
  | [] => Done h
  | item :: r =>
      match heap_get h dest_list with
      | Some (OList dest_items) =>
          match py_in_heap fuel h item dest_items with
          | Some true => extend_heap fuel h dest_list r
          | Some false =>
              extend_heap fuel
                (heap_set h dest_list (OList (dest_items ++ [item])))
                dest_list r
          | None => Unfinished
          end
      | _ => Unfinished
      end
  end.

Section MergeLoop.
(** The nested call [merge_dicts_deep(dest[key], src[key], ...)]. *)
Variable nested_merge : heap -> address -> address -> run heap.
Variable fuel : nat.
(** The addresses of [dest] and [src], the flag, and the size [src] had
    when the iteration of its keys began. *)
Variables dest src : address.
Variable overwrite_header_values : bool.
Variable src_size : nat.

(** The loop [for key in src.keys()], [keys] being the keys yet to come:
    before each step, the last included, the iterator raises if [src] has
    changed size. *)
Fixpoint merge_loop (keys : list string) (h : heap) : run heap :=
  match heap_get h src, heap_get h dest with
  | Some (ODict src_entries), Some (ODict dest_entries) =>
      if negb (Nat.eqb (length src_entries) src_size) then RuntimeError
      else
        match keys with
        | [] => Done h
        | key :: keys' =>
            match dict_get key src_entries with
            | None => Unfinished
            | Some sv =>
                let assign (_ : unit) :=
                  heap_set h dest (ODict (dict_set key sv dest_entries)) in
                let otherwise (_ : unit) :=
                  if overwrite_header_values
                  then merge_loop keys' (assign tt)
                  else merge_loop keys' h in
                match dict_get key dest_entries with
                | Some dv =>
                    match dv, sv with
                    | HRef d, HRef s =>
                        match heap_get h d, heap_get h s with
                        | Some (ODict _), Some (ODict _) =>
                            match nested_merge h d s with
                            | Done h' => merge_loop keys' h'
                            | other => other
                            end
                        | Some (OList _), Some (OList src_items) =>
                            match extend_heap fuel h d src_items with
                            | Done h' => merge_loop keys' h'
                            | other => other
                            end
                        | Some _, Some _ => otherwise tt
                        | _, _ => Unfinished
                        end
                    | _, _ => otherwise tt
                    end
                | None => merge_loop keys' (assign tt)
                end
            end
        end
  | _, _ => Unfinished
  end.

End MergeLoop.

(** [merge_dicts_deep(dest, src, overwrite_header_values)], [dest] and [src]
    being the addresses of two mappings of the store. *)
Fixpoint merge_dicts_deep_heap (fuel : nat) (h : heap) (dest src : address)
  (overwrite_header_values : bool) {struct fuel} : run heap :=
  match fuel with
  | 0 => Unfinished
  | S fuel =>
      match heap_get h src with
      | Some (ODict src_entries) =>
          merge_loop
            (fun h d s =>
               merge_dicts_deep_heap fuel h d s overwrite_header_values)
            fuel dest src overwrite_header_values (length src_entries)
            (dict_keys src_entries) h
      | _ => Unfinished
      end
  end.

(** The value that an address of the store stands for, read as a tree. *)
Fixpoint decode (fuel : nat) (h : heap) (hv : hval) {struct fuel}
  : option value :=
  match hv with
  | HNone => Some VNone
  | HBool b => Some (VBool b)
  | HInt z => Some (VInt z)
  | HStr s => Some (VStr s)
  | HRef a =>
      match fuel with
      | 0 => None
      | S fuel =>
          match heap_get h a with
          | Some (OList items) =>
              option_map VList
                (fold_right
                   (fun hv acc =>
                      match decode fuel h hv, acc with
                      | Some v, Some l => Some (v :: l)
                      | _, _ => None
                      end)
                   (Some []) items)
          | Some (ODict entries) =>
              option_map VDict
                (fold_right
                   (fun (e : string * hval) acc =>
                      match decode fuel h (snd e), acc with
                      | Some v, Some d => Some (DCons (fst e) v d)
                      | _, _ => None
                      end)
                   (Some DNil) entries)
          | None => None
          end
      end
  end.

(* ===================================================================== *)
(** * Components: status in properties, [insert_imp_req_into_component] *)
(* ===================================================================== *)

(** Modelled from the spec: status is "a two-field record {state, remarks}". *)
Record ImplementationStatus : Type := mkImplementationStatus {
  state : string;
  status_remarks : option string
}.

(** Modelled from the spec: a statement of an implemented requirement,
    keyed by [statement_id]; [uuid] and [remarks] stand for the fields that
    the update does not touch. *)
Record Statement : Type := mkStatement {
  statement_id : string;
  statement_uuid : string;
  statement_description : string;
  statement_props : Props;
  statement_remarks : option string
}.

Record ImplementedRequirement : Type := mkImplementedRequirement {
  imp_req_uuid : string;
  imp_req_control_id : string;
  imp_req_description : string;
  imp_req_props : Props;
  imp_req_statements : option (list Statement)
}.

(** The implemented requirements are a required field of a control
    implementation. *)
Record ControlImplementation : Type := mkControlImplementation {
  control_imp_uuid : string;
  control_imp_source : string;
  control_imp_description : string;
  implemented_requirements : list ImplementedRequirement
}.

(** The result of a constructor call of a validated class: the object, or
    the validation error that names the field at fault. *)
Inductive built (A : Type) : Type :=
| Built (a : A)
| ValidationError (field : string).

Arguments Built {A} a.
Arguments ValidationError {A} field.

(** Modelled from the spec: the generated class [comp.ControlImplementation]
    is not among the sources; the documents are "validated, strongly-typed",
    and a control implementation requires its implemented requirements, so
    the constructor call
    [comp.ControlImplementation(uuid=..., source=..., description=...,
    implemented_requirements=...)] raises a validation error when that
    argument is left out ([None] here). *)
Definition ControlImplementation_new (uuid source description : string)
  (implemented_requirements : option (list ImplementedRequirement))
  : built ControlImplementation :=
  match implemented_requirements with
  | Some imp_reqs =>
      Built (mkControlImplementation uuid source description imp_reqs)
  | None => ValidationError "implemented_requirements"
  end.

Record DefinedComponent : Type := mkDefinedComponent {
  component_title : string;
  control_implementations : option (list ControlImplementation)
}.

#[export] Instance Statement_TypeWithProps : TypeWithProps Statement := {
  get_props := statement_props;
  set_props := fun s ps =>
    mkStatement (statement_id s) (statement_uuid s) (statement_description s)
                ps (statement_remarks s);
  get_set_props := fun _ _ => eq_refl
}.

#[export] Instance ImplementedRequirement_TypeWithProps
  : TypeWithProps ImplementedRequirement := {
  get_props := imp_req_props;
  set_props := fun r ps =>
    mkImplementedRequirement (imp_req_uuid r) (imp_req_control_id r)
      (imp_req_description r) ps (imp_req_statements r);
  get_set_props := fun _ _ => eq_refl
}.

(** [stat.description = d] *)
Definition set_description (stat : Statement) (d : string) : Statement :=
  mkStatement (statement_id stat) (statement_uuid stat) d
              (statement_props stat) (statement_remarks stat).

(** [imp_req.statements = l] *)
Definition set_statements (imp_req : ImplementedRequirement)
  (l : option (list Statement)) : ImplementedRequirement :=
  mkImplementedRequirement (imp_req_uuid imp_req) (imp_req_control_id imp_req)
    (imp_req_description imp_req) (imp_req_props imp_req) l.

(** A reference held in [new_statements]: to an object of [statement_dict],
    named by its key (with the object as it was when the reference was
    taken; the key never leaves the dictionary), or to a statement of the new
    record. *)
Inductive statement_ref : Type :=
| OldObject (key : string) (seen : Statement)
| NewObject (s : Statement).

Section Components.
(** [const.IMPLEMENTATION_STATUS], [const.STATUS_OTHER], [const.REPLACE_ME]
    and the result of [str(uuid4())]: [trestle.common.const] is not among
    the sources. *)
Variables IMPLEMENTATION_STATUS STATUS_OTHER REPLACE_ME : string.
Variable fresh_uuid : string.

Definition _status_as_prop (status : ImplementationStatus) : Property :=
  mkProperty IMPLEMENTATION_STATUS (state status) (status_remarks status).

Definition _prop_as_status (prop : Property) : ImplementationStatus :=
  mkImplementationStatus (prop_value prop) (prop_remarks prop).

Section Status.
Context {T : Type} `{TypeWithProps T}.

Fixpoint get_status_loop (props : list Property) : ImplementationStatus :=
  match props with
  | [] => mkImplementationStatus STATUS_OTHER None
  | prop :: r =>
      if String.eqb (prop_name prop) IMPLEMENTATION_STATUS
      then _prop_as_status prop
      else get_status_loop r
  end.

Definition get_status_from_props (item : T) : ImplementationStatus :=
  get_status_loop (as_list (get_props item)).

Definition insert_status_in_props (item : T)
  (status : ImplementationStatus) : T :=
  _replace_prop item (_status_as_prop status).
End Status.

Definition _copy_status_in_props {D S : Type} `{TypeWithProps D}
  `{TypeWithProps S} (dest : D) (src : S) : D :=
  insert_status_in_props dest (get_status_from_props src).

(** The body of the loop over the new statements, applied to the object
    [stat] that [statement_dict.get] returned. *)
Definition update_statement (stat statement : Statement) : Statement :=
  _copy_status_in_props
    (set_description stat (statement_description statement)) statement.

(** [{stat.statement_id: stat for stat in statements}] *)
Definition make_statement_dict (statements : list Statement)
  : dict Statement :=
  fold_left (fun d stat => dict_set (statement_id stat) stat d)
            statements [].

Definition new_statements_step
  (st : dict Statement * list statement_ref) (statement : Statement)
  : dict Statement * list statement_ref :=
  let '(statement_dict, new_statements) := st in
  match dict_get (statement_id statement) statement_dict with
  | Some stat =>
      let stat := update_statement stat statement in
      (dict_set (statement_id statement) stat statement_dict,
       new_statements ++ [OldObject (statement_id statement) stat])
  | None =>
      (statement_dict,
       new_statements ++ [NewObject (update_statement statement statement)])
  end.

Definition deref (statement_dict : dict Statement) (r : statement_ref)
  : Statement :=
  match r with
  | OldObject key seen =>
      match dict_get key statement_dict with
      | Some stat => stat
      | None => seen
      end
  | NewObject s => s
  end.

(** The list [new_statements] once the loop has ended. *)
Definition merged_statements (old new : list Statement) : list Statement :=
  let '(statement_dict, new_statements) :=
    fold_left new_statements_step new (make_statement_dict old, []) in
  map (deref statement_dict) new_statements.

(** The update of the matching [imp_req]. *)
Definition update_imp_req (imp_req new_imp_req : ImplementedRequirement)
  : ImplementedRequirement :=
  let status := get_status_from_props new_imp_req in
  let imp_req := insert_status_in_props imp_req status in
  set_statements imp_req
    (none_if_empty
       (Some (merged_statements (as_list (imp_req_statements imp_req))
                                (as_list (imp_req_statements new_imp_req))))).

(** The inner loop: [Some] of the updated list when some [imp_req] has the
    control id, [None] when the loop ends without a match. *)
Fixpoint insert_in_imp_reqs (imp_reqs : list ImplementedRequirement)
  (new_imp_req : ImplementedRequirement)
  : option (list ImplementedRequirement) :=
  match imp_reqs with
  | [] => None
  | imp_req :: r =>
      if String.eqb (imp_req_control_id imp_req)
                    (imp_req_control_id new_imp_req)
      then Some (update_imp_req imp_req new_imp_req :: r)
      else option_map (cons imp_req) (insert_in_imp_reqs r new_imp_req)
  end.

Definition set_implemented_requirements (control_imp : ControlImplementation)
  (l : list ImplementedRequirement) : ControlImplementation :=
  mkControlImplementation (control_imp_uuid control_imp)
    (control_imp_source control_imp) (control_imp_description control_imp) l.

(** The outer loop. *)
Fixpoint insert_in_control_imps (control_imps : list ControlImplementation)
  (new_imp_req : ImplementedRequirement)
  : option (list ControlImplementation) :=
  match control_imps with
  | [] => None
  | control_imp :: r =>
      match insert_in_imp_reqs
              (as_list (Some (implemented_requirements control_imp)))
              new_imp_req
      with
      | Some imp_reqs =>
          Some (set_implemented_requirements control_imp imp_reqs :: r)
      | None => option_map (cons control_imp)
                           (insert_in_control_imps r new_imp_req)
      end
  end.

(** The component as the call leaves it, or the validation error that the
    call raises: when the component has no control implementation, the
    constructor call that is to make one gives a uuid, a source and a
    description and leaves the implemented requirements out. *)
Definition insert_imp_req_into_component (component : DefinedComponent)
  (new_imp_req : ImplementedRequirement) : built DefinedComponent :=
  match insert_in_control_imps
          (as_list (control_implementations component)) new_imp_req
  with
  | Some control_imps =>
      Built (mkDefinedComponent (component_title component)
                                (Some control_imps))
  | None =>
      let made :=
        if negb (list_truthy (control_implementations component))
        then
          match ControlImplementation_new fresh_uuid REPLACE_ME REPLACE_ME
                                          None with
          | Built control_imp => Built [control_imp]
          | ValidationError field => ValidationError field
          end
        else Built (as_list (control_implementations component)) in
      match made with
      | Built (first :: r) =>
          let imp_reqs := as_list (Some (implemented_requirements first)) in
          Built (mkDefinedComponent (component_title component)
                   (Some (set_implemented_requirements first
                            (imp_reqs ++ [new_imp_req]) :: r)))
      | Built [] => Built component
      | ValidationError field => ValidationError field
      end
  end.

(** [get_control_imp_reqs] *)
Definition get_control_imp_reqs (component : DefinedComponent)
  (control_id : string) : list ImplementedRequirement :=
  flat_map
    (fun control_imp =>
       filter (fun imp_req =>
                 String.eqb (imp_req_control_id imp_req) control_id)
              (as_list (Some (implemented_requirements control_imp))))
    (as_list (control_implementations component)).

End Components.

(* ===================================================================== *)
(** * Further operations: [bad_header], [is_withdrawn], [get_part_prose],
      [strip_to_make_ncname], set-parameters, [get_control_param_dict] *)
(* ===================================================================== *)

(** The loop of [bad_header] over the characters after the first. *)
Fixpoint bad_header_loop (rest : string) : bool :=
  match rest with
  | EmptyString => true
  | String c r =>
      if Ascii.eqb c " "%char then false
      else if negb (Ascii.eqb c "#"%char) then true
      else bad_header_loop r
  end.

Definition bad_header (header : string) : bool :=
  match header with
  | EmptyString => true
  | String c rest =>
      if negb (Ascii.eqb c "#"%char) then true
      else if String.length header <? 2 then true
      else bad_header_loop rest
  end.

Fixpoint is_withdrawn_loop (props : list Property) : bool :=
  match props with
  | [] => false
  | prop :: r =>
      if truthy (prop_name prop) && truthy (prop_value prop) then
        if String.eqb (strip (lower (prop_name prop))) "status"
           && String.eqb (strip (lower (prop_value prop))) "withdrawn"
        then true
        else is_withdrawn_loop r
      else is_withdrawn_loop r
  end.

Definition is_withdrawn (control : Control) : bool :=
  is_withdrawn_loop (as_list (control_props control)).

(** [get_part_prose]: the prose of the top-level parts is appended with no
    gap, and the whole is trimmed. *)
Definition get_part_prose (control : Control) (part_name : string) : string :=
  strip
    (fold_left
       (fun prose part =>
          (prose ++ _get_control_section_part part part_name)%string)
       (as_list (control_parts control)) EmptyString).

Section NCName.
(** [const.NCNAME_UTF8_FIRST_CHAR_OPTIONS] and
    [const.NCNAME_UTF8_OTHER_CHAR_OPTIONS] as membership tests, and
    [re.search(const.NCNAME_REGEX, s)] as a test: [trestle.common.const] is
    not among the sources. *)
Variables first_char_option other_char_option : ascii -> bool.
Variable ncname_regex_search : string -> bool.

(** [while label and label[0] not in ...: label = label[1:]] *)
Fixpoint drop_to_first_char (label : string) : string :=
  match label with
  | EmptyString => EmptyString
  | String c r =>
      if negb (first_char_option c) then drop_to_first_char r else label
  end.

(** The loop over [label[1:]] that keeps the allowed characters. *)
Fixpoint keep_other_chars (rest : string) : string :=
  match rest with
  | EmptyString => EmptyString
  | String c r =>
      if other_char_option c then String c (keep_other_chars r)
      else keep_other_chars r
  end.

Definition unable_to_convert_msg (orig_label : string) : string :=
  ("Unable to convert label " ++ orig_label ++ " to NCNAME format.")%string.

Definition strip_to_make_ncname (label : string) : outcome string :=
  let orig_label := label in
  let label := drop_to_first_char label in
  let new_label :=
    match label with
    | EmptyString => EmptyString
    | String c r => String c (keep_other_chars r)
    end in
  if negb (ncname_regex_search new_label)
  then Raises (mkTrestleError (unable_to_convert_msg orig_label))
  else Returns new_label.

End NCName.

(** Modelled from the spec: a set-parameter
    [{ param_id, label?, select?, values? }], a value being the string its
    [__root__] holds. *)
Record SetParameter : Type := mkSetParameter {
  set_param_id : string;
  set_param_label : option string;
  set_param_select : option ParameterSelection;
  set_param_values : option (list string)
}.

Definition setparam_to_param (param_id : string) (set_param : SetParameter)
  : CommonParameter :=
  mkParameter param_id (set_param_label set_param)
              (set_param_select set_param) (set_param_values set_param).

(** One turn of the loop of [_setparam_values_as_str]. *)
Definition setparam_values_step (out_str value : string) : string :=
  let value_str := string_from_root (Some value) in
  if truthy value_str then
    let out_str :=
      if truthy out_str then (out_str ++ ", ")%string else out_str in
    (out_str ++ value_str)%string
  else out_str.

Definition _setparam_values_as_str (set_param : SetParameter) : string :=
  fold_left setparam_values_step (as_list (set_param_values set_param))
            EmptyString.

(** [get_param_vals_from_control_imp], on the [set_parameters] of the
    control implementation, the one field of it that is read. *)
Definition get_param_vals_from_control_imp
  (set_parameters : option (list SetParameter)) : dict string :=
  fold_left
    (fun param_dict set_param =>
       let value_str := _setparam_values_as_str set_param in
       if truthy value_str
       then dict_set (set_param_id set_param) value_str param_dict
       else param_dict)
    (as_list set_parameters) [].

(** [get_control_param_dict], on the [params] of the control, the one field
    of it that is read beside the id that the warning quotes. *)
Definition get_control_param_dict (params : option (list CommonParameter))
  (values_only : bool) : dict CommonParameter :=
  fold_left
    (fun param_dict param =>
       if list_truthy (param_values param) || negb values_only
       then dict_set (param_id param) param param_dict
       else param_dict)
    (as_list params) [].

(* ===================================================================== *)
(** * Reference notions used in the statements *)
(* ===================================================================== *)

Unset Implicit Arguments.

(** The parts of a tree in document order: a part, then its sub-parts. *)
Fixpoint preorder (part : Part) : list Part :=
  part ::
  match part with
  | mkPart _ _ _ _ _ (Some sub) => flat_map preorder sub
  | mkPart _ _ _ _ _ None => []
  end.

Definition control_preorder (control : Control) : list Part :=
  flat_map preorder (as_list (control_parts control)).

(** A part the section search may return: non-empty prose, name not
    skipped. *)
Definition eligible (skip_names : list string) (q : Part) : bool :=
  truthy_opt (part_prose q) && negb (str_in (part_name q) skip_names).

Definition info_of (q : Part) : section_info :=
  (part_id q, part_name q, part_title q).

(** The prose a part contributes to the section [name]. *)
Definition named_prose (name : string) (q : Part) : list string :=
  if String.eqb (part_name q) name
  then match part_prose q with Some p => [p] | None => [] end
  else [].

(** The gap-join rule in the spec's words: every piece is trimmed, empty
    pieces are dropped, the others are separated by one newline. *)
Definition gap_joined (pieces : list string) : string :=
  String.concat newline (filter truthy (map strip pieces)).

(** Removal of the first property whose name is exactly [n]. *)
Fixpoint remove_first_named (n : string) (props : list Property)
  : list Property :=
  match props with
  | [] => []
  | p :: r =>
      if String.eqb (prop_name p) n then r else p :: remove_first_named n r
  end.

(** The name match of [get_prop]: trimmed and case-folded. *)
Definition loose_name_match (n : string) (p : Property) : bool :=
  String.eqb (lower (strip (prop_name p))) (lower (strip n)).

(** A string is trimmed when [strip] leaves it as it is. *)
Definition trimmed (s : string) : Prop := strip s = s.

Fixpoint all_space (s : string) : bool :=
  match s with
  | EmptyString => true
  | String c r => is_space c && all_space r
  end.

(** Lists of trimmed, non-empty pieces. *)
Definition good (l : list string) : Prop :=
  Forall (fun s => trimmed s /\ s <> EmptyString) l.

(** Every part of the list has an identifier. *)
Definition ids_present (l : list Part) : Prop :=
  forall q, In q l -> part_id q <> EmptyString.

Definition found_info (o : option Part) : section_info :=
  match o with Some q => info_of q | None => no_section end.

(** The rule ids of the [param_id] properties of a property sequence. *)
Definition param_rule_ids (props : list Property) : list string :=
  map (fun p => string_from_root (prop_remarks p))
      (filter (fun p => String.eqb (prop_name p) "param_id") props).

(** A property that cannot follow the rule ids [seen]: a [param_id] for a
    rule id already seen, or a description or options for a rule id not
    seen. *)
Definition offending (seen : list string) (prop : Property) : bool :=
  let rule_id := string_from_root (prop_remarks prop) in
  if String.eqb (prop_name prop) "param_id" then str_in rule_id seen
  else if String.eqb (prop_name prop) "param_description"
          || String.eqb (prop_name prop) "param_options"
       then negb (str_in rule_id seen)
       else false.

(** The two properties that record one rule. *)
Definition rule_pair (r : string * string * string) : list Property :=
  let '(rule_id, name, desc) := r in
  [mkProperty "rule_name_id" name (Some rule_id);
   mkProperty "rule_description" desc None].

Definition record_rule (rules : dict (dict string))
  (r : string * string * string) : dict (dict string) :=
  let '(rule_id, name, desc) := r in
  dict_set rule_id [("name", name); ("description", desc)] rules.

(** The rules a property sequence completes, in the order in which they are
    completed, from the pending [name], [desc] and [id_]: the dictionary set
    aside, the loop of [get_rules_from_item].  A [rule_name_id] property sets
    the pending name and rule id, a [rule_description] property the pending
    description, a property of another name neither; as soon as both a name
    and a description are pending they make a rule and the pending values
    are cleared. *)
Fixpoint completed_rules (props : list Property) (name desc id_ : string)
  : list (string * string * string) :=
  match props with
  | [] => []
  | prop :: r =>
      let '(name, desc, id_) :=
        if String.eqb (prop_name prop) "rule_name_id"
        then (prop_value prop, desc, string_from_root (prop_remarks prop))
        else if String.eqb (prop_name prop) "rule_description"
        then (name, prop_value prop, id_)
        else (name, desc, id_) in
      if truthy name && truthy desc
      then (id_, name, desc)
             :: completed_rules r EmptyString EmptyString EmptyString
      else completed_rules r name desc id_
  end.

(** The entry of the last rule of the list recorded under the rule id
    [rule_id], if any. *)
Definition last_rule (rule_id : string) (l : list (string * string * string))
  : option (dict string) :=
  match find (fun r => String.eqb (fst (fst r)) rule_id) (rev l) with
  | Some (_, name, desc) => Some [("name", name); ("description", desc)]
  | None => None
  end.

(** The properties that bear on the rules of an item. *)
Definition rule_props (props : list Property) : list Property :=
  filter (fun p => String.eqb (prop_name p) "rule_name_id"
                   || String.eqb (prop_name p) "rule_description") props.

(** A [rule_name_id] property followed by a [rule_description] property,
    both with a value. *)
Definition well_paired (pp : Property * Property) : Prop :=
  prop_name (fst pp) = "rule_name_id"
  /\ prop_name (snd pp) = "rule_description"
  /\ prop_value (fst pp) <> EmptyString
  /\ prop_value (snd pp) <> EmptyString.

Definition pair_props (pp : Property * Property) : list Property :=
  [fst pp; snd pp].

(** The rule a pair of properties records: the rule id is read from the
    remarks of the [rule_name_id] property. *)
Definition rule_of_pair (pp : Property * Property)
  : string * string * string :=
  (string_from_root (prop_remarks (fst pp)),
   prop_value (fst pp), prop_value (snd pp)).

(** The elements [extend_novel] appends, in the spec's words: the elements
    of the source sequence, in order, that are not already equal to an
    element of the destination sequence as it stands. *)
Fixpoint novel (seen src_list : list value) : list value :=
  match src_list with
  | [] => []
  | x :: r =>
      if py_in x seen then novel seen r else x :: novel (seen ++ [x]) r
  end.

(** No element of the sequence equals a later one. *)
Fixpoint distinct (l : list value) : Prop :=
  match l with
  | [] => True
  | x :: r => (forall y, In y r -> py_eq x y = false) /\ distinct r
  end.

(** What one turn of the loop leaves under [key]. *)
Definition merged_entry (overwrite : bool) (dv : option value) (sv : value)
  : value :=
  match dv with
  | None => sv
  | Some (VDict d) =>
      match sv with
      | VDict s => VDict (merge_dicts_deep d s overwrite)
      | _ => if overwrite then sv else VDict d
      end
  | Some (VList dl) =>
      match sv with
      | VList sl => VList (extend_novel dl sl)
      | _ => if overwrite then sv else VList dl
      end
  | Some dv => if overwrite then sv else dv
  end.

Definition sample_control : Control :=
  mkControl "ac-1" "Policy" None
    (Some [mkPart "ac-1_smt" "statement" None (Some "top") None
             (Some [mkPart "ac-1_smt.a" "item" None (Some "first item") None
                      None]);
           mkPart "ac-1_gdn" "guidance" (Some "Guidance") (Some "advice") None
             None]).

(** The mapping [{'a': l, 'b': l}] at address 0, with the one sequence
    [l = [1]], at address 1, held under both keys, and the mapping
    [{'a': [2], 'b': [3]}] at address 2. *)
Definition shared_heap : heap :=
  [ODict [("a", HRef 1); ("b", HRef 1)];
   OList [HInt 1];
   ODict [("a", HRef 3); ("b", HRef 4)];
   OList [HInt 2];
   OList [HInt 3]].

Definition sample_old_req : ImplementedRequirement :=
  mkImplementedRequirement "uuid-req" "ac-1" "old text"
    (Some [mkProperty "implementation-status" "planned" None])
    (Some [mkStatement "ac-1_smt.a" "uuid-a" "old a"
             (Some [mkProperty "implementation-status" "planned" None;
                    mkProperty "owner" "ops" None])
             (Some "kept");
           mkStatement "ac-1_smt.b" "uuid-b" "old b" None None]).

Definition sample_new_req : ImplementedRequirement :=
  mkImplementedRequirement "uuid-new" "ac-1" "new text"
    (Some [mkProperty "implementation-status" "implemented" None])
    (Some [mkStatement "ac-1_smt.a" "uuid-a2" "new a"
             (Some [mkProperty "implementation-status" "partial" None])
             None;
           mkStatement "ac-1_smt.c" "uuid-c" "new c" None None]).

Definition sample_other_req : ImplementedRequirement :=
  mkImplementedRequirement "uuid-other" "ac-2" "other" None None.

Definition sample_component : DefinedComponent :=
  mkDefinedComponent "comp"
    (Some [mkControlImplementation "uuid-ci" "source" "bucket"
             [sample_other_req; sample_old_req]]).

Section ComponentNotions.
Variables IMPLEMENTATION_STATUS STATUS_OTHER : string.

(** The number of properties that carry the status name. *)
Definition status_count (props : Props) : nat :=
  length (filter (fun p => String.eqb (prop_name p) IMPLEMENTATION_STATUS)
                 (as_list props)).

(** The old statement that [statement_dict] holds for an id: the last one
    of the list with that id. *)
Definition old_statement (old : list Statement) (id : string)
  : option Statement :=
  find (fun o => String.eqb (statement_id o) id) (rev old).

(** The new statements that carry an id, in order. *)
Definition same_id (id : string) (new : list Statement) : list Statement :=
  filter (fun s => String.eqb (statement_id s) id) new.

(** The statement that the merge leaves at the place of a new statement. *)
Definition merged_statement (old new : list Statement) (s : Statement)
  : Statement :=
  match old_statement old (statement_id s) with
  | Some o => fold_left (update_statement IMPLEMENTATION_STATUS STATUS_OTHER)
                      (same_id (statement_id s) new) o
  | None => update_statement IMPLEMENTATION_STATUS STATUS_OTHER s s
  end.

(** No implemented requirement of the bucket is for the control id. *)
Definition no_match (control_id : string) (ci : ControlImplementation)
  : Prop :=
  Forall (fun r => imp_req_control_id r <> control_id)
         (implemented_requirements ci).

End ComponentNotions.

(** [n] times the character ['#']. *)
Fixpoint hashes (n : nat) : string :=
  match n with
  | 0 => EmptyString
  | S k => String "#"%char (hashes k)
  end.

(** The number of properties whose name is exactly [n]. *)
Definition count_named (n : string) (props : list Property) : nat :=
  length (filter (fun q => String.eqb (prop_name q) n) props).

(** The values of the properties of a given name, in order. *)
Definition values_named (n : string) (props : list Property) : list string :=
  map prop_value (filter (fun p => String.eqb (prop_name p) n) props).

(** The error that [get_params_from_item] raises at an offending property. *)
Definition offence_msg (prop : Property) : string :=
  let rule_id := string_from_root (prop_remarks prop) in
  if String.eqb (prop_name prop) "param_id"
  then duplicate_param_msg (prop_value prop) rule_id
  else if String.eqb (prop_name prop) "param_description"
       then orphan_description_msg rule_id
       else orphan_options_msg rule_id.

(** The entries of the rule dictionary are made of a name and a description
    that the properties [seen] carry. *)
Definition rule_entry_from (seen : list Property) (entry : dict string)
  : Prop :=
  exists name desc,
    entry = [("name", name); ("description", desc)]
    /\ name <> EmptyString /\ desc <> EmptyString
    /\ In name (values_named "rule_name_id" seen)
    /\ In desc (values_named "rule_description" seen).

Definition rules_invariant (seen : list Property) (st : rules_state) : Prop :=
  let '(rules, name, desc, _) := st in
  (forall k entry, dict_get k rules = Some entry -> rule_entry_from seen entry)
  /\ (name = EmptyString \/ In name (values_named "rule_name_id" seen))
  /\ (desc = EmptyString \/ In desc (values_named "rule_description" seen)).

(** Every character of the string passes the test. *)
Fixpoint all_chars (f : ascii -> bool) (s : string) : bool :=
  match s with
  | EmptyString => true
  | String c r => f c && all_chars f r
  end.

(** [r] is [s] with some characters left out. *)
Fixpoint subseq (r s : string) : Prop :=
  match s with
  | EmptyString => r = EmptyString
  | String d s' =>
      subseq r s'
      \/ match r with
         | EmptyString => False
         | String c r' => c = d /\ subseq r' s'
         end
  end.

(** The mapping [d1] followed by the entries of [d2]. *)
Fixpoint vapp (d1 d2 : vdict) : vdict :=
  match d1 with
  | DNil => d2
  | DCons k v r => DCons k v (vapp r d2)
  end.

(** Values as Python builds them: no mapping, at any depth, has a key
    twice. *)
Fixpoint wf_value (v : value) : Prop :=
  match v with
  | VList l =>
      (fix all (l : list value) : Prop :=
         match l with
         | [] => True
         | x :: r => wf_value x /\ all r
         end) l
  | VDict d => wf_dict d
  | _ => True
  end
with wf_dict (d : vdict) : Prop :=
  match d with
  | DNil => True
  | DCons k v r => ~ In k (vkeys r) /\ wf_value v /\ wf_dict r
  end.


(** What stays as it is when a well-formed value meets itself. *)
Definition self_stable (v : value) : Prop :=
  wf_value v ->
  py_eq v v = true
  /\ match v with
     | VDict s => forall overwrite, merge_dicts_deep s s overwrite = s
     | VList l => extend_novel l l = l
     | _ => True
     end.

Definition self_stable_dict (d : vdict) : Prop :=
  wf_dict d ->
  (forall d2, (forall k v, vget k d = Some v -> vget k d2 = Some v) ->
              py_dict_le d d2 = true)
  /\ (forall dest overwrite,
         (forall k v, vget k d = Some v -> vget k dest = Some v) ->
         merge_dicts_deep dest d overwrite = dest).

(** Sample character classes: lower-case letters first, then letters and
    hyphens. *)
Definition sample_first_char (c : ascii) : bool :=
  (97 <=? nat_of_ascii c) && (nat_of_ascii c <=? 122).

Definition sample_other_char (c : ascii) : bool :=
  sample_first_char c || Ascii.eqb c "-"%char.



(** The depth of a value, which bounds the fuel that the merge in the store
    needs: the nesting of its sequences and mappings. *)
Fixpoint depth (v : value) : nat :=
  match v with
  | VList l =>
      S ((fix deepest (l : list value) : nat :=
            match l with
            | [] => 0
            | x :: r => Nat.max (depth x) (deepest r)
            end) l)
  | VDict d => S (depth_dict d)
  | _ => 0
  end
with depth_dict (d : vdict) : nat :=
  match d with
  | DNil => 0
  | DCons _ v r => Nat.max (depth v) (depth_dict r)
  end.

(** [layout h v hv fp]: in the store [h], [hv] stands for the tree [v];
    [fp] lists the addresses of the objects of [v], one for each place that
    holds a sequence or a mapping.  When [fp] has no repetition, no object
    of [v] is held in two places. *)
Inductive layout (h : heap) : value -> hval -> list address -> Prop :=
| layout_None : layout h VNone HNone []
| layout_Bool (b : bool) : layout h (VBool b) (HBool b) []
| layout_Int (z : Z) : layout h (VInt z) (HInt z) []
| layout_Str (s : string) : layout h (VStr s) (HStr s) []
| layout_List (l : list value) (items : list hval) (a : address)
    (fp : list address) :
    heap_get h a = Some (OList items) ->
    layout_items h l items fp ->
    layout h (VList l) (HRef a) (a :: fp)
| layout_Dict (d : vdict) (entries : dict hval) (a : address)
    (fp : list address) :
    heap_get h a = Some (ODict entries) ->
    layout_entries h d entries fp ->
    layout h (VDict d) (HRef a) (a :: fp)
with layout_items (h : heap)
  : list value -> list hval -> list address -> Prop :=
| layout_items_nil : layout_items h [] [] []
| layout_items_cons (v : value) (hv : hval) (fv : list address)
    (l : list value) (items : list hval) (fp : list address) :
    layout h v hv fv ->
    layout_items h l items fp ->
    layout_items h (v :: l) (hv :: items) (fv ++ fp)
with layout_entries (h : heap)
  : vdict -> dict hval -> list address -> Prop :=
| layout_entries_nil : layout_entries h DNil [] []
| layout_entries_cons (k : string) (v : value) (hv : hval)
    (fv : list address) (d : vdict) (entries : dict hval)
    (fp : list address) :
    layout h v hv fv ->
    layout_entries h d entries fp ->
    layout_entries h (DCons k v d) ((k, hv) :: entries) (fv ++ fp).

Scheme layout_mut := Minimality for layout Sort Prop
  with layout_items_mut := Minimality for layout_items Sort Prop
  with layout_entries_mut := Minimality for layout_entries Sort Prop.
Combined Scheme layout_mutind
  from layout_mut, layout_items_mut, layout_entries_mut.

(** Two lists of addresses with none in common. *)
Definition apart (l1 l2 : list address) : Prop :=
  forall a, In a l1 -> ~ In a l2.

(** [h'] holds what [h] holds at every address outside [m]. *)
Definition same_outside (m : list address) (h h' : heap) : Prop :=
  forall a, ~ In a m -> heap_get h' a = heap_get h a.

(** The entries of [dest] while the loop goes through the keys of [src],
    [pend] being the keys yet to come.  An entry under a key yet to come is
    pending: it stands for a tree of its own objects, listed in the first
    list of addresses.  The other entries are settled: the loop does not
    come back to them, and their objects, listed in the second list, may be
    objects of [src]. *)
Inductive dest_entries (h : heap) (pend : list string)
  : vdict -> dict hval -> list address -> list address -> Prop :=
| entries_nil : dest_entries h pend DNil [] [] []
| entry_pending (k : string) (v : value) (hv : hval) (fv : list address)
    (d : vdict) (entries : dict hval) (fp fo : list address) :
    In k pend -> wf_value v -> layout h v hv fv ->
    dest_entries h pend d entries fp fo ->
    dest_entries h pend (DCons k v d) ((k, hv) :: entries) (fv ++ fp) fo
| entry_settled (k : string) (v : value) (hv : hval) (fv : list address)
    (d : vdict) (entries : dict hval) (fp fo : list address) :
    ~ In k pend -> layout h v hv fv ->
    dest_entries h pend d entries fp fo ->
    dest_entries h pend (DCons k v d) ((k, hv) :: entries) fp (fv ++ fo).

Definition sample_dest_value : vdict :=
  DCons "title" (VStr "old")
    (DCons "tags" (VList [VStr "a"])
       (DCons "x-trestle" (VDict (DCons "v" (VInt 1) DNil)) DNil)).

Definition sample_src_value : vdict :=
  DCons "tags" (VList [VStr "a"; VStr "b"; VStr "b"])
    (DCons "title" (VStr "new")
       (DCons "x-trestle" (VDict (DCons "w" (VBool true) DNil))
          (DCons "extra" VNone DNil))).

(** [sample_dest_value] at address 0 and [sample_src_value] at address 3,
    every object held once. *)
Definition unshared_heap : heap :=
  [ODict [("title", HStr "old"); ("tags", HRef 1); ("x-trestle", HRef 2)];
   OList [HStr "a"];
   ODict [("v", HInt 1)];
   ODict [("tags", HRef 4); ("title", HStr "new"); ("x-trestle", HRef 5);
          ("extra", HNone)];
   OList [HStr "a"; HStr "b"; HStr "b"];
   ODict [("w", HBool true)]].

(* ===================================================================== *)
(** * Lemmas on strings *)
(* ===================================================================== *)

Lemma truthy_false_iff (s : string) : truthy s = false <-> s = EmptyString.
Proof. destruct s; simpl; split; congruence. Qed.

Lemma truthy_true_iff (s : string) : truthy s = true <-> s <> EmptyString.
Proof. destruct s; simpl; split; congruence. Qed.

Lemma lstrip_head (s : string) (c : ascii) (r : string) :
  lstrip s = String c r -> is_space c = false.
Proof.
  induction s as [|d s IH]; simpl; [discriminate|].
  destruct (is_space d) eqn:E; [exact IH|].
  intros Heq. inversion Heq; subst. exact E.
Qed.

Lemma lstrip_keep (c : ascii) (r : string) :
  is_space c = false -> lstrip (String c r) = String c r.
Proof. intros E; simpl; rewrite E; reflexivity. Qed.

Lemma rstrip_head (s : string) (c : ascii) (r : string) :
  rstrip s = String c r -> exists r', s = String c r'.
Proof.
  destruct s as [|d s]; simpl; [discriminate|].
  destruct (rstrip s); [destruct (is_space d)|];
    intros Heq; inversion Heq; subst; eauto.
Qed.

Lemma rstrip_idem (s : string) : rstrip (rstrip s) = rstrip s.
Proof.
  induction s as [|d s IH]; simpl; [reflexivity|].
  destruct (rstrip s) as [|e t] eqn:E.
  - destruct (is_space d) eqn:Ed; simpl; [reflexivity|].
    rewrite Ed; reflexivity.
  - simpl in *. rewrite IH. reflexivity.
Qed.

Lemma rstrip_length (s : string) : String.length (rstrip s) <= String.length s.
Proof.
  induction s as [|d s IH]; simpl; [lia|].
  destruct (rstrip s); [destruct (is_space d)|]; simpl in *; lia.
Qed.

Lemma lstrip_strip (s : string) : lstrip (strip s) = strip s.
Proof.
  unfold strip. destruct (rstrip (lstrip s)) as [|c r] eqn:E; [reflexivity|].
  destruct (rstrip_head _ _ _ E) as [r' Hr'].
  apply lstrip_keep. exact (lstrip_head _ _ _ Hr').
Qed.

Lemma rstrip_strip (s : string) : rstrip (strip s) = strip s.
Proof. unfold strip. apply rstrip_idem. Qed.

Lemma strip_idem (s : string) : strip (strip s) = strip s.
Proof.
  unfold strip at 1. rewrite lstrip_strip. apply rstrip_strip.
Qed.

Lemma trimmed_lstrip (s : string) : trimmed s -> lstrip s = s.
Proof. unfold trimmed; intros H. rewrite <- H. apply lstrip_strip. Qed.

Lemma trimmed_rstrip (s : string) : trimmed s -> rstrip s = s.
Proof. unfold trimmed; intros H. rewrite <- H. apply rstrip_strip. Qed.

Lemma trimmed_first (c : ascii) (r : string) :
  trimmed (String c r) -> is_space c = false.
Proof. intros H. exact (lstrip_head _ _ _ (trimmed_lstrip _ H)). Qed.

Lemma rstrip_app_keep (x b : string) :
  b <> EmptyString -> rstrip b = b -> rstrip (x ++ b) = (x ++ b)%string.
Proof.
  intros Hb Hr. induction x as [|d x IH]; simpl; [exact Hr|].
  rewrite IH. destruct (x ++ b)%string eqn:E; [|reflexivity].
  destruct x; simpl in E; [congruence|discriminate].
Qed.

Lemma rstrip_drop_last (r : string) (c : ascii) :
  is_space c = true -> rstrip (r ++ String c EmptyString) = rstrip r.
Proof.
  intros Hc. induction r as [|d r IH]; simpl.
  - rewrite Hc. reflexivity.
  - rewrite IH. reflexivity.
Qed.

Lemma app_length_string (a b : string) :
  String.length (a ++ b) = String.length a + String.length b.
Proof. induction a; simpl; congruence. Qed.

Lemma trimmed_last (r : string) (c : ascii) :
  trimmed (r ++ String c EmptyString) -> is_space c = false.
Proof.
  intros H. destruct (is_space c) eqn:E; [|reflexivity].
  apply trimmed_rstrip in H. rewrite (rstrip_drop_last _ _ E) in H.
  pose proof (rstrip_length r) as Hl. rewrite H in Hl.
  rewrite app_length_string in Hl. simpl in Hl. lia.
Qed.

Lemma string_app_assoc (a b c : string) :
  ((a ++ b) ++ c = a ++ b ++ c)%string.
Proof. induction a; simpl; congruence. Qed.

Lemma string_app_empty_r (a : string) : (a ++ EmptyString)%string = a.
Proof. induction a; simpl; congruence. Qed.

Lemma trimmed_join (a b : string) :
  trimmed a -> trimmed b -> a <> EmptyString -> b <> EmptyString ->
  trimmed (a ++ newline ++ b).
Proof.
  intros Ha Hb Na Nb. unfold trimmed, strip.
  destruct a as [|c a']; [congruence|].
  change (String c a' ++ newline ++ b)%string
    with (String c (a' ++ newline ++ b)).
  rewrite (lstrip_keep c _ (trimmed_first _ _ Ha)).
  change (String c (a' ++ newline ++ b))
    with (String c a' ++ newline ++ b)%string.
  rewrite <- string_app_assoc.
  apply rstrip_app_keep; [exact Nb|apply trimmed_rstrip; exact Hb].
Qed.

Lemma trimmed_strip (s : string) : trimmed (strip s).
Proof. apply strip_idem. Qed.

Lemma trimmed_empty : trimmed EmptyString.
Proof. reflexivity. Qed.

Lemma all_space_lstrip (s : string) : all_space (lstrip s) = all_space s.
Proof.
  induction s as [|c s IH]; simpl; [reflexivity|].
  destruct (is_space c) eqn:E; simpl; [exact IH|].
  rewrite E. reflexivity.
Qed.

Lemma rstrip_empty_iff (s : string) :
  rstrip s = EmptyString <-> all_space s = true.
Proof.
  induction s as [|c s IH]; simpl; [tauto|].
  destruct (rstrip s) as [|d t] eqn:E.
  - destruct (is_space c); simpl; [tauto|].
    split; discriminate.
  - split; [discriminate|]. intros H.
    apply andb_true_iff in H. destruct H as [_ H].
    apply IH in H. discriminate.
Qed.

Lemma strip_empty_iff (s : string) :
  strip s = EmptyString <-> all_space s = true.
Proof.
  unfold strip. rewrite rstrip_empty_iff. rewrite all_space_lstrip. tauto.
Qed.

(* ===================================================================== *)
(** * Lemmas on the gap join *)
(* ===================================================================== *)

Lemma concat_cons2 (sep x y : string) (r : list string) :
  String.concat sep (x :: y :: r)
  = (x ++ sep ++ String.concat sep (y :: r))%string.
Proof. reflexivity. Qed.

Lemma concat_nonempty (y : string) (r : list string) :
  y <> EmptyString -> String.concat newline (y :: r) <> EmptyString.
Proof.
  intros Hy. destruct r as [|z r]; [exact Hy|].
  rewrite concat_cons2. destruct y; [congruence|discriminate].
Qed.

Lemma concat_trimmed (l : list string) :
  good l -> trimmed (String.concat newline l).
Proof.
  induction l as [|x l IH]; intros Hg; [apply trimmed_empty|].
  inversion Hg as [|? ? [Hx Nx] Hl]; subst.
  destruct l as [|y l]; [exact Hx|].
  rewrite concat_cons2. apply trimmed_join; auto.
  inversion Hl as [|? ? [_ Ny] _]; subst. apply concat_nonempty; exact Ny.
Qed.

Lemma concat_app_nonempty (sep : string) (xs ys : list string) :
  xs <> [] -> ys <> [] ->
  String.concat sep (xs ++ ys)
  = (String.concat sep xs ++ sep ++ String.concat sep ys)%string.
Proof.
  intros Hx Hy. induction xs as [|x xs IH]; [congruence|].
  destruct xs as [|x' xs].
  - destruct ys; [congruence|reflexivity].
  - change ((x :: x' :: xs) ++ ys) with (x :: x' :: (xs ++ ys)).
    rewrite !concat_cons2.
    change (x' :: xs ++ ys) with ((x' :: xs) ++ ys).
    rewrite IH by discriminate.
    rewrite !string_app_assoc. reflexivity.
Qed.

Lemma gap_join_concat (xs ys : list string) :
  good xs -> good ys ->
  _gap_join (String.concat newline xs) (String.concat newline ys)
  = String.concat newline (xs ++ ys).
Proof.
  intros Gx Gy. unfold _gap_join.
  pose proof (concat_trimmed _ Gx) as Tx.
  pose proof (concat_trimmed _ Gy) as Ty.
  unfold trimmed in Tx, Ty. cbv zeta. rewrite !Tx, !Ty. clear Tx Ty.
  destruct ys as [|y ys].
  - simpl. rewrite app_nil_r. reflexivity.
  - inversion Gy as [|? ? [_ Ny] _]; subst.
    pose proof (concat_nonempty y ys Ny) as Hne.
    apply truthy_true_iff in Hne. rewrite Hne. simpl negb. cbv iota.
    destruct xs as [|x xs]; [reflexivity|].
    inversion Gx as [|? ? [_ Nx] _]; subst.
    pose proof (concat_nonempty x xs Nx) as Hnx.
    apply truthy_true_iff in Hnx. rewrite Hnx.
    symmetry. apply concat_app_nonempty; discriminate.
Qed.

Lemma good_norm (l : list string) : good (filter truthy (map strip l)).
Proof.
  induction l as [|x l IH]; simpl; [constructor|].
  destruct (truthy (strip x)) eqn:E; [|exact IH].
  constructor; [|exact IH]. split; [apply trimmed_strip|].
  apply truthy_true_iff; exact E.
Qed.

Lemma gap_joined_app (l1 l2 : list string) :
  gap_joined (l1 ++ l2) = _gap_join (gap_joined l1) (gap_joined l2).
Proof.
  unfold gap_joined. rewrite map_app, filter_app.
  symmetry. apply gap_join_concat; apply good_norm.
Qed.

Lemma gap_joined_trimmed (l : list string) : trimmed (gap_joined l).
Proof. apply concat_trimmed, good_norm. Qed.

(* ===================================================================== *)
(** * Induction on part trees *)
(* ===================================================================== *)

Section PartInduction.
Variable P : Part -> Prop.
Hypothesis step :
  forall part, Forall P (as_list (part_parts part)) -> P part.

Fixpoint Part_tree_ind (part : Part) : P part :=
  step part
    (match part return Forall P (as_list (part_parts part)) with
     | mkPart _ _ _ _ _ (Some sub) =>
         (fix go (l : list Part) : Forall P l :=
            match l with
            | [] => Forall_nil P
            | x :: r => Forall_cons x (Part_tree_ind x) (go r)
            end) sub
     | mkPart _ _ _ _ _ None => Forall_nil P
     end).
End PartInduction.

Lemma preorder_unfold (part : Part) :
  preorder part = part :: flat_map preorder (as_list (part_parts part)).
Proof. destruct part as [i n t pr ps [sub|]]; reflexivity. Qed.

Lemma find_app {A : Type} (f : A -> bool) (l1 l2 : list A) :
  find f (l1 ++ l2)
  = match find f l1 with Some x => Some x | None => find f l2 end.
Proof.
  induction l1 as [|x l1 IH]; simpl; [reflexivity|].
  destruct (f x); [reflexivity|exact IH].
Qed.

(* ===================================================================== *)
(** * Section prose is the gap join of the named prose in document order *)
(* ===================================================================== *)

Lemma gap_join_initial (p : string) :
  _gap_join EmptyString p = gap_joined [p].
Proof.
  unfold _gap_join, gap_joined. simpl.
  destruct (truthy (strip p)) eqn:E; simpl; [|reflexivity].
  reflexivity.
Qed.

Lemma section_part_unfold (part : Part) (name : string) :
  _get_control_section_part part name
  = fold_left
      (fun prose sub_part =>
         _gap_join prose (_get_control_section_part sub_part name))
      (as_list (part_parts part)) (gap_joined (named_prose name part)).
Proof.
  destruct part as [i n t pr ps sub].
  assert (Hinit :
    match pr with
    | Some p => if String.eqb n name then _gap_join EmptyString p
                else EmptyString
    | None => EmptyString
    end = gap_joined (named_prose name (mkPart i n t pr ps sub))).
  { unfold named_prose. simpl.
    destruct pr as [p|]; destruct (String.eqb n name);
      try reflexivity. apply gap_join_initial. }
  rewrite <- Hinit. clear Hinit.
  destruct sub as [sub|]; simpl; [|reflexivity].
  generalize (match pr with
              | Some p => if String.eqb n name then _gap_join EmptyString p
                          else EmptyString
              | None => EmptyString
              end).
  induction sub as [|x sub IH]; intros acc; simpl; [reflexivity|].
  apply IH.
Qed.

Lemma section_loop_pieces (name : string) (sub : list Part) :
  Forall (fun sp => _get_control_section_part sp name
                    = gap_joined (flat_map (named_prose name) (preorder sp)))
         sub ->
  forall acc : list string,
    fold_left
      (fun prose sub_part =>
         _gap_join prose (_get_control_section_part sub_part name))
      sub (gap_joined acc)
    = gap_joined (acc ++ flat_map (named_prose name) (flat_map preorder sub)).
Proof.
  induction 1 as [|sp sub Hsp _ IH]; intros acc; simpl.
  - rewrite app_nil_r. reflexivity.
  - rewrite Hsp, <- gap_joined_app, IH, flat_map_app, app_assoc.
    reflexivity.
Qed.

Lemma section_part_pieces (name : string) (part : Part) :
  _get_control_section_part part name
  = gap_joined (flat_map (named_prose name) (preorder part)).
Proof.
  induction part as [part IH] using Part_tree_ind.
  rewrite section_part_unfold, preorder_unfold.
  rewrite (section_loop_pieces name _ IH). reflexivity.
Qed.

Lemma section_prose_pieces (control : Control) (name : string) :
  _get_control_section_prose control name
  = gap_joined (flat_map (named_prose name) (control_preorder control)).
Proof.
  unfold _get_control_section_prose, control_preorder.
  change EmptyString with (gap_joined []).
  rewrite section_loop_pieces; [reflexivity|].
  apply Forall_forall. intros sp _. apply section_part_pieces.
Qed.

(** C5. The prose of a section is the gap join of the prose of all parts of
    that name, at any depth, in document order: every piece is trimmed, the
    pieces that are empty or hold white space only are dropped, the others
    are separated by one newline, and the result neither starts nor ends
    with white space. *)
Theorem get_section_prose_gap_join :
  forall (control : Control) (name : string),
    let pieces := flat_map (named_prose name) (control_preorder control) in
    let result := _get_control_section_prose control name in
    result = String.concat newline (filter truthy (map strip pieces))
    /\ (forall s, truthy (strip s) = false <-> all_space s = true)
    /\ (forall c r, result = String c r -> is_space c = false)
    /\ (forall r c, result = (r ++ String c EmptyString)%string ->
                    is_space c = false).
Proof.
  intros control name pieces result.
  assert (Hres : result = gap_joined pieces) by apply section_prose_pieces.
  assert (Htrim : trimmed result)
    by (rewrite Hres; apply gap_joined_trimmed).
  split; [exact Hres|]. split; [|split].
  - intros s. rewrite truthy_false_iff. apply strip_empty_iff.
  - intros c r Heq. rewrite Heq in Htrim. exact (trimmed_first _ _ Htrim).
  - intros r c Heq. rewrite Heq in Htrim. exact (trimmed_last _ _ Htrim).
Qed.

Lemma get_section_prose_gap_join_witness :
  _get_control_section_prose
    (mkControl "ac-1" "Policy" None
       (Some [mkPart "ac-1_gdn" "guidance" None (Some " first  ") None
                (Some [mkPart "ac-1_gdn.a" "guidance" None (Some "second")
                         None None])]))
    "guidance"
  = String.concat newline ["first"; "second"].
Proof.
  exact (proj1 (get_section_prose_gap_join
                  (mkControl "ac-1" "Policy" None
                     (Some [mkPart "ac-1_gdn" "guidance" None
                              (Some " first  ") None
                              (Some [mkPart "ac-1_gdn.a" "guidance" None
                                       (Some "second") None None])]))
                  "guidance")).
Defined.

Example section_prose_sample :
  _get_control_section_prose
    (mkControl "ac-1" "Policy" None
       (Some [mkPart "ac-1_smt" "statement" None (Some "top") None None;
              mkPart "ac-1_gdn" "guidance" None (Some "  first ") None
                (Some [mkPart "ac-1_gdn.a" "guidance" None (Some "   ") None
                         None;
                       mkPart "ac-1_gdn.b" "guidance" None (Some "second") None
                         None])]))
    "guidance"
  = ("first" ++ newline ++ "second")%string.
Proof. reflexivity. Qed.

(* ===================================================================== *)
(** * Section search is a search of the document order *)
(* ===================================================================== *)

Lemma find_section_info_unfold (part : Part) (skip : list string) :
  _find_section_info part skip
  = if eligible skip part then info_of part
    else _find_section_loop (as_list (part_parts part)) skip.
Proof.
  destruct part as [i n t pr ps sub]. unfold eligible, info_of. simpl.
  destruct (truthy_opt pr && negb (str_in n skip)); [reflexivity|].
  destruct sub as [sub|]; [|reflexivity]. simpl.
  induction sub as [|x sub IH]; simpl; [reflexivity|].
  rewrite IH. reflexivity.
Qed.

Lemma find_section_loop_preorder (skip : list string) (sub : list Part) :
  Forall (fun sp => ids_present (preorder sp) ->
                    _find_section_info sp skip
                    = found_info (find (eligible skip) (preorder sp))) sub ->
  ids_present (flat_map preorder sub) ->
  _find_section_loop sub skip
  = found_info (find (eligible skip) (flat_map preorder sub)).
Proof.
  induction 1 as [|sp sub Hsp _ IH]; intros Hids; [reflexivity|].
  cbn [_find_section_loop flat_map]. rewrite find_app.
  assert (Hsp_ids : ids_present (preorder sp)).
  { intros q Hq. apply Hids. cbn [flat_map]. apply in_or_app; left; exact Hq. }
  assert (Hsub_ids : ids_present (flat_map preorder sub)).
  { intros q Hq. apply Hids. cbn [flat_map]. apply in_or_app; right; exact Hq. }
  rewrite (Hsp Hsp_ids).
  destruct (find (eligible skip) (preorder sp)) as [q|] eqn:E.
  - apply find_some in E. destruct E as [Hq _].
    apply Hsp_ids in Hq. apply truthy_true_iff in Hq.
    unfold found_info, info_of. rewrite Hq. reflexivity.
  - unfold found_info at 1. unfold no_section at 1. cbn [truthy].
    apply IH; exact Hsub_ids.
Qed.

Lemma find_section_info_preorder (skip : list string) (part : Part) :
  ids_present (preorder part) ->
  _find_section_info part skip
  = found_info (find (eligible skip) (preorder part)).
Proof.
  induction part as [part IH] using Part_tree_ind. intros Hids.
  rewrite find_section_info_unfold, preorder_unfold. cbn [find].
  destruct (eligible skip part); [reflexivity|].
  apply find_section_loop_preorder; [exact IH|].
  intros q Hq. apply Hids. rewrite preorder_unfold. right; exact Hq.
Qed.

(** C4 fails as stated: the search tells a found part by the truth of the
    identifier it returns, so a part with prose whose identifier is empty
    (the empty string stands for an absent identifier) is passed over
    together with its sub-parts.  Here the first part in pre-order with
    prose and a name outside [skip_names] is the part named ['guidance'],
    and the search returns the later part ['ac-1_nts']. *)
Lemma find_section_counterexample :
  ~ (forall (control : Control) (skip_names : list string),
       _find_section control skip_names
       = match find (eligible skip_names) (control_preorder control) with
         | Some q => (part_id q, part_name q, part_title q)
         | None => (EmptyString, EmptyString, Some EmptyString)
         end).
Proof.
  intros H.
  specialize
    (H (mkControl "ac-1" "Policy" None
          (Some [mkPart "" "guidance" (Some "Guidance") (Some "advice") None
                   (Some [mkPart "ac-1_gdn.a" "guidance" None (Some "more")
                            None None]);
                 mkPart "ac-1_nts" "notes" (Some "Notes") (Some "remark")
                   None None]))
       []).
  vm_compute in H. discriminate H.
Qed.

(** C4, amended. For every control whose parts all have a non-empty
    identifier, and every list [skip_names], the section search returns the
    identifier, name and title of the first part, in depth-first pre-order,
    that has non-empty prose and a name outside [skip_names], and the empty
    triple when the tree has no such part; [get_section] returns the same
    triple together with the prose of that section. *)
Theorem find_section_first_in_preorder :
  forall (control : Control) (skip_names : list string),
    ids_present (control_preorder control) ->
    _find_section control skip_names
    = match find (eligible skip_names) (control_preorder control) with
      | Some q => (part_id q, part_name q, part_title q)
      | None => (EmptyString, EmptyString, Some EmptyString)
      end
    /\ get_section control skip_names
       = match find (eligible skip_names) (control_preorder control) with
         | Some q => (part_id q, part_name q, part_title q,
                      _get_control_section_prose control (part_name q))
         | None => (EmptyString, EmptyString, Some EmptyString, EmptyString)
         end.
Proof.
  intros control skip Hids.
  assert (Hfind : _find_section control skip
                  = found_info (find (eligible skip)
                                     (control_preorder control))).
  { unfold _find_section, control_preorder.
    apply find_section_loop_preorder; [|exact Hids].
    apply Forall_forall. intros sp _. apply find_section_info_preorder. }
  unfold get_section. rewrite Hfind.
  destruct (find (eligible skip) (control_preorder control)) as [q|] eqn:E.
  - split; [reflexivity|]. unfold found_info, info_of.
    apply find_some in E. destruct E as [Hq _].
    apply Hids in Hq. apply truthy_true_iff in Hq. rewrite Hq. reflexivity.
  - split; reflexivity.
Qed.

Lemma find_section_first_in_preorder_witness :
  ids_present (control_preorder sample_control)
  /\ _find_section sample_control ["statement"; "item"]
     = ("ac-1_gdn", "guidance", Some "Guidance").
Proof.
  assert (Hids : ids_present (control_preorder sample_control)).
  { intros q Hq. simpl in Hq.
    destruct Hq as [Hq|[Hq|[Hq|[]]]]; subst q; discriminate. }
  split; [exact Hids|].
  exact (proj1 (find_section_first_in_preorder sample_control
                  ["statement"; "item"] Hids)).
Defined.

(** Without an identifier the first eligible part is passed over, and its
    sub-parts with it. *)
Example find_section_without_id :
  _find_section
    (mkControl "ac-1" "Policy" None
       (Some [mkPart "" "guidance" None (Some "advice") None
                (Some [mkPart "g.a" "guidance" None (Some "more") None None])]))
    []
  = (EmptyString, EmptyString, Some EmptyString).
Proof. reflexivity. Qed.

(* ===================================================================== *)
(** * Rendering stops at a part of another name *)
(* ===================================================================== *)

Lemma str_in_two (x a b : string) :
  x <> a -> x <> b -> str_in x [a; b] = false.
Proof.
  intros Ha Hb. unfold str_in. simpl.
  apply String.eqb_neq in Ha. apply String.eqb_neq in Hb.
  rewrite Ha, Hb. reflexivity.
Qed.

(** C8. A part whose name is neither ['statement'] nor the item type renders
    as the empty list whatever its sub-parts are, so the sub-parts of a
    rendered part that carry another name contribute nothing, and neither do
    the parts beneath them. *)
Theorem get_part_other_name_empty :
  forall (item_type : string) (skip_id : option string),
    (forall id name title prose props parts,
        name <> "statement" -> name <> item_type ->
        get_part (mkPart id name title prose props parts) item_type skip_id
        = [])
    /\ (forall sub : list Part,
           Forall (fun prt => part_name prt <> "statement"
                              /\ part_name prt <> item_type) sub ->
           flat_map (fun prt => get_part prt item_type skip_id) sub = []).
Proof.
  intros item_type skip_id.
  assert (Hone : forall id name title prose props parts,
             name <> "statement" -> name <> item_type ->
             get_part (mkPart id name title prose props parts)
                      item_type skip_id = []).
  { intros id name title prose props parts Hs Hi.
    cbn [get_part part_name]. rewrite (str_in_two _ _ _ Hs Hi).
    reflexivity. }
  split; [exact Hone|].
  induction 1 as [|prt sub [Hs Hi] _ IH]; [reflexivity|].
  cbn [flat_map]. rewrite IH. destruct prt as [i n t pr ps sb].
  rewrite (Hone i n t pr ps sb Hs Hi). reflexivity.
Qed.

Lemma get_part_other_name_empty_witness :
  get_part
    (mkPart "ac-1_gdn" "guidance" None (Some "advice") None
       (Some [mkPart "ac-1_gdn.a" "item" None (Some "hidden") None None]))
    "item" None
  = [].
Proof.
  apply (proj1 (get_part_other_name_empty "item" None)); discriminate.
Defined.

Example get_part_sample :
  get_part
    (mkPart "ac-1_smt" "statement" None (Some "top") None
       (Some [mkPart "ac-1_smt.a" "item" None (Some "first")
                (Some [mkProperty "label" "a." None]) None;
              mkPart "ac-1_smt.n" "note" None (Some "aside") None
                (Some [mkPart "ac-1_smt.n.1" "item" None (Some "hidden")
                         None None])]))
    "item" (Some "ac-1_smt")
  = [Sub [Line (String (ascii_of_nat 92) "[a." ++ String (ascii_of_nat 92) "] first");
          Line EmptyString]].
Proof. reflexivity. Qed.

(* ===================================================================== *)
(** * Exact removal and loose lookup of properties *)
(* ===================================================================== *)

Lemma str_in_cons (x n : string) (names : list string) :
  str_in x (n :: names) = String.eqb n x || str_in x names.
Proof. unfold str_in. simpl. rewrite (String.eqb_sym x n). reflexivity. Qed.

Lemma list_del_index (n : string) (props : list Property) :
  str_in n (map prop_name props) = true ->
  list_del (index_of n (map prop_name props)) props
  = remove_first_named n props.
Proof.
  induction props as [|p props IH]; [discriminate|].
  cbn [map]. rewrite str_in_cons. cbn [index_of remove_first_named].
  destruct (String.eqb (prop_name p) n); [reflexivity|].
  cbn [orb list_del]. intros Hin. rewrite (IH Hin). reflexivity.
Qed.

Lemma remove_first_absent (n : string) (props : list Property) :
  str_in n (map prop_name props) = false ->
  remove_first_named n props = props.
Proof.
  induction props as [|p props IH]; [reflexivity|].
  cbn [map]. rewrite str_in_cons. cbn [remove_first_named].
  destruct (String.eqb (prop_name p) n); [discriminate|].
  cbn [orb]. intros Hin. rewrite (IH Hin). reflexivity.
Qed.

Section PropsFacts.
Context {T : Type} `{TypeWithProps T}.

Lemma replace_prop_props (node : T) (new_prop : Property) :
  get_props (_replace_prop node new_prop)
  = Some (remove_first_named (prop_name new_prop)
            (as_list (get_props node)) ++ [new_prop]).
Proof.
  unfold _replace_prop. rewrite get_set_props.
  destruct (str_in (prop_name new_prop)
              (map prop_name (as_list (get_props node)))) eqn:E.
  - destruct (get_props node) as [l|]; [|discriminate].
    cbn [option_map as_list] in *. rewrite (list_del_index _ _ E).
    reflexivity.
  - rewrite (remove_first_absent _ _ E). reflexivity.
Qed.

Lemma delete_prop_props (node : T) (n : string) :
  get_props (_delete_prop node n)
  = none_if_empty (option_map (remove_first_named n) (get_props node)).
Proof.
  unfold _delete_prop. rewrite get_set_props.
  destruct (str_in n (map prop_name (as_list (get_props node)))) eqn:E.
  - destruct (get_props node) as [l|]; [|discriminate].
    cbn [option_map as_list] in *. rewrite (list_del_index _ _ E).
    reflexivity.
  - destruct (get_props node) as [l|]; [|reflexivity].
    cbn [option_map as_list] in *. rewrite (remove_first_absent _ _ E).
    reflexivity.
Qed.

Lemma get_prop_loop_find (props : list Property) (n : string) :
  get_prop_loop props n
  = option_map (fun p => strip (prop_value p))
               (find (loose_name_match n) props).
Proof.
  induction props as [|p props IH]; [reflexivity|].
  cbn [get_prop_loop find]. unfold loose_name_match at 1.
  destruct (String.eqb (lower (strip (prop_name p))) (lower (strip n)));
    [reflexivity|exact IH].
Qed.

Lemma get_prop_find (node : T) (n : string) (default : option string) :
  get_prop node n default
  = match find (loose_name_match n) (as_list (get_props node)) with
    | Some p => strip (prop_value p)
    | None => if truthy_opt default then unwrap default
              else EmptyString
    end.
Proof.
  unfold get_prop. rewrite get_prop_loop_find.
  destruct (find (loose_name_match n) (as_list (get_props node)));
    reflexivity.
Qed.
End PropsFacts.

(** C10. [_replace_prop] and [_delete_prop] remove the first property whose
    name is exactly the given one, while [get_prop] takes the first property
    whose trimmed, case-folded name matches.  So on a node whose only
    property is named ['Status'], replacing with a property named ['status']
    keeps the old property and appends the new one, and [get_prop] finds the
    old property under either name, before and after. *)
Theorem replace_prop_exact_get_prop_loose :
  forall (T : Type) (TP : TypeWithProps T),
    (forall (node : T) (new_prop : Property),
        get_props (_replace_prop node new_prop)
        = Some (remove_first_named (prop_name new_prop)
                  (as_list (get_props node)) ++ [new_prop]))
    /\ (forall (node : T) (n : string),
           get_props (_delete_prop node n)
           = none_if_empty (option_map (remove_first_named n)
                                       (get_props node)))
    /\ (forall (node : T) (n : string) (default : option string),
           get_prop node n default
           = match find (loose_name_match n) (as_list (get_props node)) with
             | Some p => strip (prop_value p)
             | None => if truthy_opt default then unwrap default
                       else EmptyString
             end)
    /\ (forall (node : T) (v : string) (r : option string)
               (new_prop : Property) (default : option string),
           get_props node = Some [mkProperty "Status" v r] ->
           prop_name new_prop = "status" ->
           get_props (_replace_prop node new_prop)
           = Some [mkProperty "Status" v r; new_prop]
           /\ get_props (_delete_prop node "status")
              = Some [mkProperty "Status" v r]
           /\ get_prop node "Status" default = strip v
           /\ get_prop node "status" default = strip v
           /\ get_prop (_replace_prop node new_prop) "Status" default = strip v
           /\ get_prop (_replace_prop node new_prop) "status" default
              = strip v).
Proof.
  intros T TP.
  split; [apply replace_prop_props|].
  split; [apply delete_prop_props|].
  split; [apply get_prop_find|].
  intros node v r new_prop default Hprops Hname.
  assert (Hrep : get_props (_replace_prop node new_prop)
                 = Some [mkProperty "Status" v r; new_prop]).
  { rewrite replace_prop_props, Hprops, Hname. reflexivity. }
  split; [exact Hrep|].
  split; [rewrite delete_prop_props, Hprops; reflexivity|].
  rewrite !get_prop_find, Hrep, Hprops. repeat split; reflexivity.
Qed.

Lemma replace_prop_exact_get_prop_loose_witness :
  get_props
    (_replace_prop
       (mkControl "ac-1" "Policy"
          (Some [mkProperty "Status" " Withdrawn " None]) None)
       (mkProperty "status" "active" None))
  = Some [mkProperty "Status" " Withdrawn " None;
          mkProperty "status" "active" None]
  /\ get_prop
       (_replace_prop
          (mkControl "ac-1" "Policy"
             (Some [mkProperty "Status" " Withdrawn " None]) None)
          (mkProperty "status" "active" None))
       "status" None
     = "Withdrawn".
Proof.
  destruct (proj2 (proj2 (proj2
              (replace_prop_exact_get_prop_loose Control Control_TypeWithProps)))
              (mkControl "ac-1" "Policy"
                 (Some [mkProperty "Status" " Withdrawn " None]) None)
              " Withdrawn " None (mkProperty "status" "active" None) None
              eq_refl eq_refl)
    as (H1 & _ & _ & _ & _ & H6).
  split; [exact H1|exact H6].
Defined.

(* ===================================================================== *)
(** * Rendering of parameters *)
(* ===================================================================== *)

Lemma count_char_app (c : ascii) (a b : string) :
  count_char c (a ++ b) = count_char c a + count_char c b.
Proof. induction a as [|d a IH]; simpl; [reflexivity|]. rewrite IH. lia. Qed.

Lemma replace_char_app (c : ascii) (new a b : string) :
  replace_char c new (a ++ b)
  = (replace_char c new a ++ replace_char c new b)%string.
Proof.
  induction a as [|d a IH]; simpl; [reflexivity|].
  rewrite IH. destruct (Ascii.eqb d c); [|reflexivity].
  rewrite string_app_assoc. reflexivity.
Qed.

Lemma replace_char_absent (c : ascii) (new s : string) :
  count_char c s = 0 -> replace_char c new s = s.
Proof.
  induction s as [|d s IH]; simpl; [reflexivity|].
  destruct (Ascii.eqb d c); [discriminate|].
  intros Hc. rewrite (IH Hc). reflexivity.
Qed.

(** The text a mode renders before any template is applied. *)
Lemma param_to_str_rendered (param : CommonParameter) (rep : ParameterRep)
  (verbose brackets : bool) :
  rep <> LEAVE_MOUSTACHE ->
  exists rendered,
    param_to_str param rep verbose brackets None = Returns (Some rendered)
    /\ forall fmt,
        param_to_str param rep verbose brackets (Some fmt)
        = if truthy fmt then
            if 1 <? count_char dot fmt
            then Raises (mkTrestleError (multiple_dots_msg fmt))
            else Returns (Some (replace_char dot rendered fmt))
          else Returns (Some rendered).
Proof.
  intros Hrep. destruct rep; [congruence| | | |];
    unfold param_to_str; eexists; (split; [reflexivity|]); intros fmt;
    reflexivity.
Qed.

(** C7. In mode [VALUE_OR_STRING_NONE] and without a template, a parameter
    with no values renders as the string ['None'], and a parameter whose
    values are the single string ['x'] renders as ['x']. *)
Theorem param_to_str_value_or_string_none :
  forall (param : CommonParameter) (verbose brackets : bool),
    (param_values param = None \/ param_values param = Some [] ->
     param_to_str param VALUE_OR_STRING_NONE verbose brackets None
     = Returns (Some "None"))
    /\ (param_values param = Some ["x"] ->
        param_to_str param VALUE_OR_STRING_NONE verbose brackets None
        = Returns (Some "x")).
Proof.
  intros param verbose brackets. unfold param_to_str, _param_values_as_str,
    _param_values_as_str_list.
  split.
  - intros [Hv|Hv]; rewrite Hv; reflexivity.
  - intros Hv. rewrite Hv. reflexivity.
Qed.

Lemma param_to_str_value_or_string_none_witness :
  param_to_str (mkParameter "ac-1_prm_1" (Some "frequency") None None)
               VALUE_OR_STRING_NONE false false None
  = Returns (Some "None")
  /\ param_to_str (mkParameter "ac-1_prm_1" (Some "frequency") None
                               (Some ["x"]))
                  VALUE_OR_STRING_NONE false false None
     = Returns (Some "x").
Proof.
  split.
  - apply (proj1 (param_to_str_value_or_string_none
                    (mkParameter "ac-1_prm_1" (Some "frequency") None None)
                    false false)).
    left; reflexivity.
  - apply (proj2 (param_to_str_value_or_string_none
                    (mkParameter "ac-1_prm_1" (Some "frequency") None
                                 (Some ["x"]))
                    false false)).
    reflexivity.
Defined.

(** C9. In mode [LEAVE_MOUSTACHE] the call returns [None] whatever the
    template is, also when the template holds several dots; a call can only
    fail, and a template is only applied, when the mode has rendered a
    string. *)
Theorem param_to_str_leave_moustache :
  forall (param : CommonParameter) (verbose brackets : bool)
         (params_format : option string),
    param_to_str param LEAVE_MOUSTACHE verbose brackets params_format
    = Returns None
    /\ (forall rep : ParameterRep,
           param_to_str param rep verbose brackets None = Returns None ->
           param_to_str param rep verbose brackets params_format
           = Returns None)
    /\ (forall rep : ParameterRep,
           raised (param_to_str param rep verbose brackets params_format)
           = true ->
           exists rendered fmt,
             param_to_str param rep verbose brackets None
             = Returns (Some rendered)
             /\ params_format = Some fmt /\ 1 < count_char dot fmt).
Proof.
  intros param verbose brackets params_format.
  split; [reflexivity|]. split.
  - intros rep Hnone. destruct rep; [reflexivity| | | |];
      unfold param_to_str in Hnone; discriminate.
  - intros rep Hraised. destruct rep; [discriminate| | | |].
    all: match goal with
         | |- context [param_to_str ?p ?r ?v ?b None] =>
             destruct (param_to_str_rendered p r v b) as [rendered [H0 Hf]];
             [discriminate|]
         end.
    all: destruct params_format as [fmt|];
      [|rewrite H0 in Hraised; discriminate].
    all: exists rendered, fmt; split; [exact H0|]; split; [reflexivity|].
    all: rewrite Hf in Hraised; destruct (truthy fmt); [|discriminate].
    all: destruct (1 <? count_char dot fmt) eqn:E; [|discriminate].
    all: apply Nat.ltb_lt; exact E.
Qed.

Lemma param_to_str_leave_moustache_witness :
  param_to_str (mkParameter "ac-1_prm_1" None None (Some ["x"]))
               LEAVE_MOUSTACHE false false (Some "**.**..")
  = Returns None
  /\ 1 < count_char dot "(.).".
Proof.
  split.
  - exact (proj1 (param_to_str_leave_moustache
                    (mkParameter "ac-1_prm_1" None None (Some ["x"]))
                    false false (Some "**.**.."))).
  - destruct (proj2 (proj2 (param_to_str_leave_moustache
                (mkParameter "ac-1_prm_1" None None (Some ["x"]))
                false false (Some "(.).")))
              VALUE_OR_STRING_NONE eq_refl)
      as (rendered & fmt & _ & Hfmt & Hcount).
    injection Hfmt as <-. exact Hcount.
Defined.

(** C6 fails as stated: in mode [LEAVE_MOUSTACHE] a template with several
    dots does not make the call fail. *)
Lemma param_to_str_template_counterexample :
  ~ (forall (param : CommonParameter) (rep : ParameterRep)
            (verbose brackets : bool) (fmt : string),
        1 < count_char dot fmt ->
        raised (param_to_str param rep verbose brackets (Some fmt)) = true).
Proof.
  intros Hall.
  specialize (Hall (mkParameter "ac-1_prm_1" None None (Some ["x"]))
                   LEAVE_MOUSTACHE false false "a.b.c").
  simpl in Hall. assert (Hlt : 1 < 2) by lia.
  specialize (Hall Hlt). discriminate.
Qed.

(** C6, amended. In every mode but [LEAVE_MOUSTACHE] and for every template:
    a template with more than one dot makes the call fail with the format
    error, and a template with exactly one dot has it substituted with the
    rendered text (a non-empty template with no dot comes back as it is).
    The call has no effect beside its result. *)
Theorem param_to_str_template :
  forall (param : CommonParameter) (rep : ParameterRep)
         (verbose brackets : bool) (fmt : string),
    rep <> LEAVE_MOUSTACHE ->
    exists rendered,
      param_to_str param rep verbose brackets None = Returns (Some rendered)
      /\ (1 < count_char dot fmt ->
          param_to_str param rep verbose brackets (Some fmt)
          = Raises (mkTrestleError (multiple_dots_msg fmt)))
      /\ (forall pre post,
             fmt = (pre ++ String dot post)%string ->
             count_char dot pre = 0 -> count_char dot post = 0 ->
             param_to_str param rep verbose brackets (Some fmt)
             = Returns (Some (pre ++ rendered ++ post)%string))
      /\ (count_char dot fmt = 0 -> fmt <> EmptyString ->
          param_to_str param rep verbose brackets (Some fmt)
          = Returns (Some fmt)).
Proof.
  intros param rep verbose brackets fmt Hrep.
  destruct (param_to_str_rendered param rep verbose brackets Hrep)
    as [rendered [H0 Hf]].
  exists rendered. split; [exact H0|].
  split; [|split].
  - intros Hlt. rewrite Hf.
    assert (Hfmt : truthy fmt = true)
      by (destruct fmt; [simpl in Hlt; lia|reflexivity]).
    rewrite Hfmt. apply Nat.ltb_lt in Hlt. rewrite Hlt. reflexivity.
  - intros pre post Heq Hpre Hpost. rewrite Hf.
    assert (Hfmt : truthy fmt = true)
      by (rewrite Heq; destruct pre; reflexivity).
    rewrite Hfmt.
    assert (Hc : count_char dot fmt = 1).
    { rewrite Heq, count_char_app. simpl. rewrite Hpre, Hpost. reflexivity. }
    rewrite Hc. cbn [Nat.ltb Nat.leb]. rewrite Heq, replace_char_app.
    cbn [replace_char]. rewrite Ascii.eqb_refl.
    rewrite (replace_char_absent _ _ _ Hpre), (replace_char_absent _ _ _ Hpost).
    reflexivity.
  - intros Hc Hfmt. apply truthy_true_iff in Hfmt.
    rewrite Hf, Hfmt, Hc. cbn [Nat.ltb Nat.leb].
    rewrite (replace_char_absent _ _ _ Hc). reflexivity.
Qed.

Lemma param_to_str_template_witness :
  param_to_str (mkParameter "ac-1_prm_1" None None (Some ["x"; "y"]))
               VALUE_OR_EMPTY_STRING false true (Some "**.**")
  = Returns (Some "**[x, y]**").
Proof.
  destruct (param_to_str_template
              (mkParameter "ac-1_prm_1" None None (Some ["x"; "y"]))
              VALUE_OR_EMPTY_STRING false true "**.**")
    as (rendered & H0 & _ & Hone & _); [discriminate|].
  injection H0 as <-.
  exact (Hone "**" "**" eq_refl eq_refl eq_refl).
Defined.

(* ===================================================================== *)
(** * Dictionaries *)
(* ===================================================================== *)

Section DictFacts.
Context {V : Type}.

Lemma dict_get_set_same (k : string) (v : V) (d : dict V) :
  dict_get k (dict_set k v d) = Some v.
Proof.
  induction d as [|[k' v'] d IH]; simpl.
  - rewrite String.eqb_refl. reflexivity.
  - destruct (String.eqb k' k) eqn:E; simpl; rewrite E; [reflexivity|].
    exact IH.
Qed.

Lemma dict_get_set_other (k k' : string) (v : V) (d : dict V) :
  k <> k' -> dict_get k' (dict_set k v d) = dict_get k' d.
Proof.
  intros Hne. induction d as [|[k0 v0] d IH]; simpl.
  - apply String.eqb_neq in Hne. rewrite Hne. reflexivity.
  - destruct (String.eqb k0 k) eqn:E; simpl.
    + apply String.eqb_eq in E. subst k0.
      apply String.eqb_neq in Hne. rewrite Hne. reflexivity.
    + rewrite IH. reflexivity.
Qed.

Lemma dict_mem_set (k k' : string) (v : V) (d : dict V) :
  dict_mem k' (dict_set k v d) = String.eqb k k' || dict_mem k' d.
Proof.
  unfold dict_mem. destruct (String.eqb k k') eqn:E.
  - apply String.eqb_eq in E. subst k'. rewrite dict_get_set_same.
    reflexivity.
  - apply String.eqb_neq in E. rewrite dict_get_set_other by exact E.
    reflexivity.
Qed.
End DictFacts.

Lemma str_in_app (x : string) (l1 l2 : list string) :
  str_in x (l1 ++ l2) = str_in x l1 || str_in x l2.
Proof. unfold str_in. apply existsb_app. Qed.

(* ===================================================================== *)
(** * Errors of the parameter metadata, none for the rule metadata *)
(* ===================================================================== *)

Lemma param_rule_ids_cons_id (p : Property) (props : list Property) :
  String.eqb (prop_name p) "param_id" = true ->
  param_rule_ids (p :: props)
  = string_from_root (prop_remarks p) :: param_rule_ids props.
Proof. intros E. unfold param_rule_ids. simpl. rewrite E. reflexivity. Qed.

Lemma param_rule_ids_cons_other (p : Property) (props : list Property) :
  String.eqb (prop_name p) "param_id" = false ->
  param_rule_ids (p :: props) = param_rule_ids props.
Proof. intros E. unfold param_rule_ids. simpl. rewrite E. reflexivity. Qed.

Lemma get_params_loop_raised (props : list Property) :
  forall (params : dict (dict string)) (seen : list string),
    (forall k, dict_mem k params = str_in k seen) ->
    raised (get_params_loop props params) = true
    <-> exists pre prop post,
        props = pre ++ prop :: post
        /\ offending (seen ++ param_rule_ids pre) prop = true.
Proof.
  induction props as [|p props IH]; intros params seen Hinv.
  - simpl. split; [discriminate|].
    intros (pre & prop & post & Heq & _). destruct pre; discriminate.
  - (* what a decomposition of [p :: props] is *)
    assert (Hsplit :
      (exists pre prop post,
          p :: props = pre ++ prop :: post
          /\ offending (seen ++ param_rule_ids pre) prop = true)
      <-> offending seen p = true
          \/ exists pre prop post,
               props = pre ++ prop :: post
               /\ offending (seen ++ param_rule_ids (p :: pre)) prop = true).
    { split.
      - intros (pre & prop & post & Heq & Hoff). destruct pre as [|q pre].
        + injection Heq as <- _. left. simpl in Hoff.
          rewrite app_nil_r in Hoff. exact Hoff.
        + injection Heq as <- Heq. right. exists pre, prop, post. auto.
      - intros [Hoff|(pre & prop & post & Heq & Hoff)].
        + exists [], p, props. split; [reflexivity|].
          simpl. rewrite app_nil_r. exact Hoff.
        + exists (p :: pre), prop, post. split; [rewrite Heq; reflexivity|].
          exact Hoff. }
    rewrite Hsplit. clear Hsplit.
    cbn [get_params_loop]. unfold offending at 1.
    set (rule_id := string_from_root (prop_remarks p)).
    destruct (String.eqb (prop_name p) "param_id") eqn:Eid.
    + rewrite <- (Hinv rule_id).
      destruct (dict_mem rule_id params) eqn:Emem; [simpl; tauto|].
      rewrite (IH (dict_set rule_id [("name", prop_value p)] params)
                  (seen ++ [rule_id])).
      * split.
        -- intros (pre & prop & post & Heq & Hoff). right.
           exists pre, prop, post. split; [exact Heq|].
           rewrite (param_rule_ids_cons_id _ _ Eid).
           fold rule_id. rewrite <- app_assoc in Hoff. exact Hoff.
        -- intros [Hoff|(pre & prop & post & Heq & Hoff)]; [discriminate|].
           exists pre, prop, post. split; [exact Heq|].
           rewrite (param_rule_ids_cons_id _ _ Eid) in Hoff.
           fold rule_id in Hoff. rewrite <- app_assoc. exact Hoff.
      * intros k. rewrite dict_mem_set, str_in_app, Hinv.
        unfold str_in at 2. simpl. rewrite orb_false_r.
        rewrite (String.eqb_sym k rule_id). apply orb_comm.
    + assert (Hkeep : forall entry field,
                dict_get rule_id params = Some entry ->
                forall k,
                  dict_mem k (dict_set rule_id
                                (dict_set field (prop_value p) entry) params)
                  = str_in k seen).
      { intros entry field Hget k. rewrite dict_mem_set, <- Hinv.
        destruct (String.eqb rule_id k) eqn:E; [|reflexivity].
        apply String.eqb_eq in E. subst k. unfold dict_mem.
        rewrite Hget. reflexivity. }
      assert (Hrest : forall params',
                (forall k, dict_mem k params' = str_in k seen) ->
                raised (get_params_loop props params') = true
                <-> exists pre prop post,
                    props = pre ++ prop :: post
                    /\ offending (seen ++ param_rule_ids (p :: pre)) prop
                       = true).
      { intros params' Hinv'. rewrite (IH params' seen Hinv').
        split; intros (pre & prop & post & Heq & Hoff);
          exists pre, prop, post; (split; [exact Heq|]).
        - rewrite (param_rule_ids_cons_other _ _ Eid). exact Hoff.
        - rewrite (param_rule_ids_cons_other _ _ Eid) in Hoff. exact Hoff. }
      rewrite <- (Hinv rule_id). unfold dict_mem.
      destruct (String.eqb (prop_name p) "param_description") eqn:Edesc;
        [|destruct (String.eqb (prop_name p) "param_options") eqn:Eopt];
        cbn [orb].
      * destruct (dict_get rule_id params) as [entry|] eqn:Eget.
        -- rewrite (Hrest _ (Hkeep entry "description" eq_refl)).
           simpl. split; [auto|]. intros [Hf|Hx]; [discriminate|exact Hx].
        -- simpl. tauto.
      * destruct (dict_get rule_id params) as [entry|] eqn:Eget.
        -- rewrite (Hrest _ (Hkeep entry "options" eq_refl)).
           simpl. split; [auto|]. intros [Hf|Hx]; [discriminate|exact Hx].
        -- simpl. tauto.
      * rewrite (Hrest _ Hinv).
        split; [auto|]. intros [Hf|Hx]; [discriminate|exact Hx].
Qed.

Lemma rules_of_state (st : dict (dict string) * string * string * string) :
  (let '(rules, _, _, _) := st in rules) = fst (fst (fst st)).
Proof. destruct st as [[[rules name] desc] id_]. reflexivity. Qed.

Lemma get_rules_fold (props : list Property) :
  forall (rules : dict (dict string)) (name desc id_ : string),
    fst (fst (fst (fold_left get_rules_step props (rules, name, desc, id_))))
    = fold_left record_rule (completed_rules props name desc id_) rules.
Proof.
  induction props as [|p props IH]; intros rules name desc id_;
    [reflexivity|].
  cbn [fold_left completed_rules]. unfold get_rules_step at 2.
  destruct (String.eqb (prop_name p) "rule_name_id").
  - destruct (truthy (prop_value p) && truthy desc); cbn [fold_left];
      rewrite IH; reflexivity.
  - destruct (String.eqb (prop_name p) "rule_description").
    + destruct (truthy name && truthy (prop_value p)); cbn [fold_left];
        rewrite IH; reflexivity.
    + destruct (truthy name && truthy desc); cbn [fold_left];
        rewrite IH; reflexivity.
Qed.

Lemma fold_record_rule_get (k : string)
  (l : list (string * string * string)) (rules : dict (dict string)) :
  dict_get k (fold_left record_rule l rules)
  = match last_rule k l with
    | Some entry => Some entry
    | None => dict_get k rules
    end.
Proof.
  induction l as [|[[rule_id name] desc] l IH] using rev_ind;
    [reflexivity|].
  rewrite fold_left_app. cbn [fold_left record_rule].
  unfold last_rule. rewrite rev_unit. cbn [find fst].
  destruct (String.eqb rule_id k) eqn:E.
  - apply String.eqb_eq in E. subst k. apply dict_get_set_same.
  - apply String.eqb_neq in E.
    rewrite (dict_get_set_other _ _ _ _ E). exact IH.
Qed.

Lemma completed_rules_rule_props (props : list Property) :
  forall name desc id_ : string,
    truthy name && truthy desc = false ->
    completed_rules props name desc id_
    = completed_rules (rule_props props) name desc id_.
Proof.
  induction props as [|p props IH]; intros name desc id_ Hpend;
    [reflexivity|].
  cbn [rule_props filter]. fold (rule_props props).
  destruct (String.eqb (prop_name p) "rule_name_id") eqn:En.
  - cbn [orb completed_rules]. rewrite En.
    destruct (truthy (prop_value p) && truthy desc) eqn:Ec.
    + f_equal. apply IH. reflexivity.
    + apply IH. exact Ec.
  - destruct (String.eqb (prop_name p) "rule_description") eqn:Ed.
    + cbn [orb completed_rules]. rewrite En, Ed.
      destruct (truthy name && truthy (prop_value p)) eqn:Ec.
      * f_equal. apply IH. reflexivity.
      * apply IH. exact Ec.
    + cbn [orb completed_rules]. rewrite En, Ed, Hpend.
      apply IH. exact Hpend.
Qed.

Lemma completed_rules_pairs (pps : list (Property * Property)) :
  Forall well_paired pps ->
  completed_rules (flat_map pair_props pps)
                  EmptyString EmptyString EmptyString
  = map rule_of_pair pps.
Proof.
  induction 1 as [|[pn pd] pps (Hn & Hd & Hvn & Hvd) _ IH]; [reflexivity|].
  cbn [fst snd] in Hn, Hd, Hvn, Hvd.
  apply truthy_true_iff in Hvn. apply truthy_true_iff in Hvd.
  cbn [flat_map pair_props app fst snd completed_rules map].
  rewrite Hn, Hd. cbn [String.eqb Ascii.eqb Bool.eqb].
  rewrite Hvn, Hvd. cbn [truthy andb]. rewrite IH. reflexivity.
Qed.

Lemma str_in_In (x : string) (l : list string) :
  str_in x l = true <-> In x l.
Proof.
  unfold str_in. rewrite existsb_exists. split.
  - intros (y & Hy & E). apply String.eqb_eq in E. subst y. exact Hy.
  - intros Hx. exists x. split; [exact Hx|apply String.eqb_refl].
Qed.

(** C3 fails as stated for the rule metadata: [get_rules_from_item] returns
    a dictionary for an item that records the rule id ['r1'] twice, and the
    first record is gone from it. *)
Lemma get_rules_duplicate_counterexample :
  get_rules_from_item
    (mkControl "ac-1" "Policy"
       (Some [mkProperty "rule_name_id" "rule_one" (Some "r1");
              mkProperty "rule_description" "first" None;
              mkProperty "rule_name_id" "rule_two" (Some "r1");
              mkProperty "rule_description" "second" None])
       None)
  = [("r1", [("name", "rule_two"); ("description", "second")])].
Proof. reflexivity. Qed.

(** C3, amended. [get_params_from_item] raises an error exactly when some
    property of the sequence is a [param_id] whose rule id an earlier
    [param_id] carries, or a [param_description] or [param_options] whose
    rule id no earlier [param_id] carries.  [get_rules_from_item] raises no
    error, whatever the item: it records the rules the properties complete
    one after the other, so that the entry under a rule id is the one of the
    last rule completed with that id, a rule whose id was already recorded
    replacing the one recorded under it; and when the rule properties of the
    item, the other properties set aside, come as (name, description) pairs,
    the rules completed are these pairs. *)
Theorem metadata_errors :
  forall (T : Type) (TP : TypeWithProps T) (item : T),
    (raised (get_params_from_item item) = true
     <-> exists pre prop post,
         as_list (get_props item) = pre ++ prop :: post
         /\ offending (param_rule_ids pre) prop = true)
    /\ (forall pre prop post,
           as_list (get_props item) = pre ++ prop :: post ->
           prop_name prop = "param_id" ->
           In (string_from_root (prop_remarks prop)) (param_rule_ids pre) ->
           raised (get_params_from_item item) = true)
    /\ (forall pre prop post,
           as_list (get_props item) = pre ++ prop :: post ->
           prop_name prop = "param_description"
           \/ prop_name prop = "param_options" ->
           ~ In (string_from_root (prop_remarks prop)) (param_rule_ids pre) ->
           raised (get_params_from_item item) = true)
    /\ (get_rules_from_item item
        = fold_left record_rule
            (completed_rules (as_list (get_props item))
                             EmptyString EmptyString EmptyString) []
        /\ forall rule_id,
             dict_get rule_id (get_rules_from_item item)
             = last_rule rule_id
                 (completed_rules (as_list (get_props item))
                                  EmptyString EmptyString EmptyString))
    /\ (forall pps : list (Property * Property),
           Forall well_paired pps ->
           rule_props (as_list (get_props item)) = flat_map pair_props pps ->
           get_rules_from_item item
           = fold_left record_rule (map rule_of_pair pps) []).
Proof.
  intros T TP item.
  assert (Hiff : raised (get_params_from_item item) = true
                 <-> exists pre prop post,
                     as_list (get_props item) = pre ++ prop :: post
                     /\ offending (param_rule_ids pre) prop = true).
  { unfold get_params_from_item.
    apply (get_params_loop_raised (as_list (get_props item)) [] []).
    intros k. reflexivity. }
  assert (Hrules : get_rules_from_item item
                   = fold_left record_rule
                       (completed_rules (as_list (get_props item))
                          EmptyString EmptyString EmptyString) []).
  { unfold get_rules_from_item.
    etransitivity; [apply rules_of_state|].
    apply (get_rules_fold (as_list (get_props item)) []
             EmptyString EmptyString EmptyString). }
  split; [exact Hiff|]. split; [|split; [|split; [split|]]].
  - intros pre prop post Heq Hname Hin. apply Hiff.
    exists pre, prop, post. split; [exact Heq|].
    unfold offending. rewrite Hname. cbn [String.eqb Ascii.eqb Bool.eqb andb].
    apply str_in_In. exact Hin.
  - intros pre prop post Heq Hname Hin. apply Hiff.
    exists pre, prop, post. split; [exact Heq|].
    unfold offending.
    destruct (str_in (string_from_root (prop_remarks prop))
                     (param_rule_ids pre)) eqn:E.
    + apply str_in_In in E. contradiction.
    + destruct Hname as [Hname|Hname]; rewrite Hname; reflexivity.
  - exact Hrules.
  - intros rule_id. rewrite Hrules, fold_record_rule_get.
    destruct (last_rule rule_id
                (completed_rules (as_list (get_props item))
                   EmptyString EmptyString EmptyString)); reflexivity.
  - intros pps Hpps Heq. rewrite Hrules.
    rewrite (completed_rules_rule_props (as_list (get_props item))
               EmptyString EmptyString EmptyString eq_refl).
    rewrite Heq, (completed_rules_pairs pps Hpps). reflexivity.
Qed.

Lemma metadata_errors_witness :
  raised
    (get_params_from_item
       (mkControl "ac-1" "Policy"
          (Some [mkProperty "param_id" "p1" (Some "r1");
                 mkProperty "param_description" "about p1" (Some "r1");
                 mkProperty "param_id" "p2" (Some "r1")])
          None))
  = true
  /\ raised
       (get_params_from_item
          (mkControl "ac-1" "Policy"
             (Some [mkProperty "param_options" "a, b" (Some "r2")]) None))
     = true
  /\ get_rules_from_item
       (mkControl "ac-1" "Policy"
          (Some [mkProperty "rule_name_id" "rule_one" (Some "r1");
                 mkProperty "param_id" "p1" (Some "r1");
                 mkProperty "rule_description" "first" (Some "r1");
                 mkProperty "rule_name_id" "rule_two" (Some "r1");
                 mkProperty "rule_description" "second" None;
                 mkProperty "param_description" "about p1" (Some "r1")])
          None)
     = [("r1", [("name", "rule_two"); ("description", "second")])]
  /\ dict_get "r1"
       (get_rules_from_item
          (mkControl "ac-1" "Policy"
             (Some [mkProperty "rule_name_id" "rule_one" (Some "r1");
                    mkProperty "rule_description" "first" None;
                    mkProperty "rule_name_id" "rule_two" (Some "r1");
                    mkProperty "rule_description" "second" None])
             None))
     = Some [("name", "rule_two"); ("description", "second")].
Proof.
  split; [|split; [|split]].
  - apply (proj1 (proj2 (metadata_errors Control Control_TypeWithProps _))
             [mkProperty "param_id" "p1" (Some "r1");
              mkProperty "param_description" "about p1" (Some "r1")]
             (mkProperty "param_id" "p2" (Some "r1")) []).
    + reflexivity.
    + reflexivity.
    + left; reflexivity.
  - apply (proj1 (proj2 (proj2
             (metadata_errors Control Control_TypeWithProps _)))
             [] (mkProperty "param_options" "a, b" (Some "r2")) []).
    + reflexivity.
    + right; reflexivity.
    + intros [].
  - apply (proj2 (proj2 (proj2 (proj2
             (metadata_errors Control Control_TypeWithProps _))))
             [(mkProperty "rule_name_id" "rule_one" (Some "r1"),
               mkProperty "rule_description" "first" (Some "r1"));
              (mkProperty "rule_name_id" "rule_two" (Some "r1"),
               mkProperty "rule_description" "second" None)]).
    + repeat constructor; discriminate.
    + reflexivity.
  - exact (proj2 (proj1 (proj2 (proj2 (proj2
             (metadata_errors Control Control_TypeWithProps
                (mkControl "ac-1" "Policy"
                   (Some [mkProperty "rule_name_id" "rule_one" (Some "r1");
                          mkProperty "rule_description" "first" None;
                          mkProperty "rule_name_id" "rule_two" (Some "r1");
                          mkProperty "rule_description" "second" None])
                   None)))))) "r1").
Defined.

Example get_params_sample :
  get_params_from_item
    (mkControl "ac-1" "Policy"
       (Some [mkProperty "param_id" "p1" (Some "r1");
              mkProperty "param_description" "about p1" (Some "r1");
              mkProperty "param_options" "a, b" (Some "r1")])
       None)
  = Returns [("r1", [("name", "p1"); ("description", "about p1");
                     ("options", "a, b")])].
Proof. reflexivity. Qed.

Example get_params_duplicate_message :
  get_params_from_item
    (mkControl "ac-1" "Policy"
       (Some [mkProperty "param_id" "p1" (Some "r1");
              mkProperty "param_id" "p2" (Some "r1")])
       None)
  = Raises (mkTrestleError "Duplicate param p2 found for rule r1").
Proof. reflexivity. Qed.

(* ===================================================================== *)
(** * The deep merge, key by key *)
(* ===================================================================== *)

Lemma vget_vset_same (k : string) (v : value) (d : vdict) :
  vget k (vset k v d) = Some v.
Proof.
  induction d as [|k' v' d IH]; simpl.
  - rewrite String.eqb_refl. reflexivity.
  - destruct (String.eqb k' k) eqn:E; simpl; rewrite E; [reflexivity|].
    exact IH.
Qed.

Lemma vget_vset_other (k k' : string) (v : value) (d : vdict) :
  k <> k' -> vget k' (vset k v d) = vget k' d.
Proof.
  intros Hne. induction d as [|k0 v0 d IH]; simpl.
  - apply String.eqb_neq in Hne. rewrite Hne. reflexivity.
  - destruct (String.eqb k0 k) eqn:E; simpl.
    + apply String.eqb_eq in E. subst k0.
      apply String.eqb_neq in Hne. rewrite Hne. reflexivity.
    + rewrite IH. reflexivity.
Qed.

Lemma vget_absent (k : string) (d : vdict) :
  ~ In k (vkeys d) -> vget k d = None.
Proof.
  induction d as [|k' v' d IH]; simpl; [reflexivity|].
  intros Hnot. destruct (String.eqb k' k) eqn:E.
  - apply String.eqb_eq in E. tauto.
  - apply IH. tauto.
Qed.

Lemma merge_dicts_deep_cons (dest : vdict) (key : string) (sv : value)
  (rest : vdict) (overwrite : bool) :
  exists dest',
    merge_dicts_deep dest (DCons key sv rest) overwrite
    = merge_dicts_deep dest' rest overwrite
    /\ vget key dest' = Some (merged_entry overwrite (vget key dest) sv)
    /\ forall k, key <> k -> vget k dest' = vget k dest.
Proof.
  cbn [merge_dicts_deep]. eexists. split; [reflexivity|].
  unfold merged_entry.
  destruct (vget key dest) as [dv|] eqn:E.
  - destruct dv, sv, overwrite;
      (split; [rewrite ?vget_vset_same; try reflexivity; exact E
              |intros k Hk; rewrite ?vget_vset_other by exact Hk;
               reflexivity]).
  - split; [apply vget_vset_same|].
    intros k Hk. apply vget_vset_other. exact Hk.
Qed.

Lemma merge_dicts_deep_lookup (src : vdict) :
  NoDup (vkeys src) ->
  forall (dest : vdict) (overwrite : bool) (k : string),
    vget k (merge_dicts_deep dest src overwrite)
    = match vget k src with
      | Some sv => Some (merged_entry overwrite (vget k dest) sv)
      | None => vget k dest
      end.
Proof.
  induction src as [|key sv rest IH]; intros Hnd dest overwrite k;
    [reflexivity|].
  cbn [vkeys] in Hnd. inversion Hnd as [|? ? Hnot Hrest]; subst.
  destruct (merge_dicts_deep_cons dest key sv rest overwrite)
    as (dest' & Heq & Hkey & Hother).
  rewrite Heq, (IH Hrest). cbn [vget].
  destruct (String.eqb key k) eqn:E.
  - apply String.eqb_eq in E. subst k.
    rewrite (vget_absent _ _ Hnot). exact Hkey.
  - apply String.eqb_neq in E. rewrite (Hother k E). reflexivity.
Qed.

Lemma vget_none_keys (k : string) (d : vdict) :
  vget k d = None <-> str_in k (vkeys d) = false.
Proof.
  induction d as [|k' v' d IH]; cbn [vget vkeys]; [tauto|].
  rewrite str_in_cons. destruct (String.eqb k' k); cbn [orb]; [|exact IH].
  split; discriminate.
Qed.

Lemma vkeys_vset (k : string) (v : value) (d : vdict) :
  vkeys (vset k v d)
  = if str_in k (vkeys d) then vkeys d else vkeys d ++ [k].
Proof.
  induction d as [|k' v' d IH]; cbn [vset vkeys]; [reflexivity|].
  rewrite str_in_cons.
  destruct (String.eqb k' k); cbn [orb vkeys]; [reflexivity|].
  rewrite IH. destruct (str_in k (vkeys d)); reflexivity.
Qed.

Lemma merge_dicts_deep_cons_keys (dest : vdict) (key : string) (sv : value)
  (rest : vdict) (overwrite : bool) :
  exists dest',
    merge_dicts_deep dest (DCons key sv rest) overwrite
    = merge_dicts_deep dest' rest overwrite
    /\ vkeys dest'
       = if str_in key (vkeys dest) then vkeys dest else vkeys dest ++ [key].
Proof.
  cbn [merge_dicts_deep]. eexists. split; [reflexivity|].
  destruct (vget key dest) as [dv|] eqn:E.
  - assert (Hin : str_in key (vkeys dest) = true).
    { destruct (str_in key (vkeys dest)) eqn:Hk; [reflexivity|].
      apply vget_none_keys in Hk. congruence. }
    rewrite Hin.
    destruct dv, sv, overwrite; rewrite ?vkeys_vset, ?Hin; reflexivity.
  - apply vget_none_keys in E. rewrite vkeys_vset, E. reflexivity.
Qed.

Lemma merge_dicts_deep_keys (src : vdict) :
  NoDup (vkeys src) ->
  forall (dest : vdict) (overwrite : bool),
    vkeys (merge_dicts_deep dest src overwrite)
    = vkeys dest
      ++ filter (fun k => negb (str_in k (vkeys dest))) (vkeys src).
Proof.
  induction src as [|key sv rest IH]; intros Hnd dest overwrite.
  - cbn [merge_dicts_deep vkeys filter]. rewrite app_nil_r. reflexivity.
  - cbn [vkeys] in Hnd. inversion Hnd as [|? ? Hnot Hrest]; subst.
    destruct (merge_dicts_deep_cons_keys dest key sv rest overwrite)
      as (dest' & Heq & Hkeys).
    rewrite Heq, (IH Hrest), Hkeys. cbn [vkeys filter].
    destruct (str_in key (vkeys dest)) eqn:Hin; cbn [negb]; [reflexivity|].
    rewrite <- app_assoc. cbn [app]. do 2 f_equal.
    apply filter_ext_in. intros k Hk. rewrite str_in_app.
    replace (str_in k [key]) with false; [rewrite orb_false_r; reflexivity|].
    symmetry. unfold str_in. cbn [existsb]. rewrite orb_false_r.
    apply String.eqb_neq. intros ->. contradiction.
Qed.

Lemma py_in_app (x : value) (l1 l2 : list value) :
  py_in x (l1 ++ l2) = py_in x l1 || py_in x l2.
Proof. unfold py_in. apply existsb_app. Qed.

Lemma extend_novel_novel (src_list dest_list : list value) :
  extend_novel dest_list src_list = dest_list ++ novel dest_list src_list.
Proof.
  unfold extend_novel. revert dest_list.
  induction src_list as [|x r IH]; intros dest_list; simpl.
  - rewrite app_nil_r. reflexivity.
  - destruct (py_in x dest_list); simpl; rewrite IH; [reflexivity|].
    rewrite <- app_assoc. reflexivity.
Qed.

Lemma novel_filter (src_list : list value) :
  distinct src_list ->
  forall seen dest_list : list value,
    (forall y, In y src_list -> py_in y seen = py_in y dest_list) ->
    novel seen src_list
    = filter (fun x => negb (py_in x dest_list)) src_list.
Proof.
  induction src_list as [|x r IH]; intros Hd seen dest_list Hsame;
    [reflexivity|].
  destruct Hd as [Hx Hr]. cbn [novel filter].
  rewrite (Hsame x (or_introl eq_refl)).
  destruct (py_in x dest_list); cbn [negb].
  - apply (IH Hr). intros y Hy. apply Hsame. right; exact Hy.
  - f_equal. apply (IH Hr). intros y Hy.
    rewrite py_in_app, (Hsame y (or_intror Hy)).
    unfold py_in at 2. cbn [existsb]. rewrite (Hx y Hy). 
    rewrite !orb_false_r. reflexivity.
Qed.

(** The merge of trees.  For [dest] and [src] and a flag [overwrite], the
    merge leaves under every key: the value of [src] when only [src] has the
    key; the value of [dest] when only [dest] has it; the merge of the two
    values when both are mappings; when both are sequences, the sequence of
    [dest] followed by the elements of [src]'s sequence, in order, that are
    not yet equal to an element of it; otherwise the value of [dest], or
    that of [src] when [overwrite] is set.  The keys of [dest] keep their
    order and the keys that only [src] has follow in the order of [src]. *)
Theorem merge_dicts_deep_spec :
  forall (dest src : vdict) (overwrite : bool),
    NoDup (vkeys src) ->
    (forall k : string,
        vget k (merge_dicts_deep dest src overwrite)
        = match vget k dest, vget k src with
          | None, sv => sv
          | Some dv, None => Some dv
          | Some (VDict d), Some (VDict s) =>
              Some (VDict (merge_dicts_deep d s overwrite))
          | Some (VList dl), Some (VList sl) =>
              Some (VList (extend_novel dl sl))
          | Some dv, Some sv => Some (if overwrite then sv else dv)
          end)
    /\ vkeys (merge_dicts_deep dest src overwrite)
       = vkeys dest
         ++ filter (fun k => negb (str_in k (vkeys dest))) (vkeys src)
    /\ (forall dl sl : list value, extend_novel dl sl = dl ++ novel dl sl)
    /\ (forall dl sl : list value,
           distinct sl ->
           novel dl sl = filter (fun x => negb (py_in x dl)) sl)
    /\ merge_dicts_deep DNil (DCons "a" (VInt 1) DNil) false
       = DCons "a" (VInt 1) DNil
    /\ merge_dicts_deep (DCons "a" (VInt 1) DNil) (DCons "a" (VInt 2) DNil)
                        false
       = DCons "a" (VInt 1) DNil
    /\ merge_dicts_deep (DCons "a" (VInt 1) DNil) (DCons "a" (VInt 2) DNil)
                        true
       = DCons "a" (VInt 2) DNil
    /\ merge_dicts_deep (DCons "a" (VList [VInt 1]) DNil)
                        (DCons "a" (VList [VInt 1; VInt 2]) DNil) false
       = DCons "a" (VList [VInt 1; VInt 2]) DNil.
Proof.
  intros dest src overwrite Hnd.
  split; [|split; [|split; [|split; [|repeat split]]]].
  - intros k. rewrite (merge_dicts_deep_lookup src Hnd).
    unfold merged_entry.
    destruct (vget k src) as [sv|]; destruct (vget k dest) as [dv|];
      try reflexivity.
    + destruct dv, sv; reflexivity.
    + destruct dv; reflexivity.
  - apply (merge_dicts_deep_keys src Hnd).
  - intros dl sl. apply extend_novel_novel.
  - intros dl sl Hd. apply (novel_filter sl Hd). reflexivity.
Qed.

Lemma merge_dicts_deep_spec_witness :
  vget "tags"
    (merge_dicts_deep
       (DCons "title" (VStr "old")
          (DCons "tags" (VList [VStr "a"])
             (DCons "x-trestle" (VDict (DCons "v" (VInt 1) DNil)) DNil)))
       (DCons "tags" (VList [VStr "a"; VStr "b"; VStr "b"])
          (DCons "title" (VStr "new")
             (DCons "x-trestle" (VDict (DCons "w" (VBool true) DNil))
                (DCons "extra" VNone DNil))))
       false)
  = Some (VList [VStr "a"; VStr "b"]).
Proof.
  refine (eq_trans
            (proj1 (merge_dicts_deep_spec _ _ false _) "tags") _).
  - simpl. repeat constructor; simpl; intuition discriminate.
  - reflexivity.
Defined.

Example merge_dicts_deep_sample :
  merge_dicts_deep
    (DCons "title" (VStr "old")
       (DCons "tags" (VList [VStr "a"])
          (DCons "x-trestle" (VDict (DCons "v" (VInt 1) DNil)) DNil)))
    (DCons "tags" (VList [VStr "a"; VStr "b"; VStr "b"])
       (DCons "title" (VStr "new")
          (DCons "x-trestle" (VDict (DCons "w" (VBool true) DNil))
             (DCons "extra" VNone DNil))))
    false
  = DCons "title" (VStr "old")
      (DCons "tags" (VList [VStr "a"; VStr "b"])
         (DCons "x-trestle"
            (VDict (DCons "v" (VInt 1) (DCons "w" (VBool true) DNil)))
            (DCons "extra" VNone DNil))).
Proof. reflexivity. Qed.

(* ===================================================================== *)
(** * Upsert of an implemented requirement *)
(* ===================================================================== *)

Section ComponentFacts.
Variables IMPLEMENTATION_STATUS STATUS_OTHER REPLACE_ME : string.
Variable fresh_uuid : string.

Local Abbreviation get_status := (get_status_from_props IMPLEMENTATION_STATUS
                                              STATUS_OTHER).
Local Abbreviation status_prop := (_status_as_prop IMPLEMENTATION_STATUS).
Local Abbreviation update := (update_statement IMPLEMENTATION_STATUS STATUS_OTHER).

Lemma prop_status_roundtrip (s : ImplementationStatus) :
  _prop_as_status (status_prop s) = s.
Proof. destruct s; reflexivity. Qed.

Lemma get_status_loop_app (l : list Property) (p : Property) :
  filter (fun q => String.eqb (prop_name q) IMPLEMENTATION_STATUS) l = [] ->
  prop_name p = IMPLEMENTATION_STATUS ->
  get_status_loop IMPLEMENTATION_STATUS STATUS_OTHER (l ++ [p])
  = _prop_as_status p.
Proof.
  intros Hnone Hp. induction l as [|q l IH]; simpl.
  - rewrite Hp, String.eqb_refl. reflexivity.
  - simpl in Hnone.
    destruct (String.eqb (prop_name q) IMPLEMENTATION_STATUS);
      [discriminate|]. apply IH. exact Hnone.
Qed.

Lemma remove_first_single (n : string) (l : list Property) :
  length (filter (fun q => String.eqb (prop_name q) n) l) <= 1 ->
  filter (fun q => String.eqb (prop_name q) n) (remove_first_named n l)
  = [].
Proof.
  induction l as [|q l IH]; simpl; [reflexivity|].
  destruct (String.eqb (prop_name q) n) eqn:E; simpl.
  - intros Hlen.
    destruct (filter (fun q0 => String.eqb (prop_name q0) n) l);
      [reflexivity|]. simpl in Hlen. lia.
  - rewrite E. exact IH.
Qed.

Section Replace.
Context {T : Type} `{TypeWithProps T}.

Lemma insert_status_props (item : T) (status : ImplementationStatus) :
  get_props (insert_status_in_props IMPLEMENTATION_STATUS item status)
  = Some (remove_first_named IMPLEMENTATION_STATUS
            (as_list (get_props item)) ++ [status_prop status]).
Proof. unfold insert_status_in_props. apply replace_prop_props. Qed.

Lemma insert_status_read (item : T) (status : ImplementationStatus) :
  status_count IMPLEMENTATION_STATUS (get_props item) <= 1 ->
  get_status (insert_status_in_props IMPLEMENTATION_STATUS item status)
  = status.
Proof.
  intros Hone. unfold get_status_from_props.
  rewrite insert_status_props. cbn [as_list].
  rewrite get_status_loop_app.
  - apply prop_status_roundtrip.
  - apply remove_first_single. exact Hone.
  - reflexivity.
Qed.
End Replace.

Lemma update_statement_fields (stat statement : Statement) :
  statement_id (update stat statement) = statement_id stat
  /\ statement_uuid (update stat statement) = statement_uuid stat
  /\ statement_remarks (update stat statement) = statement_remarks stat
  /\ statement_description (update stat statement)
     = statement_description statement
  /\ statement_props (update stat statement)
     = Some (remove_first_named IMPLEMENTATION_STATUS
               (as_list (statement_props stat))
             ++ [status_prop (get_status statement)])
  /\ (status_count IMPLEMENTATION_STATUS (statement_props stat) <= 1 ->
      get_status (update stat statement) = get_status statement).
Proof.
  repeat split.
  - unfold update_statement, _copy_status_in_props.
    exact (insert_status_props
             (set_description stat (statement_description statement))
             (get_status statement)).
  - intros Hone. unfold update_statement, _copy_status_in_props.
    apply insert_status_read. exact Hone.
Qed.

Lemma fold_update_id (l : list Statement) (o : Statement) :
  statement_id (fold_left update l o) = statement_id o.
Proof.
  revert o. induction l as [|s l IH]; intros o; simpl; [reflexivity|].
  rewrite IH. reflexivity.
Qed.

Lemma make_statement_dict_get (old : list Statement) (id : string) :
  dict_get id (make_statement_dict old) = old_statement old id.
Proof.
  unfold make_statement_dict, old_statement.
  assert (Hgen : forall d : dict Statement,
             dict_get id (fold_left
                            (fun d stat => dict_set (statement_id stat) stat d)
                            old d)
             = match find (fun o => String.eqb (statement_id o) id)
                          (rev old) with
               | Some o => Some o
               | None => dict_get id d
               end).
  { induction old as [|o old IH]; intros d; [reflexivity|].
    cbn [fold_left rev]. rewrite IH, find_app. cbn [find].
    destruct (find (fun o0 => String.eqb (statement_id o0) id) (rev old));
      [reflexivity|].
    destruct (String.eqb (statement_id o) id) eqn:E.
    - apply String.eqb_eq in E. subst id. apply dict_get_set_same.
    - apply String.eqb_neq in E. apply dict_get_set_other. exact E. }
  rewrite Hgen. destruct (find _ (rev old)); reflexivity.
Qed.

(** The loop over the new statements, from any dictionary. *)
Lemma new_statements_loop (new : list Statement) :
  forall (d : dict Statement) (out : list statement_ref),
  exists d' refs,
    fold_left (new_statements_step IMPLEMENTATION_STATUS STATUS_OTHER)
              new (d, out) = (d', out ++ refs)
    /\ (forall id, dict_get id d'
                   = option_map (fold_left update (same_id id new))
                                (dict_get id d))
    /\ map (deref d') refs
       = map (fun s =>
                match dict_get (statement_id s) d with
                | Some o => fold_left update (same_id (statement_id s) new) o
                | None => update s s
                end) new.
Proof.
  induction new as [|s new IH]; intros d out.
  - exists d, []. rewrite app_nil_r. repeat split.
    intros id. destruct (dict_get id d); reflexivity.
  - cbn [fold_left]. unfold new_statements_step at 2.
    destruct (dict_get (statement_id s) d) as [o|] eqn:Eget.
    + destruct (IH (dict_set (statement_id s) (update o s) d)
                   (out ++ [OldObject (statement_id s) (update o s)]))
        as (d' & refs & Hfold & Hd' & Hrefs).
      exists d', (OldObject (statement_id s) (update o s) :: refs).
      split; [rewrite Hfold, <- app_assoc; reflexivity|].
      assert (Hlook : forall id,
                 dict_get id d'
                 = option_map (fold_left update (same_id id (s :: new)))
                              (dict_get id d)).
      { intros id. rewrite Hd'. unfold same_id. cbn [filter].
        destruct (String.eqb (statement_id s) id) eqn:E.
        - apply String.eqb_eq in E. subst id.
          rewrite dict_get_set_same, Eget. reflexivity.
        - apply String.eqb_neq in E.
          rewrite dict_get_set_other by exact E. reflexivity. }
      split; [exact Hlook|].
      cbn [map deref]. rewrite Hlook, Eget. cbn [option_map].
      f_equal. rewrite Hrefs. apply map_ext. intros s'.
      unfold same_id. cbn [filter].
      destruct (String.eqb (statement_id s) (statement_id s')) eqn:E.
      * apply String.eqb_eq in E. rewrite <- E.
        rewrite dict_get_set_same, Eget. reflexivity.
      * apply String.eqb_neq in E.
        rewrite dict_get_set_other by exact E. reflexivity.
    + destruct (IH d (out ++ [NewObject (update s s)]))
        as (d' & refs & Hfold & Hd' & Hrefs).
      exists d', (NewObject (update s s) :: refs).
      split; [rewrite Hfold, <- app_assoc; reflexivity|].
      assert (Hskip : forall id o,
                 dict_get id d = Some o ->
                 same_id id (s :: new) = same_id id new).
      { intros id o Hid. unfold same_id. cbn [filter].
        destruct (String.eqb (statement_id s) id) eqn:E; [|reflexivity].
        apply String.eqb_eq in E. subst id. congruence. }
      split.
      * intros id. rewrite Hd'.
        destruct (dict_get id d) as [o|] eqn:Eid; [|reflexivity].
        cbn [option_map]. rewrite (Hskip id o Eid). reflexivity.
      * cbn [map deref]. rewrite Eget. f_equal. rewrite Hrefs.
        apply map_ext_in.
        intros s' _.
        destruct (dict_get (statement_id s') d) as [o|] eqn:Eid;
          [|reflexivity].
        rewrite (Hskip _ o Eid). reflexivity.
Qed.

Lemma merged_statements_map (old new : list Statement) :
  merged_statements IMPLEMENTATION_STATUS STATUS_OTHER old new
  = map (merged_statement IMPLEMENTATION_STATUS STATUS_OTHER old new) new.
Proof.
  unfold merged_statements.
  destruct (new_statements_loop new (make_statement_dict old) [])
    as (d' & refs & Hfold & _ & Hrefs).
  rewrite Hfold. cbv beta iota. cbn [app]. rewrite Hrefs.
  apply map_ext. intros s.
  unfold merged_statement. rewrite make_statement_dict_get. reflexivity.
Qed.

Local Abbreviation insert_reqs :=
  (insert_in_imp_reqs IMPLEMENTATION_STATUS STATUS_OTHER).
Local Abbreviation insert_imps :=
  (insert_in_control_imps IMPLEMENTATION_STATUS STATUS_OTHER).
Local Abbreviation update_req :=
  (update_imp_req IMPLEMENTATION_STATUS STATUS_OTHER).

Lemma insert_in_imp_reqs_none (l : list ImplementedRequirement)
  (new_imp_req : ImplementedRequirement) :
  Forall (fun r => imp_req_control_id r <> imp_req_control_id new_imp_req) l ->
  insert_reqs l new_imp_req = None.
Proof.
  induction 1 as [|r l Hr _ IH]; [reflexivity|].
  cbn [insert_in_imp_reqs]. apply String.eqb_neq in Hr. rewrite Hr, IH.
  reflexivity.
Qed.

Lemma insert_in_imp_reqs_some (before after : list ImplementedRequirement)
  (imp_req new_imp_req : ImplementedRequirement) :
  Forall (fun r => imp_req_control_id r <> imp_req_control_id new_imp_req)
         before ->
  imp_req_control_id imp_req = imp_req_control_id new_imp_req ->
  insert_reqs (before ++ imp_req :: after) new_imp_req
  = Some (before ++ update_req imp_req new_imp_req :: after).
Proof.
  intros Hbefore Hid. induction Hbefore as [|r l Hr _ IH].
  - cbn [app insert_in_imp_reqs]. rewrite Hid, String.eqb_refl.
    reflexivity.
  - cbn [app insert_in_imp_reqs]. apply String.eqb_neq in Hr.
    rewrite Hr, IH. reflexivity.
Qed.

Lemma insert_in_control_imps_none (cis : list ControlImplementation)
  (new_imp_req : ImplementedRequirement) :
  Forall (no_match (imp_req_control_id new_imp_req)) cis ->
  insert_imps cis new_imp_req = None.
Proof.
  induction 1 as [|ci cis Hci _ IH]; [reflexivity|].
  cbn [insert_in_control_imps as_list].
  rewrite (insert_in_imp_reqs_none _ _ Hci), IH. reflexivity.
Qed.

Lemma insert_in_control_imps_some (pre post : list ControlImplementation)
  (ci : ControlImplementation)
  (before after : list ImplementedRequirement)
  (imp_req new_imp_req : ImplementedRequirement) :
  Forall (no_match (imp_req_control_id new_imp_req)) pre ->
  implemented_requirements ci = before ++ imp_req :: after ->
  Forall (fun r => imp_req_control_id r <> imp_req_control_id new_imp_req)
         before ->
  imp_req_control_id imp_req = imp_req_control_id new_imp_req ->
  insert_imps (pre ++ ci :: post) new_imp_req
  = Some (pre
          ++ set_implemented_requirements ci
               (before ++ update_req imp_req new_imp_req :: after)
          :: post).
Proof.
  intros Hpre Hci Hbefore Hid. induction Hpre as [|c l Hc _ IH].
  - cbn [app insert_in_control_imps as_list].
    rewrite Hci, (insert_in_imp_reqs_some _ _ _ _ Hbefore Hid).
    reflexivity.
  - cbn [app insert_in_control_imps as_list].
    rewrite (insert_in_imp_reqs_none _ _ Hc), IH. reflexivity.
Qed.

Lemma update_imp_req_fields (imp_req new_imp_req : ImplementedRequirement) :
  imp_req_uuid (update_req imp_req new_imp_req) = imp_req_uuid imp_req
  /\ imp_req_control_id (update_req imp_req new_imp_req)
     = imp_req_control_id imp_req
  /\ imp_req_description (update_req imp_req new_imp_req)
     = imp_req_description imp_req
  /\ imp_req_props (update_req imp_req new_imp_req)
     = Some (remove_first_named IMPLEMENTATION_STATUS
               (as_list (imp_req_props imp_req))
             ++ [status_prop (get_status new_imp_req)])
  /\ (status_count IMPLEMENTATION_STATUS (imp_req_props imp_req) <= 1 ->
      get_status (update_req imp_req new_imp_req) = get_status new_imp_req)
  /\ imp_req_statements (update_req imp_req new_imp_req)
     = none_if_empty
         (Some (map (merged_statement IMPLEMENTATION_STATUS STATUS_OTHER
                       (as_list (imp_req_statements imp_req))
                       (as_list (imp_req_statements new_imp_req)))
                    (as_list (imp_req_statements new_imp_req)))).
Proof.
  repeat split.
  - exact (insert_status_props imp_req (get_status new_imp_req)).
  - intros Hone.
    exact (insert_status_read imp_req (get_status new_imp_req) Hone).
  - unfold update_imp_req. cbn [set_statements imp_req_statements].
    rewrite merged_statements_map. reflexivity.
Qed.
End ComponentFacts.

(** C2. What [insert_imp_req_into_component] does, by control id.  When
    the first implemented requirement with the control id of the new record
    is found, it is updated where it stands: its status property is replaced
    by the status of the new record, and its statements become, for each
    statement of the new record in order, the old statement of the same
    statement id with the description and status of the new one and all its
    other fields kept, or the new statement when no old one has that id.
    When no implemented requirement has the control id and the component has
    a control implementation, the new record goes last in the first one.
    When the component has no control implementation, the call that is to
    make the first one leaves out the implemented requirements that a
    control implementation requires, and raises: no control implementation
    is made and the new record is not inserted. *)
Theorem insert_imp_req_upsert :
  forall (IMPLEMENTATION_STATUS STATUS_OTHER REPLACE_ME fresh_uuid : string)
         (component : DefinedComponent)
         (new_imp_req : ImplementedRequirement),
    let insert :=
      insert_imp_req_into_component IMPLEMENTATION_STATUS STATUS_OTHER
        REPLACE_ME fresh_uuid in
    let update_req := update_imp_req IMPLEMENTATION_STATUS STATUS_OTHER in
    let update := update_statement IMPLEMENTATION_STATUS STATUS_OTHER in
    let get_status {T : Type} {TP : TypeWithProps T} :=
      get_status_from_props (T := T) IMPLEMENTATION_STATUS STATUS_OTHER in
    let status_prop := _status_as_prop IMPLEMENTATION_STATUS in
    let new_id := imp_req_control_id new_imp_req in
    (* a record with the control id exists: it is updated in place *)
    (forall pre ci post before imp_req after,
        as_list (control_implementations component) = pre ++ ci :: post ->
        Forall (no_match new_id) pre ->
        implemented_requirements ci = before ++ imp_req :: after ->
        Forall (fun r => imp_req_control_id r <> new_id) before ->
        imp_req_control_id imp_req = new_id ->
        insert component new_imp_req
        = Built
            (mkDefinedComponent (component_title component)
               (Some (pre
                      ++ set_implemented_requirements ci
                           (before
                            ++ update_req imp_req new_imp_req :: after)
                      :: post))))
    (* the updated record *)
    /\ (forall imp_req,
           imp_req_uuid (update_req imp_req new_imp_req)
           = imp_req_uuid imp_req
           /\ imp_req_control_id (update_req imp_req new_imp_req)
              = imp_req_control_id imp_req
           /\ imp_req_description (update_req imp_req new_imp_req)
              = imp_req_description imp_req
           /\ imp_req_props (update_req imp_req new_imp_req)
              = Some (remove_first_named IMPLEMENTATION_STATUS
                        (as_list (imp_req_props imp_req))
                      ++ [status_prop (get_status new_imp_req)])
           /\ (status_count IMPLEMENTATION_STATUS (imp_req_props imp_req) <= 1 ->
               get_status (update_req imp_req new_imp_req)
               = get_status new_imp_req)
           /\ imp_req_statements (update_req imp_req new_imp_req)
              = none_if_empty
                  (Some (map (merged_statement IMPLEMENTATION_STATUS
                                STATUS_OTHER
                                (as_list (imp_req_statements imp_req))
                                (as_list (imp_req_statements new_imp_req)))
                             (as_list (imp_req_statements new_imp_req)))))
    (* a merged statement, when the new record has its id once *)
    /\ (forall (old : list Statement) (s : Statement),
           let new := as_list (imp_req_statements new_imp_req) in
           same_id (statement_id s) new = [s] ->
           merged_statement IMPLEMENTATION_STATUS STATUS_OTHER old new s
           = match old_statement old (statement_id s) with
             | Some o => update o s
             | None => update s s
             end)
    (* what the update keeps of the old statement and takes of the new *)
    /\ (forall stat statement : Statement,
           statement_id (update stat statement) = statement_id stat
           /\ statement_uuid (update stat statement) = statement_uuid stat
           /\ statement_remarks (update stat statement)
              = statement_remarks stat
           /\ statement_description (update stat statement)
              = statement_description statement
           /\ statement_props (update stat statement)
              = Some (remove_first_named IMPLEMENTATION_STATUS
                        (as_list (statement_props stat))
                      ++ [status_prop (get_status statement)])
           /\ (status_count IMPLEMENTATION_STATUS (statement_props stat) <= 1 ->
               get_status (update stat statement) = get_status statement))
    (* no record with the control id, and a first control implementation:
       the new record is appended to it *)
    /\ (forall first rest,
           control_implementations component = Some (first :: rest) ->
           Forall (no_match new_id) (first :: rest) ->
           insert component new_imp_req
           = Built
               (mkDefinedComponent (component_title component)
                  (Some (set_implemented_requirements first
                           (implemented_requirements first
                            ++ [new_imp_req])
                         :: rest))))
    (* no control implementation: the call raises *)
    /\ (list_truthy (control_implementations component) = false ->
        insert component new_imp_req
        = ValidationError "implemented_requirements").
Proof.
  intros IMPLEMENTATION_STATUS STATUS_OTHER REPLACE_ME fresh_uuid component
         new_imp_req insert update_req update get_status status_prop new_id.
  split; [|split; [|split; [|split; [|split]]]].
  - intros pre ci post before imp_req after Hcis Hpre Hci Hbefore Hid.
    unfold insert, insert_imp_req_into_component.
    rewrite Hcis.
    rewrite (insert_in_control_imps_some IMPLEMENTATION_STATUS STATUS_OTHER
               pre post ci before after imp_req new_imp_req
               Hpre Hci Hbefore Hid).
    reflexivity.
  - intros imp_req. apply update_imp_req_fields.
  - intros old s new Hsame. unfold merged_statement. rewrite Hsame.
    reflexivity.
  - intros stat statement. apply update_statement_fields.
  - intros first rest Hcis Hnone.
    unfold insert, insert_imp_req_into_component. rewrite Hcis.
    cbn [as_list].
    rewrite (insert_in_control_imps_none IMPLEMENTATION_STATUS STATUS_OTHER
               _ _ Hnone).
    reflexivity.
  - intros Hfalsy. unfold insert, insert_imp_req_into_component.
    destruct (control_implementations component) as [[|first rest]|];
      [reflexivity|discriminate Hfalsy|reflexivity].
Qed.

Lemma insert_imp_req_upsert_witness :
  insert_imp_req_into_component "implementation-status" "other" "REPLACE_ME"
    "uuid-0" sample_component sample_new_req
  = Built
      (mkDefinedComponent "comp"
         (Some [mkControlImplementation "uuid-ci" "source" "bucket"
                  [sample_other_req;
                   mkImplementedRequirement "uuid-req" "ac-1" "old text"
                     (Some [mkProperty "implementation-status"
                                       "implemented" None])
                     (Some [mkStatement "ac-1_smt.a" "uuid-a" "new a"
                              (Some [mkProperty "owner" "ops" None;
                                     mkProperty "implementation-status"
                                                "partial" None])
                              (Some "kept");
                            mkStatement "ac-1_smt.c" "uuid-c" "new c"
                              (Some [mkProperty "implementation-status"
                                                "other" None])
                              None])]]))
  /\ insert_imp_req_into_component "implementation-status" "other"
       "REPLACE_ME" "uuid-0" (mkDefinedComponent "empty" None) sample_new_req
     = ValidationError "implemented_requirements".
Proof.
  split.
  - refine (eq_trans
              (proj1 (insert_imp_req_upsert "implementation-status" "other"
                        "REPLACE_ME" "uuid-0" sample_component sample_new_req)
                 []
                 (mkControlImplementation "uuid-ci" "source" "bucket"
                    [sample_other_req; sample_old_req])
                 [] [sample_other_req] sample_old_req []
                 eq_refl (Forall_nil _) eq_refl _ eq_refl) _).
    + constructor; [discriminate|constructor].
    + reflexivity.
  - exact (proj2 (proj2 (proj2 (proj2 (proj2
             (insert_imp_req_upsert "implementation-status" "other"
                "REPLACE_ME" "uuid-0" (mkDefinedComponent "empty" None)
                sample_new_req)))))
             eq_refl).
Defined.

(** A record for a control id that the component does not have goes last in
    the first control implementation. *)
Example insert_imp_req_appended :
  insert_imp_req_into_component "implementation-status" "other" "REPLACE_ME"
    "uuid-0" sample_component
    (mkImplementedRequirement "uuid-n" "ac-3" "text" None None)
  = Built
      (mkDefinedComponent "comp"
         (Some [mkControlImplementation "uuid-ci" "source" "bucket"
                  [sample_other_req; sample_old_req;
                   mkImplementedRequirement "uuid-n" "ac-3" "text" None
                     None]])).
Proof. reflexivity. Qed.

(** A component whose list of control implementations is empty fares as one
    that has none. *)
Example insert_imp_req_empty_list :
  insert_imp_req_into_component "implementation-status" "other" "REPLACE_ME"
    "uuid-0" (mkDefinedComponent "empty" (Some [])) sample_new_req
  = ValidationError "implemented_requirements".
Proof. reflexivity. Qed.

(** A statement id that the new record carries twice names one old object:
    both places of the result hold it, as the last of the two left it. *)
Example merged_statements_shared_object :
  merged_statements "implementation-status" "other"
    [mkStatement "s1" "uuid-1" "old" None None]
    [mkStatement "s1" "uuid-2" "first" None None;
     mkStatement "s1" "uuid-3" "second" None None]
  = [mkStatement "s1" "uuid-1" "second"
       (Some [mkProperty "implementation-status" "other" None]) None;
     mkStatement "s1" "uuid-1" "second"
       (Some [mkProperty "implementation-status" "other" None]) None].
Proof. reflexivity. Qed.

(** With two status properties on the old record, the one that is left
    shadows the new status. *)
Example insert_status_two_status_props :
  get_status_from_props "implementation-status" "other"
    (insert_status_in_props "implementation-status"
       (mkImplementedRequirement "uuid-req" "ac-1" "text"
          (Some [mkProperty "implementation-status" "planned" None;
                 mkProperty "implementation-status" "partial" None])
          None)
       (mkImplementationStatus "implemented" None))
  = mkImplementationStatus "partial" None.
Proof. reflexivity. Qed.

(* ===================================================================== *)
(** * Markdown headers: [bad_header] *)
(* ===================================================================== *)

Lemma bad_header_loop_false (rest : string) :
  bad_header_loop rest = false
  <-> exists n tail, rest = (hashes n ++ String " "%char tail)%string.
Proof.
  induction rest as [|c r IH]; cbn [bad_header_loop].
  - split; [discriminate|]. intros (n & tail & Heq).
    destruct n; discriminate.
  - destruct (Ascii.eqb c " "%char) eqn:Esp.
    + apply Ascii.eqb_eq in Esp. subst c. split; [|reflexivity].
      intros _. exists 0, r. reflexivity.
    + destruct (Ascii.eqb c "#"%char) eqn:Ehash; cbn [negb].
      * apply Ascii.eqb_eq in Ehash. subst c. rewrite IH. split.
        -- intros (n & tail & ->). exists (S n), tail. reflexivity.
        -- intros (n & tail & Heq). destruct n as [|n].
           ++ discriminate.
           ++ injection Heq as ->. exists n, tail. reflexivity.
      * split; [discriminate|]. intros (n & tail & Heq).
        destruct n as [|n]; injection Heq as -> _.
        -- rewrite Ascii.eqb_refl in Esp. discriminate.
        -- rewrite Ascii.eqb_refl in Ehash. discriminate.
Qed.

(** X1. A header is accepted exactly when it is one or more ['#'] followed
    by a space and anything; every other string, the empty one and a bare
    run of ['#'] included, is bad. *)
Theorem bad_header_false_iff :
  forall header : string,
    bad_header header = false
    <-> exists n tail,
        header = (hashes (S n) ++ String " "%char tail)%string.
Proof.
  intros header. destruct header as [|c rest]; cbn [bad_header].
  - split; [discriminate|]. intros (n & tail & Heq). discriminate.
  - destruct (Ascii.eqb c "#"%char) eqn:Ehash; cbn [negb].
    + apply Ascii.eqb_eq in Ehash. subst c.
      assert (Hlen : (String.length (String "#"%char rest) <? 2)
                     = match rest with EmptyString => true | _ => false end)
        by (destruct rest; reflexivity).
      rewrite Hlen. destruct rest as [|d r].
      * split; [discriminate|]. intros (n & tail & Heq).
        injection Heq as Heq. destruct n; discriminate.
      * rewrite bad_header_loop_false. split.
        -- intros (n & tail & ->). exists n, tail. reflexivity.
        -- intros (n & tail & Heq). injection Heq as Heq.
           exists n, tail. exact Heq.
    + split; [discriminate|]. intros (n & tail & Heq).
      injection Heq as -> _. rewrite Ascii.eqb_refl in Ehash. discriminate.
Qed.

Example bad_header_samples :
  bad_header "## Control" = false /\ bad_header "#Control" = true
  /\ bad_header "###" = true /\ bad_header " # Control" = true
  /\ bad_header "# " = false.
Proof. repeat split. Qed.

(* ===================================================================== *)
(** * Withdrawn controls: [is_withdrawn] *)
(* ===================================================================== *)

Lemma is_space_lower_char (c : ascii) : is_space (lower_char c) = is_space c.
Proof.
  destruct c as [[] [] [] [] [] [] [] []]; reflexivity.
Qed.

Lemma lower_lstrip (s : string) : lower (lstrip s) = lstrip (lower s).
Proof.
  induction s as [|c s IH]; [reflexivity|].
  cbn [lstrip lower]. rewrite is_space_lower_char.
  destruct (is_space c); [exact IH|reflexivity].
Qed.

Lemma lower_rstrip (s : string) : lower (rstrip s) = rstrip (lower s).
Proof.
  induction s as [|c s IH]; [reflexivity|].
  cbn [rstrip lower]. rewrite <- IH, is_space_lower_char.
  destruct (rstrip s); cbn [lower]; [|reflexivity].
  destruct (is_space c); reflexivity.
Qed.

Lemma lower_strip (s : string) : strip (lower s) = lower (strip s).
Proof. unfold strip. rewrite lower_rstrip, lower_lstrip. reflexivity. Qed.

Lemma is_withdrawn_loop_exists (props : list Property) :
  is_withdrawn_loop props
  = existsb (fun p => String.eqb (lower (strip (prop_name p))) "status"
                      && String.eqb (lower (strip (prop_value p))) "withdrawn")
            props.
Proof.
  induction props as [|p props IH]; [reflexivity|].
  cbn [is_withdrawn_loop existsb]. rewrite IH, !lower_strip.
  destruct (prop_name p) as [|c n]; [reflexivity|].
  destruct (prop_value p) as [|d v]; cbn [truthy andb].
  - rewrite andb_false_r. reflexivity.
  - destruct (String.eqb (lower (strip (String c n))) "status"
              && String.eqb (lower (strip (String d v))) "withdrawn");
      reflexivity.
Qed.

(** X2. A control is withdrawn exactly when some property of it, at any
    place, has the name ['status'] and the value ['withdrawn'] up to case
    and surrounding white space.  In particular it is withdrawn whenever
    [get_prop] reads ['withdrawn'] (up to case) as its status. *)
Theorem is_withdrawn_iff :
  forall control : Control,
    (is_withdrawn control = true
     <-> exists p,
         In p (as_list (control_props control))
         /\ lower (strip (prop_name p)) = "status"
         /\ lower (strip (prop_value p)) = "withdrawn")
    /\ (lower (get_prop control "status" None) = "withdrawn" ->
        is_withdrawn control = true).
Proof.
  intros control.
  assert (Hiff : is_withdrawn control = true
                 <-> exists p,
                     In p (as_list (control_props control))
                     /\ lower (strip (prop_name p)) = "status"
                     /\ lower (strip (prop_value p)) = "withdrawn").
  { unfold is_withdrawn. rewrite is_withdrawn_loop_exists, existsb_exists.
    split.
    - intros (p & Hin & Hp). apply andb_true_iff in Hp. destruct Hp as [H1 H2].
      apply String.eqb_eq in H1. apply String.eqb_eq in H2. eauto.
    - intros (p & Hin & H1 & H2). exists p. split; [exact Hin|].
      rewrite H1, H2. reflexivity. }
  split; [exact Hiff|].
  intros Hget. apply Hiff. rewrite get_prop_find in Hget.
  change (get_props control) with (control_props control) in Hget.
  destruct (find (loose_name_match "status") (as_list (control_props control)))
    as [p|] eqn:E; [|discriminate].
  apply find_some in E. destruct E as [Hin Hmatch].
  exists p. split; [exact Hin|]. split; [|exact Hget].
  unfold loose_name_match in Hmatch. apply String.eqb_eq in Hmatch.
  exact Hmatch.
Qed.

Lemma is_withdrawn_iff_witness :
  is_withdrawn
    (mkControl "ac-1" "Policy"
       (Some [mkProperty "label" "AC-1" None;
              mkProperty " Status" "Withdrawn " None])
       None)
  = true.
Proof.
  apply (proj2 (is_withdrawn_iff _)). reflexivity.
Defined.

(** A later status property withdraws the control although [get_prop]
    reads the first one. *)
Example is_withdrawn_later_property :
  is_withdrawn
    (mkControl "ac-1" "Policy"
       (Some [mkProperty "status" "active" None;
              mkProperty "status" "withdrawn" None])
       None)
  = true
  /\ get_prop
       (mkControl "ac-1" "Policy"
          (Some [mkProperty "status" "active" None;
                 mkProperty "status" "withdrawn" None])
          None)
       "status" None
     = "active".
Proof. split; reflexivity. Qed.

(* ===================================================================== *)
(** * Replacing, deleting and reading back a property *)
(* ===================================================================== *)

Lemma remove_first_app_last (n : string) (l : list Property) (p : Property) :
  count_named n l = 0 -> prop_name p = n ->
  remove_first_named n (l ++ [p]) = l.
Proof.
  unfold count_named. intros Hnone Hp.
  induction l as [|q l IH]; cbn [app remove_first_named].
  - rewrite Hp, String.eqb_refl. reflexivity.
  - cbn [filter] in Hnone.
    destruct (String.eqb (prop_name q) n); [discriminate|].
    rewrite (IH Hnone). reflexivity.
Qed.

Lemma count_named_remove_first (n : string) (l : list Property) :
  count_named n l <= 1 -> count_named n (remove_first_named n l) = 0.
Proof.
  unfold count_named. intros Hone.
  rewrite (remove_first_single n l Hone). reflexivity.
Qed.

Lemma remove_first_subset (n : string) (l : list Property) (q : Property) :
  In q (remove_first_named n l) -> In q l.
Proof.
  induction l as [|x l IH]; cbn [remove_first_named]; [tauto|].
  destruct (String.eqb (prop_name x) n).
  - intros Hq. right; exact Hq.
  - intros [Hq|Hq]; [left; exact Hq|right; apply IH; exact Hq].
Qed.

Lemma count_named_zero (n : string) (l : list Property) (q : Property) :
  count_named n l = 0 -> In q l -> prop_name q <> n.
Proof.
  unfold count_named. intros Hzero Hin Hname.
  assert (Hq : In q (filter (fun x => String.eqb (prop_name x) n) l)).
  { apply filter_In. split; [exact Hin|]. rewrite Hname.
    apply String.eqb_refl. }
  destruct (filter (fun x => String.eqb (prop_name x) n) l);
    [contradiction|discriminate].
Qed.

(** X3. On a node that has at most one property of the name of [new_prop]:
    replacing twice is replacing once; deleting the name after the
    replacement gives what deleting it at once gives; and after the
    replacement exactly one property has that name. *)
Theorem replace_prop_once :
  forall (T : Type) (TP : TypeWithProps T) (node : T) (new_prop : Property),
    count_named (prop_name new_prop) (as_list (get_props node)) <= 1 ->
    get_props (_replace_prop (_replace_prop node new_prop) new_prop)
    = get_props (_replace_prop node new_prop)
    /\ get_props (_delete_prop (_replace_prop node new_prop)
                               (prop_name new_prop))
       = get_props (_delete_prop node (prop_name new_prop))
    /\ count_named (prop_name new_prop)
                   (as_list (get_props (_replace_prop node new_prop)))
       = 1.
Proof.
  intros T TP node new_prop Hone.
  pose proof (count_named_remove_first _ _ Hone) as Hzero.
  repeat split.
  - rewrite !replace_prop_props. cbn [as_list].
    rewrite (remove_first_app_last _ _ _ Hzero eq_refl). reflexivity.
  - rewrite !delete_prop_props, replace_prop_props. cbn [option_map].
    rewrite (remove_first_app_last _ _ _ Hzero eq_refl).
    destruct (get_props node) as [l|]; reflexivity.
  - rewrite replace_prop_props. cbn [as_list]. unfold count_named in *.
    rewrite filter_app, length_app, Hzero. cbn [filter].
    rewrite String.eqb_refl. reflexivity.
Qed.

Lemma replace_prop_once_witness :
  get_props
    (_replace_prop
       (_replace_prop
          (mkControl "ac-1" "Policy"
             (Some [mkProperty "sort-id" "ac-01" None;
                    mkProperty "label" "AC-1" None]) None)
          (mkProperty "sort-id" "ac-001" None))
       (mkProperty "sort-id" "ac-001" None))
  = Some [mkProperty "label" "AC-1" None;
          mkProperty "sort-id" "ac-001" None].
Proof.
  refine (eq_trans
            (proj1 (replace_prop_once Control Control_TypeWithProps
                      (mkControl "ac-1" "Policy"
                         (Some [mkProperty "sort-id" "ac-01" None;
                                mkProperty "label" "AC-1" None]) None)
                      (mkProperty "sort-id" "ac-001" None) _)) _).
  - cbv. lia.
  - reflexivity.
Defined.

(** X4. When every property of the node that [get_prop] would take for the
    name of [new_prop] carries exactly that name, and at most one does,
    [get_prop] reads the trimmed value of [new_prop] after the replacement. *)
Theorem get_prop_after_replace :
  forall (T : Type) (TP : TypeWithProps T) (node : T) (new_prop : Property)
         (default : option string),
    (forall q, In q (as_list (get_props node)) ->
               loose_name_match (prop_name new_prop) q = true ->
               prop_name q = prop_name new_prop) ->
    count_named (prop_name new_prop) (as_list (get_props node)) <= 1 ->
    get_prop (_replace_prop node new_prop) (prop_name new_prop) default
    = strip (prop_value new_prop).
Proof.
  intros T TP node new_prop default Hexact Hone.
  pose proof (count_named_remove_first _ _ Hone) as Hzero.
  rewrite get_prop_find, replace_prop_props. cbn [as_list].
  rewrite find_app.
  destruct (find (loose_name_match (prop_name new_prop))
              (remove_first_named (prop_name new_prop)
                 (as_list (get_props node)))) as [q|] eqn:E.
  - apply find_some in E. destruct E as [Hin Hmatch].
    exfalso. apply (count_named_zero _ _ q Hzero Hin).
    apply Hexact; [|exact Hmatch].
    apply (remove_first_subset _ _ _ Hin).
  - cbn [find]. unfold loose_name_match at 1.
    rewrite String.eqb_refl. reflexivity.
Qed.

Lemma get_prop_after_replace_witness :
  get_prop
    (_replace_prop
       (mkControl "ac-1" "Policy"
          (Some [mkProperty "sort-id" "ac-01" None;
                 mkProperty "label" "AC-1" None]) None)
       (mkProperty "label" " AC-01 " None))
    "label" None
  = "AC-01".
Proof.
  refine (get_prop_after_replace Control Control_TypeWithProps
            (mkControl "ac-1" "Policy"
               (Some [mkProperty "sort-id" "ac-01" None;
                      mkProperty "label" "AC-1" None]) None)
            (mkProperty "label" " AC-01 " None) None _ _).
  - intros q [Hq|[Hq|[]]] Hmatch; subst q; [discriminate|reflexivity].
  - cbv. lia.
Defined.

(* ===================================================================== *)
(** * What the rule and parameter dictionaries hold *)
(* ===================================================================== *)

Section DictKeys.
Context {V : Type}.

Lemma dict_get_set_cases (k k' : string) (v e : V) (d : dict V) :
  dict_get k' (dict_set k v d) = Some e ->
  (k' = k /\ e = v) \/ (k' <> k /\ dict_get k' d = Some e).
Proof.
  destruct (string_dec k k') as [->|Hne].
  - rewrite dict_get_set_same. intros [= ->]. left. split; reflexivity.
  - rewrite dict_get_set_other by exact Hne. intros Hget. right.
    split; [congruence|exact Hget].
Qed.

Lemma dict_mem_keys (k : string) (d : dict V) :
  dict_mem k d = str_in k (dict_keys d).
Proof.
  unfold dict_mem, dict_keys.
  induction d as [|[k' v'] d IH]; [reflexivity|].
  cbn [dict_get map fst]. rewrite str_in_cons.
  destruct (String.eqb k' k); [reflexivity|exact IH].
Qed.

Lemma dict_keys_set (k : string) (v : V) (d : dict V) :
  dict_keys (dict_set k v d)
  = if dict_mem k d then dict_keys d else dict_keys d ++ [k].
Proof.
  unfold dict_mem, dict_keys.
  induction d as [|[k' v'] d IH]; [reflexivity|].
  cbn [dict_set dict_get].
  destruct (String.eqb k' k) eqn:E; [reflexivity|].
  cbn [map fst]. rewrite IH. destruct (dict_get k d); reflexivity.
Qed.
End DictKeys.

Lemma NoDup_snoc {A : Type} (l : list A) (x : A) :
  NoDup l -> ~ In x l -> NoDup (l ++ [x]).
Proof.
  intros Hnd Hx. induction Hnd as [|y l Hy Hnd IH]; cbn [app].
  - constructor; [intros []|constructor].
  - constructor.
    + intros Hin. apply in_app_or in Hin. destruct Hin as [Hin|[Heq|[]]].
      * contradiction.
      * subst. apply Hx. left; reflexivity.
    + apply IH. intros Hin. apply Hx. right; exact Hin.
Qed.

Lemma values_named_app (n : string) (l1 l2 : list Property) :
  values_named n (l1 ++ l2) = values_named n l1 ++ values_named n l2.
Proof. unfold values_named. rewrite filter_app, map_app. reflexivity. Qed.

Lemma rule_entry_from_more (seen : list Property) (p : Property)
  (entry : dict string) :
  rule_entry_from seen entry -> rule_entry_from (seen ++ [p]) entry.
Proof.
  intros (name & desc & He & Hn & Hd & Hin & Hid).
  exists name, desc. rewrite !values_named_app.
  repeat split; try assumption; apply in_or_app; left; assumption.
Qed.

Lemma rules_invariant_step (seen : list Property) (st : rules_state)
  (p : Property) :
  rules_invariant seen st -> rules_invariant (seen ++ [p]) (get_rules_step st p).
Proof.
  destruct st as [[[rules name] desc] id_]. intros (Hrules & Hname & Hdesc).
  assert (Hrules' : forall k entry, dict_get k rules = Some entry ->
                                    rule_entry_from (seen ++ [p]) entry).
  { intros k entry Hget. apply rule_entry_from_more. eapply Hrules; eauto. }
  assert (Hname' : name = EmptyString
                   \/ In name (values_named "rule_name_id" (seen ++ [p]))).
  { destruct Hname as [Hn|Hn]; [left; exact Hn|right].
    rewrite values_named_app. apply in_or_app; left; exact Hn. }
  assert (Hdesc' : desc = EmptyString
                   \/ In desc (values_named "rule_description" (seen ++ [p]))).
  { destruct Hdesc as [Hn|Hn]; [left; exact Hn|right].
    rewrite values_named_app. apply in_or_app; left; exact Hn. }
  assert (Hfinish : forall name1 desc1 id1,
            (name1 = EmptyString
             \/ In name1 (values_named "rule_name_id" (seen ++ [p]))) ->
            (desc1 = EmptyString
             \/ In desc1 (values_named "rule_description" (seen ++ [p]))) ->
            rules_invariant (seen ++ [p])
              (if truthy name1 && truthy desc1
               then (dict_set id1 [("name", name1); ("description", desc1)]
                              rules,
                     EmptyString, EmptyString, EmptyString)
               else (rules, name1, desc1, id1))).
  { intros name1 desc1 id1 Hn1 Hd1.
    destruct (truthy name1 && truthy desc1) eqn:E.
    - apply andb_true_iff in E. destruct E as [En Ed].
      apply truthy_true_iff in En. apply truthy_true_iff in Ed.
      split; [|split; left; reflexivity].
      intros k entry Hget. apply dict_get_set_cases in Hget.
      destruct Hget as [[_ ->]|[_ Hget]]; [|eapply Hrules'; eauto].
      exists name1, desc1. repeat split; try assumption.
      + destruct Hn1 as [Hn1|Hn1]; [contradiction|exact Hn1].
      + destruct Hd1 as [Hd1|Hd1]; [contradiction|exact Hd1].
    - split; [exact Hrules'|split; assumption]. }
  unfold get_rules_step.
  destruct (String.eqb (prop_name p) "rule_name_id") eqn:En.
  - apply Hfinish; [|exact Hdesc']. right.
    rewrite values_named_app. apply in_or_app; right.
    unfold values_named. cbn [filter]. rewrite En. left; reflexivity.
  - destruct (String.eqb (prop_name p) "rule_description") eqn:Ed.
    + apply Hfinish; [exact Hname'|]. right.
      rewrite values_named_app. apply in_or_app; right.
      unfold values_named. cbn [filter]. rewrite Ed. left; reflexivity.
    + apply Hfinish; assumption.
Qed.

Lemma rules_invariant_fold (props seen : list Property) (st : rules_state) :
  rules_invariant seen st ->
  rules_invariant (seen ++ props) (fold_left get_rules_step props st).
Proof.
  revert seen st. induction props as [|p props IH]; intros seen st Hinv.
  - rewrite app_nil_r. exact Hinv.
  - cbn [fold_left].
    replace (seen ++ p :: props) with ((seen ++ [p]) ++ props)
      by (rewrite <- app_assoc; reflexivity).
    apply IH. apply rules_invariant_step. exact Hinv.
Qed.

(** X5. Whatever the properties of an item are, every entry of the rule
    dictionary holds exactly a non-empty name and a non-empty description,
    the name is one that [get_rule_list_for_item] lists and the description
    is the value of a [rule_description] property of the item. *)
Theorem get_rules_entries :
  forall (T : Type) (TP : TypeWithProps T) (item : T)
         (rule_id : string) (entry : dict string),
    dict_get rule_id (get_rules_from_item item) = Some entry ->
    exists name desc,
      entry = [("name", name); ("description", desc)]
      /\ name <> EmptyString /\ desc <> EmptyString
      /\ In name (get_rule_list_for_item item)
      /\ exists p, In p (as_list (get_props item))
                   /\ prop_name p = "rule_description"
                   /\ prop_value p = desc.
Proof.
  intros T TP item rule_id entry Hget. unfold get_rules_from_item in Hget.
  pose proof (rules_invariant_fold (as_list (get_props item)) []
                ([], EmptyString, EmptyString, EmptyString)) as Hinv.
  destruct (fold_left get_rules_step (as_list (get_props item))
              ([], EmptyString, EmptyString, EmptyString))
    as [[[rules name] desc] id_].
  destruct Hinv as (Hrules & _ & _).
  { split; [intros k e Hk; discriminate|split; left; reflexivity]. }
  destruct (Hrules _ _ Hget) as (n & d & He & Hn & Hd & Hin & Hid).
  exists n, d. repeat split; try assumption.
  unfold values_named in Hid. apply in_map_iff in Hid.
  destruct Hid as (p & Hv & Hp). apply filter_In in Hp.
  destruct Hp as [Hp Hname]. apply String.eqb_eq in Hname.
  exists p. repeat split; assumption.
Qed.

Lemma get_rules_entries_witness :
  exists name desc,
    [("name", "rule_two"); ("description", "second")]
    = [("name", name); ("description", desc)]
    /\ name <> EmptyString /\ desc <> EmptyString.
Proof.
  destruct (get_rules_entries Control Control_TypeWithProps
              (mkControl "ac-1" "Policy"
                 (Some [mkProperty "rule_description" "first" None;
                        mkProperty "rule_name_id" "rule_one" (Some "r1");
                        mkProperty "rule_name_id" "rule_two" (Some "r2");
                        mkProperty "rule_description" "second" None])
                 None)
              "r2" [("name", "rule_two"); ("description", "second")]
              eq_refl)
    as (name & desc & He & Hn & Hd & _).
  exists name, desc. repeat split; assumption.
Defined.

(** A description that comes before its name is paired with the next name. *)
Example get_rules_description_first :
  get_rules_from_item
    (mkControl "ac-1" "Policy"
       (Some [mkProperty "rule_description" "first" None;
              mkProperty "rule_name_id" "rule_one" (Some "r1");
              mkProperty "rule_name_id" "rule_two" (Some "r2");
              mkProperty "rule_description" "second" None])
       None)
  = [("r1", [("name", "rule_one"); ("description", "first")]);
     ("r2", [("name", "rule_two"); ("description", "second")])].
Proof. reflexivity. Qed.

Lemma get_params_loop_returns (props : list Property) :
  forall params result : dict (dict string),
    get_params_loop props params = Returns result ->
    dict_keys result = dict_keys params ++ param_rule_ids props
    /\ (forall k e, dict_get k params = Some e ->
                    exists e', dict_get k result = Some e'
                               /\ dict_get "name" e' = dict_get "name" e)
    /\ (forall p, In p props -> prop_name p = "param_id" ->
                  exists e, dict_get (string_from_root (prop_remarks p)) result
                            = Some e
                            /\ dict_get "name" e = Some (prop_value p)).
Proof.
  induction props as [|q props IH]; intros params result Hloop.
  - injection Hloop as <-. unfold param_rule_ids. cbn [filter map].
    rewrite app_nil_r. split; [reflexivity|]. split; [eauto|intros p []].
  - cbn [get_params_loop] in Hloop.
    set (rule_id := string_from_root (prop_remarks q)) in *.
    destruct (String.eqb (prop_name q) "param_id") eqn:Eid.
    + destruct (dict_mem rule_id params) eqn:Emem; [discriminate|].
      destruct (IH _ _ Hloop) as (Hkeys & Hkeep & Hnames).
      rewrite dict_keys_set, Emem in Hkeys.
      split; [|split].
      * rewrite Hkeys, (param_rule_ids_cons_id _ _ Eid), <- app_assoc.
        reflexivity.
      * intros k e Hget. apply Hkeep.
        rewrite dict_get_set_other; [exact Hget|].
        intros <-. unfold dict_mem in Emem. rewrite Hget in Emem.
        discriminate.
      * intros p [<-|Hp] Hname; [|apply Hnames; assumption].
        fold rule_id.
        destruct (Hkeep rule_id [("name", prop_value q)]) as (e & He & Hn);
          [apply dict_get_set_same|].
        exists e. split; [exact He|]. rewrite Hn. reflexivity.
    + assert (Hstep : forall field value entry,
                field <> "name" ->
                dict_get rule_id params = Some entry ->
                get_params_loop props
                  (dict_set rule_id (dict_set field value entry) params)
                = Returns result ->
                dict_keys result
                = dict_keys params ++ param_rule_ids (q :: props)
                /\ (forall k e, dict_get k params = Some e ->
                      exists e', dict_get k result = Some e'
                                 /\ dict_get "name" e' = dict_get "name" e)
                /\ (forall p, In p (q :: props) -> prop_name p = "param_id" ->
                      exists e,
                        dict_get (string_from_root (prop_remarks p)) result
                        = Some e
                        /\ dict_get "name" e = Some (prop_value p))).
      { intros field value entry Hfield Hget Hrest.
        destruct (IH _ _ Hrest) as (Hkeys & Hkeep & Hnames).
        rewrite dict_keys_set in Hkeys. unfold dict_mem in Hkeys.
        rewrite Hget in Hkeys.
        split; [|split].
        - rewrite Hkeys, (param_rule_ids_cons_other _ _ Eid). reflexivity.
        - intros k e Hk. destruct (string_dec rule_id k) as [<-|Hne].
          + destruct (Hkeep rule_id (dict_set field value entry))
              as (e' & He' & Hn); [apply dict_get_set_same|].
            exists e'. split; [exact He'|]. rewrite Hn.
            rewrite dict_get_set_other by exact Hfield. congruence.
          + apply Hkeep. rewrite dict_get_set_other by exact Hne. exact Hk.
        - intros p [<-|Hp] Hname; [|apply Hnames; assumption].
          rewrite Hname in Eid. discriminate. }
      destruct (String.eqb (prop_name q) "param_description") eqn:Edesc;
        [|destruct (String.eqb (prop_name q) "param_options") eqn:Eopt].
      * destruct (dict_get rule_id params) as [entry|] eqn:Eget;
          [|discriminate].
        apply (Hstep "description" (prop_value q) entry);
          [discriminate|reflexivity|exact Hloop].
      * destruct (dict_get rule_id params) as [entry|] eqn:Eget;
          [|discriminate].
        apply (Hstep "options" (prop_value q) entry);
          [discriminate|reflexivity|exact Hloop].
      * destruct (IH _ _ Hloop) as (Hkeys & Hkeep & Hnames).
        split; [|split].
        -- rewrite Hkeys, (param_rule_ids_cons_other _ _ Eid). reflexivity.
        -- exact Hkeep.
        -- intros p [<-|Hp] Hname; [|apply Hnames; assumption].
           rewrite Hname in Eid. discriminate.
Qed.

Lemma get_params_loop_keys_nodup (props : list Property) :
  forall params result : dict (dict string),
    get_params_loop props params = Returns result ->
    NoDup (dict_keys params) -> NoDup (dict_keys result).
Proof.
  induction props as [|q props IH]; intros params result Hloop Hnd.
  - injection Hloop as <-. exact Hnd.
  - cbn [get_params_loop] in Hloop.
    set (rule_id := string_from_root (prop_remarks q)) in *.
    destruct (String.eqb (prop_name q) "param_id").
    + destruct (dict_mem rule_id params) eqn:Emem; [discriminate|].
      apply (IH _ _ Hloop). rewrite dict_keys_set, Emem.
      apply NoDup_snoc; [exact Hnd|].
      rewrite dict_mem_keys in Emem. intros Hin.
      apply str_in_In in Hin. congruence.
    + assert (Hsame : forall entry entry',
                dict_get rule_id params = Some entry ->
                NoDup (dict_keys (dict_set rule_id entry' params))).
      { intros entry entry' Hget. rewrite dict_keys_set. unfold dict_mem.
        rewrite Hget. exact Hnd. }
      destruct (String.eqb (prop_name q) "param_description");
        [|destruct (String.eqb (prop_name q) "param_options")].
      * destruct (dict_get rule_id params) as [entry|] eqn:Eget;
          [|discriminate].
        apply (IH _ _ Hloop). apply (Hsame entry). reflexivity.
      * destruct (dict_get rule_id params) as [entry|] eqn:Eget;
          [|discriminate].
        apply (IH _ _ Hloop). apply (Hsame entry). reflexivity.
      * apply (IH _ _ Hloop). exact Hnd.
Qed.

(** X6. When [get_params_from_item] returns, the keys of the dictionary are
    the rule ids of the [param_id] properties in their order, no rule id
    occurs twice, and the entry of each [param_id] property holds its value
    as the name. *)
Theorem get_params_returns :
  forall (T : Type) (TP : TypeWithProps T) (item : T)
         (params : dict (dict string)),
    get_params_from_item item = Returns params ->
    dict_keys params = param_rule_ids (as_list (get_props item))
    /\ NoDup (param_rule_ids (as_list (get_props item)))
    /\ (forall p, In p (as_list (get_props item)) ->
                  prop_name p = "param_id" ->
                  exists entry,
                    dict_get (string_from_root (prop_remarks p)) params
                    = Some entry
                    /\ dict_get "name" entry = Some (prop_value p)).
Proof.
  intros T TP item params Hret. unfold get_params_from_item in Hret.
  destruct (get_params_loop_returns _ _ _ Hret) as (Hkeys & _ & Hnames).
  cbn [dict_keys map app] in Hkeys.
  split; [exact Hkeys|]. split; [|exact Hnames].
  rewrite <- Hkeys. apply (get_params_loop_keys_nodup _ _ _ Hret).
  constructor.
Qed.

Lemma get_params_returns_witness :
  NoDup (param_rule_ids
           [mkProperty "param_id" "p1" (Some "r1");
            mkProperty "param_options" "a, b" (Some "r1");
            mkProperty "param_id" "p2" (Some "r2")]).
Proof.
  exact (proj1 (proj2
           (get_params_returns Control Control_TypeWithProps
              (mkControl "ac-1" "Policy"
                 (Some [mkProperty "param_id" "p1" (Some "r1");
                        mkProperty "param_options" "a, b" (Some "r1");
                        mkProperty "param_id" "p2" (Some "r2")])
                 None)
              [("r1", [("name", "p1"); ("options", "a, b")]);
               ("r2", [("name", "p2")])]
              eq_refl))).
Defined.

Lemma get_params_loop_app (pre rest : list Property) :
  forall params : dict (dict string),
    get_params_loop (pre ++ rest) params
    = match get_params_loop pre params with
      | Returns params' => get_params_loop rest params'
      | Raises e => Raises e
      end.
Proof.
  induction pre as [|q pre IH]; intros params; [reflexivity|].
  cbn [app get_params_loop].
  destruct (String.eqb (prop_name q) "param_id").
  - destruct (dict_mem _ params); [reflexivity|apply IH].
  - destruct (String.eqb (prop_name q) "param_description");
      [|destruct (String.eqb (prop_name q) "param_options")].
    + destruct (dict_get _ params); [apply IH|reflexivity].
    + destruct (dict_get _ params); [apply IH|reflexivity].
    + apply IH.
Qed.

(** X7. The first offending property decides the error: when no property
    before it offends, the error is the duplicate message with its value and
    rule id for a [param_id], and the orphan message with its rule id for a
    description or for options. *)
Theorem get_params_first_offence :
  forall (T : Type) (TP : TypeWithProps T) (item : T)
         (pre post : list Property) (prop : Property),
    as_list (get_props item) = pre ++ prop :: post ->
    (forall pre1 q pre2, pre = pre1 ++ q :: pre2 ->
                         offending (param_rule_ids pre1) q = false) ->
    offending (param_rule_ids pre) prop = true ->
    get_params_from_item item = Raises (mkTrestleError (offence_msg prop)).
Proof.
  intros T TP item pre post prop Hprops Hclean Hoff.
  unfold get_params_from_item. rewrite Hprops, get_params_loop_app.
  destruct (get_params_loop pre []) as [params|e] eqn:Epre.
  - destruct (get_params_loop_returns _ _ _ Epre) as (Hkeys & _ & _).
    cbn [dict_keys map app] in Hkeys.
    assert (Hmem : forall k, dict_mem k params
                             = str_in k (param_rule_ids pre)).
    { intros k. rewrite dict_mem_keys, Hkeys. reflexivity. }
    cbn [get_params_loop]. unfold offending in Hoff. unfold offence_msg.
    destruct (String.eqb (prop_name prop) "param_id").
    + rewrite Hmem, Hoff. reflexivity.
    + destruct (String.eqb (prop_name prop) "param_description") eqn:Ed.
      * cbn [orb] in Hoff. apply negb_true_iff in Hoff.
        rewrite <- Hmem in Hoff. unfold dict_mem in Hoff.
        destruct (dict_get _ params); [discriminate|reflexivity].
      * destruct (String.eqb (prop_name prop) "param_options") eqn:Eo;
          [|discriminate].
        cbn [orb] in Hoff. apply negb_true_iff in Hoff.
        rewrite <- Hmem in Hoff. unfold dict_mem in Hoff.
        destruct (dict_get _ params); [discriminate|reflexivity].
  - exfalso.
    assert (Hraised : raised (get_params_loop pre []) = true)
      by (rewrite Epre; reflexivity).
    apply (get_params_loop_raised pre [] []) in Hraised;
      [|intros k; reflexivity].
    destruct Hraised as (pre1 & q & pre2 & Heq & Hq).
    cbn [app] in Hq. rewrite (Hclean _ _ _ Heq) in Hq. discriminate.
Qed.

Lemma get_params_first_offence_witness :
  get_params_from_item
    (mkControl "ac-1" "Policy"
       (Some [mkProperty "param_id" "p1" (Some "r1");
              mkProperty "param_description" "about" (Some "r2");
              mkProperty "param_id" "p2" (Some "r1")])
       None)
  = Raises
      (mkTrestleError "Param description for rule r2 found with no param_id").
Proof.
  refine (get_params_first_offence Control Control_TypeWithProps
            (mkControl "ac-1" "Policy"
               (Some [mkProperty "param_id" "p1" (Some "r1");
                      mkProperty "param_description" "about" (Some "r2");
                      mkProperty "param_id" "p2" (Some "r1")])
               None)
            [mkProperty "param_id" "p1" (Some "r1")]
            [mkProperty "param_id" "p2" (Some "r1")]
            (mkProperty "param_description" "about" (Some "r2"))
            eq_refl _ eq_refl).
  intros pre1 q pre2 Heq.
  destruct pre1 as [|x [|y pre1]]; [|destruct pre2; discriminate|discriminate].
  injection Heq as <- _. reflexivity.
Defined.

(* ===================================================================== *)
(** * Values of set-parameters and dictionaries of parameters *)
(* ===================================================================== *)

Lemma concat_truthy (sep x : string) (xs : list string) :
  x <> EmptyString -> truthy (String.concat sep (x :: xs)) = true.
Proof.
  intros Hx. destruct x as [|c x]; [congruence|].
  destruct xs; reflexivity.
Qed.

Lemma setparam_values_fold (sep_free : list string) (values : list string) :
  Forall (fun s => s <> EmptyString) sep_free ->
  fold_left setparam_values_step values (String.concat ", " sep_free)
  = String.concat ", " (sep_free ++ filter truthy values).
Proof.
  revert sep_free. induction values as [|v values IH]; intros acc Hacc.
  - cbn [fold_left filter]. rewrite app_nil_r. reflexivity.
  - cbn [fold_left filter]. unfold setparam_values_step at 2.
    cbn [string_from_root].
    destruct (truthy v) eqn:Ev; [|apply IH; exact Hacc].
    assert (Hstep :
      ((if truthy (String.concat ", " acc)
        then String.concat ", " acc ++ ", " else String.concat ", " acc)
       ++ v)%string = String.concat ", " (acc ++ [v])).
    { destruct acc as [|a acc]; [reflexivity|].
      inversion Hacc as [|? ? Ha _]; subst.
      rewrite (concat_truthy ", " a acc Ha).
      rewrite (concat_app_nonempty ", " (a :: acc) [v]) by discriminate.
      rewrite string_app_assoc. reflexivity. }
    rewrite Hstep.
    replace (acc ++ v :: filter truthy values)
      with ((acc ++ [v]) ++ filter truthy values)
      by (rewrite <- app_assoc; reflexivity).
    apply IH. apply Forall_app. split; [exact Hacc|].
    constructor; [|constructor]. apply truthy_true_iff. exact Ev.
Qed.

Lemma filter_truthy_all (l : list string) :
  (forall x, In x l -> x <> EmptyString) -> filter truthy l = l.
Proof.
  induction l as [|x l IH]; intros Hall; [reflexivity|].
  cbn [filter].
  assert (Hx : truthy x = true)
    by (apply truthy_true_iff, Hall; left; reflexivity).
  rewrite Hx, IH; [reflexivity|].
  intros y Hy. apply Hall. right; exact Hy.
Qed.

(** X8. The values of a set-parameter are rendered as the non-empty values
    joined by a comma and a space, with no separator in front, behind or
    doubled.  When no value is empty this is what the parameter made of the
    set-parameter renders in mode [VALUE_OR_EMPTY_STRING] without brackets
    and template. *)
Theorem setparam_values_as_str_join :
  forall (set_param : SetParameter),
    _setparam_values_as_str set_param
    = String.concat ", "
        (filter truthy (as_list (set_param_values set_param)))
    /\ (forall (param_id : string) (verbose : bool),
           (forall x, In x (as_list (set_param_values set_param)) ->
                      x <> EmptyString) ->
           param_to_str (setparam_to_param param_id set_param)
                        VALUE_OR_EMPTY_STRING verbose false None
           = Returns (Some (_setparam_values_as_str set_param))).
Proof.
  intros set_param.
  assert (Hjoin : _setparam_values_as_str set_param
                  = String.concat ", "
                      (filter truthy (as_list (set_param_values set_param)))).
  { unfold _setparam_values_as_str.
    exact (setparam_values_fold [] _ (Forall_nil _)). }
  split; [exact Hjoin|].
  intros param_id verbose Hall. rewrite Hjoin, (filter_truthy_all _ Hall).
  unfold param_to_str, _param_values_as_str, _param_values_as_str_list,
    setparam_to_param.
  cbn [param_values].
  destruct (set_param_values set_param) as [[|x l]|]; try reflexivity.
  cbn [list_truthy negb as_list truthy_opt unwrap].
  destruct (truthy (String.concat ", " (x :: l))) eqn:E; [reflexivity|].
  apply truthy_false_iff in E. rewrite E. reflexivity.
Qed.

Lemma setparam_values_as_str_join_witness :
  param_to_str
    (setparam_to_param "ac-1_prm_1"
       (mkSetParameter "ac-1_prm_1" None None (Some ["weekly"; "monthly"])))
    VALUE_OR_EMPTY_STRING false false None
  = Returns (Some "weekly, monthly").
Proof.
  refine (proj2 (setparam_values_as_str_join
                   (mkSetParameter "ac-1_prm_1" None None
                      (Some ["weekly"; "monthly"])))
                "ac-1_prm_1" false _).
  intros x [<-|[<-|[]]]; discriminate.
Defined.

Example setparam_values_skip_empty :
  _setparam_values_as_str
    (mkSetParameter "p" None None (Some [""; "a"; ""; "b"; ""]))
  = "a, b".
Proof. reflexivity. Qed.

Section FoldDict.
Context {A V : Type}.
Variables (key : A -> string) (val : A -> V) (keep : A -> bool).

Lemma fold_dict_set_get (l : list A) (k : string) :
  forall d : dict V,
    dict_get k
      (fold_left (fun d a => if keep a then dict_set (key a) (val a) d else d)
                 l d)
    = match find (fun a => keep a && String.eqb (key a) k) (rev l) with
      | Some a => Some (val a)
      | None => dict_get k d
      end.
Proof.
  induction l as [|a l IH]; intros d; [reflexivity|].
  cbn [fold_left rev]. rewrite IH, find_app. cbn [find].
  destruct (find (fun a0 => keep a0 && String.eqb (key a0) k) (rev l));
    [reflexivity|].
  destruct (keep a); cbn [andb]; [|reflexivity].
  destruct (String.eqb (key a) k) eqn:E.
  - apply String.eqb_eq in E. subst k. apply dict_get_set_same.
  - apply String.eqb_neq in E. apply dict_get_set_other. exact E.
Qed.
End FoldDict.

(** X9. The dictionary of the parameters of a control gives, for an id, the
    last parameter of that id among those that are kept: all of them, or
    those with values when [values_only] is set; an id that no kept
    parameter carries is absent. *)
Theorem get_control_param_dict_lookup :
  forall (params : option (list CommonParameter)) (values_only : bool)
         (id : string),
    dict_get id (get_control_param_dict params values_only)
    = find (fun p => (list_truthy (param_values p) || negb values_only)
                     && String.eqb (param_id p) id)
           (rev (as_list params)).
Proof.
  intros params values_only id. unfold get_control_param_dict.
  rewrite (fold_dict_set_get param_id (fun p => p)
             (fun p => list_truthy (param_values p) || negb values_only)).
  destruct (find _ (rev (as_list params))); reflexivity.
Qed.

(** X10. The dictionary of the values set by a control implementation gives,
    for a parameter id, the rendered values of the last set-parameter of
    that id whose rendering is not empty; it never holds an empty string. *)
Theorem get_param_vals_lookup :
  forall (set_parameters : option (list SetParameter)) (id : string),
    dict_get id (get_param_vals_from_control_imp set_parameters)
    = option_map _setparam_values_as_str
        (find (fun sp => truthy (_setparam_values_as_str sp)
                         && String.eqb (set_param_id sp) id)
              (rev (as_list set_parameters)))
    /\ dict_get id (get_param_vals_from_control_imp set_parameters)
       <> Some EmptyString.
Proof.
  intros set_parameters id.
  assert (Hget : dict_get id (get_param_vals_from_control_imp set_parameters)
                 = option_map _setparam_values_as_str
                     (find (fun sp => truthy (_setparam_values_as_str sp)
                                      && String.eqb (set_param_id sp) id)
                           (rev (as_list set_parameters)))).
  { unfold get_param_vals_from_control_imp.
    rewrite (fold_dict_set_get set_param_id _setparam_values_as_str
               (fun sp => truthy (_setparam_values_as_str sp))).
    destruct (find _ (rev (as_list set_parameters))); reflexivity. }
  split; [exact Hget|]. rewrite Hget.
  destruct (find _ (rev (as_list set_parameters))) as [sp|] eqn:E;
    [|discriminate].
  apply find_some in E. destruct E as [_ E].
  apply andb_true_iff in E. destruct E as [E _].
  cbn [option_map]. intros [= Heq]. rewrite Heq in E. discriminate.
Qed.

Example get_param_vals_sample :
  get_param_vals_from_control_imp
    (Some [mkSetParameter "p1" None None (Some ["a"]);
           mkSetParameter "p2" None None None;
           mkSetParameter "p1" None None (Some ["b"; "c"]);
           mkSetParameter "p1" None None (Some [""])])
  = [("p1", "b, c")].
Proof. reflexivity. Qed.

(* ===================================================================== *)
(** * Looking up what was inserted into a component *)
(* ===================================================================== *)

Section InsertLookup.
Variables IMPLEMENTATION_STATUS STATUS_OTHER : string.

Local Abbreviation insert_reqs :=
  (insert_in_imp_reqs IMPLEMENTATION_STATUS STATUS_OTHER).
Local Abbreviation insert_imps :=
  (insert_in_control_imps IMPLEMENTATION_STATUS STATUS_OTHER).
Local Abbreviation update_req :=
  (update_imp_req IMPLEMENTATION_STATUS STATUS_OTHER).
(** The implemented requirements of a list that are for a control id. *)
Local Abbreviation for_control c :=
  (filter (fun r => String.eqb (imp_req_control_id r) c)).

Lemma insert_in_imp_reqs_lookup (l : list ImplementedRequirement)
  (new_imp_req : ImplementedRequirement) :
  match insert_reqs l new_imp_req with
  | None => for_control (imp_req_control_id new_imp_req) l = []
  | Some l' =>
      (forall c, c <> imp_req_control_id new_imp_req ->
                 for_control c l' = for_control c l)
      /\ exists r rest,
          for_control (imp_req_control_id new_imp_req) l = r :: rest
          /\ for_control (imp_req_control_id new_imp_req) l'
             = update_req r new_imp_req :: rest
  end.
Proof.
  induction l as [|x l IH]; [reflexivity|].
  cbn [insert_in_imp_reqs filter].
  destruct (String.eqb (imp_req_control_id x)
                       (imp_req_control_id new_imp_req)) eqn:E.
  - split.
    + intros c Hc. cbn [filter].
      change (imp_req_control_id (update_req x new_imp_req))
        with (imp_req_control_id x).
      apply String.eqb_eq in E. rewrite E.
      assert (Hne : String.eqb (imp_req_control_id new_imp_req) c = false)
        by (apply String.eqb_neq; congruence).
      rewrite Hne. reflexivity.
    + exists x, (for_control (imp_req_control_id new_imp_req) l).
      split; [reflexivity|]. cbn [filter].
      change (imp_req_control_id (update_req x new_imp_req))
        with (imp_req_control_id x).
      rewrite E. reflexivity.
  - destruct (insert_reqs l new_imp_req) as [l'|]; cbn [option_map].
    + destruct IH as (Hother & r & rest & Hold & Hnew). split.
      * intros c Hc. cbn [filter]. rewrite (Hother c Hc). reflexivity.
      * exists r, rest. cbn [filter]. rewrite E. split; assumption.
    + exact IH.
Qed.

Lemma insert_in_control_imps_lookup (cis : list ControlImplementation)
  (new_imp_req : ImplementedRequirement) :
  let look c :=
    flat_map (fun ci => for_control c (implemented_requirements ci))
  in
  match insert_imps cis new_imp_req with
  | None => look (imp_req_control_id new_imp_req) cis = []
  | Some cis' =>
      (forall c, c <> imp_req_control_id new_imp_req ->
                 look c cis' = look c cis)
      /\ exists r rest,
          look (imp_req_control_id new_imp_req) cis = r :: rest
          /\ look (imp_req_control_id new_imp_req) cis'
             = update_req r new_imp_req :: rest
  end.
Proof.
  intros look. induction cis as [|ci cis IH]; [reflexivity|].
  cbn [insert_in_control_imps as_list].
  pose proof (insert_in_imp_reqs_lookup
                (implemented_requirements ci) new_imp_req) as Hci.
  destruct (insert_reqs (implemented_requirements ci) new_imp_req)
    as [reqs'|].
  - destruct Hci as (Hother & r & rest & Hold & Hnew). split.
    + intros c Hc. unfold look. cbn [flat_map]. f_equal.
      exact (Hother c Hc).
    + exists r, (rest ++ look (imp_req_control_id new_imp_req) cis).
      unfold look. cbn [flat_map].
      cbn [set_implemented_requirements implemented_requirements as_list].
      rewrite Hold, Hnew. split; reflexivity.
  - destruct (insert_imps cis new_imp_req) as [cis'|]; cbn [option_map].
    + destruct IH as (Hother & r & rest & Hold & Hnew). split.
      * intros c Hc. unfold look. cbn [flat_map]. f_equal.
        exact (Hother c Hc).
      * exists r, rest. unfold look in *. cbn [flat_map].
        rewrite Hci. split; assumption.
    + unfold look in *. cbn [flat_map]. rewrite Hci, IH. reflexivity.
Qed.

Lemma as_list_none_if_empty {A : Type} (l : list A) :
  as_list (none_if_empty (Some l)) = l.
Proof. destruct l; reflexivity. Qed.

Lemma merged_statement_id (old new : list Statement) (s : Statement) :
  statement_id (merged_statement IMPLEMENTATION_STATUS STATUS_OTHER old new s)
  = statement_id s.
Proof.
  unfold merged_statement, old_statement.
  destruct (find (fun o => String.eqb (statement_id o) (statement_id s))
                 (rev old)) as [o|] eqn:E; [|reflexivity].
  rewrite fold_update_id. apply find_some in E. destruct E as [_ E].
  apply String.eqb_eq. exact E.
Qed.

End InsertLookup.

(** X11. For a component that has no control implementation the insertion
    raises.  For a component that has one the insertion returns, and then
    the implemented requirements found for any other control id are those
    found before; for the control id of the new record there was none before
    and now the new record alone is found, or there were some and the first
    of them is found updated, the others as they were. *)
Theorem insert_then_get_control_imp_reqs :
  forall (IMPLEMENTATION_STATUS STATUS_OTHER REPLACE_ME fresh_uuid : string)
         (component : DefinedComponent)
         (new_imp_req : ImplementedRequirement),
    (list_truthy (control_implementations component) = false ->
     insert_imp_req_into_component IMPLEMENTATION_STATUS STATUS_OTHER
       REPLACE_ME fresh_uuid component new_imp_req
     = ValidationError "implemented_requirements")
    /\ (list_truthy (control_implementations component) = true ->
        exists component',
          insert_imp_req_into_component IMPLEMENTATION_STATUS STATUS_OTHER
            REPLACE_ME fresh_uuid component new_imp_req
          = Built component'
          /\ (forall c, c <> imp_req_control_id new_imp_req ->
                        get_control_imp_reqs component' c
                        = get_control_imp_reqs component c)
          /\ get_control_imp_reqs component'
               (imp_req_control_id new_imp_req)
             = match get_control_imp_reqs component
                       (imp_req_control_id new_imp_req) with
               | [] => [new_imp_req]
               | r :: rest =>
                   update_imp_req IMPLEMENTATION_STATUS STATUS_OTHER r
                                  new_imp_req
                   :: rest
               end).
Proof.
  intros IMPLEMENTATION_STATUS STATUS_OTHER REPLACE_ME fresh_uuid component
         new_imp_req.
  split.
  - intros Hfalsy. unfold insert_imp_req_into_component.
    destruct (control_implementations component) as [[|first rest]|];
      [reflexivity|discriminate Hfalsy|reflexivity].
  - intros Htruthy.
    unfold get_control_imp_reqs, insert_imp_req_into_component.
    pose proof (insert_in_control_imps_lookup IMPLEMENTATION_STATUS
                  STATUS_OTHER
                  (as_list (control_implementations component)) new_imp_req)
      as Hlook.
    cbv zeta in Hlook.
    destruct (insert_in_control_imps IMPLEMENTATION_STATUS STATUS_OTHER
                (as_list (control_implementations component)) new_imp_req)
      as [cis'|].
    + destruct Hlook as (Hother & r & rest & Hold & Hnew).
      eexists. split; [reflexivity|].
      cbn [control_implementations as_list]. split; [exact Hother|].
      cbn [as_list] in Hold. rewrite Hold, Hnew. reflexivity.
    + assert (Hsnoc : forall c (l : list ImplementedRequirement),
                filter (fun r => String.eqb (imp_req_control_id r) c)
                       (l ++ [new_imp_req])
                = filter (fun r => String.eqb (imp_req_control_id r) c) l
                  ++ (if String.eqb (imp_req_control_id new_imp_req) c
                      then [new_imp_req] else [])).
      { intros c l. rewrite filter_app. reflexivity. }
      assert (Hne : forall c, c <> imp_req_control_id new_imp_req ->
                  String.eqb (imp_req_control_id new_imp_req) c = false)
        by (intros c Hc; apply String.eqb_neq; congruence).
      destruct (control_implementations component) as [[|first rest]|];
        [discriminate Htruthy| |discriminate Htruthy].
      cbn [list_truthy negb as_list control_implementations flat_map
           set_implemented_requirements implemented_requirements] in *.
      apply app_eq_nil in Hlook. destruct Hlook as [Hfirst Hrest].
      eexists. split; [reflexivity|].
      cbn [control_implementations as_list flat_map
           set_implemented_requirements implemented_requirements].
      split.
      * intros c Hc. rewrite Hsnoc, (Hne c Hc), app_nil_r. reflexivity.
      * rewrite Hsnoc, Hfirst, Hrest, String.eqb_refl. reflexivity.
Qed.

Lemma insert_then_get_control_imp_reqs_witness :
  insert_imp_req_into_component "implementation-status" "other"
    "REPLACE_ME" "uuid-0" (mkDefinedComponent "empty" None) sample_new_req
  = ValidationError "implemented_requirements"
  /\ exists component',
      insert_imp_req_into_component "implementation-status" "other"
        "REPLACE_ME" "uuid-0" sample_component sample_new_req
      = Built component'
      /\ get_control_imp_reqs component' "ac-2" = [sample_other_req].
Proof.
  split.
  - exact (proj1 (insert_then_get_control_imp_reqs "implementation-status"
                    "other" "REPLACE_ME" "uuid-0"
                    (mkDefinedComponent "empty" None) sample_new_req)
             eq_refl).
  - destruct (proj2 (insert_then_get_control_imp_reqs
                       "implementation-status" "other" "REPLACE_ME" "uuid-0"
                       sample_component sample_new_req) eq_refl)
      as (component' & Hinsert & Hother & _).
    exists component'. split; [exact Hinsert|].
    rewrite (Hother "ac-2"); [reflexivity|discriminate].
Defined.

(** X12. The statements of an updated record carry the statement ids of the
    new record, in its order and number: an old statement whose id the new
    record does not carry is dropped. *)
Theorem update_imp_req_statement_ids :
  forall (IMPLEMENTATION_STATUS STATUS_OTHER : string)
         (imp_req new_imp_req : ImplementedRequirement),
    map statement_id
        (as_list
           (imp_req_statements
              (update_imp_req IMPLEMENTATION_STATUS STATUS_OTHER imp_req
                              new_imp_req)))
    = map statement_id (as_list (imp_req_statements new_imp_req)).
Proof.
  intros IMPLEMENTATION_STATUS STATUS_OTHER imp_req new_imp_req.
  destruct (update_imp_req_fields IMPLEMENTATION_STATUS STATUS_OTHER
              imp_req new_imp_req) as (_ & _ & _ & _ & _ & Hst).
  rewrite Hst, as_list_none_if_empty, map_map.
  apply map_ext. intros s. apply merged_statement_id.
Qed.

Example update_imp_req_drops_statement :
  map statement_id
      (as_list
         (imp_req_statements
            (update_imp_req "implementation-status" "other" sample_old_req
                            sample_new_req)))
  = ["ac-1_smt.a"; "ac-1_smt.c"].
Proof. reflexivity. Qed.

(* ===================================================================== *)
(** * Prose of a named part: [get_part_prose] *)
(* ===================================================================== *)

Lemma trimmed_app (a b : string) :
  trimmed a -> trimmed b -> trimmed (a ++ b).
Proof.
  intros Ha Hb. destruct b as [|d b'].
  - rewrite string_app_empty_r. exact Ha.
  - destruct a as [|c a']; [exact Hb|].
    unfold trimmed, strip.
    change (String c a' ++ String d b')%string
      with (String c (a' ++ String d b')).
    rewrite (lstrip_keep c _ (trimmed_first _ _ Ha)).
    change (String c (a' ++ String d b'))
      with (String c a' ++ String d b')%string.
    apply rstrip_app_keep; [discriminate|apply trimmed_rstrip; exact Hb].
Qed.

Lemma fold_append_concat {A : Type} (f : A -> string) (l : list A) :
  forall acc : string,
    fold_left (fun prose x => (prose ++ f x)%string) l acc
    = (acc ++ String.concat EmptyString (map f l))%string.
Proof.
  induction l as [|x l IH]; intros acc; cbn [fold_left map].
  - cbn [String.concat]. rewrite string_app_empty_r. reflexivity.
  - rewrite IH, string_app_assoc. f_equal.
    destruct l; [cbn; rewrite string_app_empty_r; reflexivity|reflexivity].
Qed.

Lemma concat_empty_trimmed (l : list string) :
  Forall trimmed l -> trimmed (String.concat EmptyString l).
Proof.
  induction 1 as [|x l Hx _ IH]; [apply trimmed_empty|].
  destruct l as [|y l]; [exact Hx|].
  change (String.concat EmptyString (x :: y :: l))
    with (x ++ String.concat EmptyString (y :: l))%string.
  apply trimmed_app; assumption.
Qed.

(** X13. [get_part_prose] gives the gap-joined prose of each top-level part
    of the control, one after the other with nothing between them; so it is
    the prose that [_get_control_section_prose] gives when at most one
    top-level part contributes, and lacks the newline between them
    otherwise. *)
Theorem get_part_prose_concat :
  forall (control : Control) (name : string),
    get_part_prose control name
    = String.concat EmptyString
        (map (fun part =>
                gap_joined (flat_map (named_prose name) (preorder part)))
             (as_list (control_parts control)))
    /\ (forall pre part post,
           as_list (control_parts control) = pre ++ part :: post ->
           (forall q, In q (pre ++ post) ->
                      _get_control_section_part q name = EmptyString) ->
           get_part_prose control name
           = _get_control_section_prose control name).
Proof.
  intros control name.
  assert (Hparts : forall l : list Part,
            map (fun part => _get_control_section_part part name) l
            = map (fun part =>
                     gap_joined (flat_map (named_prose name) (preorder part)))
                  l).
  { intros l. apply map_ext. intros part. apply section_part_pieces. }
  assert (Hconcat : get_part_prose control name
                    = String.concat EmptyString
                        (map (fun part => _get_control_section_part part name)
                             (as_list (control_parts control)))).
  { unfold get_part_prose. rewrite fold_append_concat. cbn [append].
    apply concat_empty_trimmed. rewrite Hparts.
    apply Forall_forall. intros s Hs. apply in_map_iff in Hs.
    destruct Hs as (part & <- & _). apply gap_joined_trimmed. }
  split; [rewrite Hconcat, Hparts; reflexivity|].
  intros pre part post Heq Hempty.
  assert (Hblank : forall l : list Part,
            (forall q, In q l -> _get_control_section_part q name
                                 = EmptyString) ->
            String.concat EmptyString
              (map (fun part => _get_control_section_part part name) l)
            = EmptyString
            /\ forall acc,
                fold_left
                  (fun prose part =>
                     _gap_join prose (_get_control_section_part part name))
                  l (strip acc) = strip acc).
  { induction l as [|q l IH]; intros Hl; [split; reflexivity|].
    destruct IH as [IH1 IH2]; [intros x Hx; apply Hl; right; exact Hx|].
    assert (Hq : _get_control_section_part q name = EmptyString)
      by (apply Hl; left; reflexivity).
    split.
    - cbn [map]. rewrite Hq.
      destruct l as [|y l]; [reflexivity|].
      change (String.concat EmptyString
                (EmptyString
                 :: map (fun part => _get_control_section_part part name)
                        (y :: l)))
        with (String.concat EmptyString
                (map (fun part => _get_control_section_part part name)
                     (y :: l))).
      exact IH1.
    - intros acc. cbn [fold_left]. rewrite Hq.
      assert (Hgap : _gap_join (strip acc) EmptyString = strip acc)
        by (unfold _gap_join; cbn; apply strip_idem).
      rewrite Hgap. apply IH2. }
  destruct (Hblank pre) as [Hpre1 Hpre2];
    [intros q Hq; apply Hempty, in_or_app; left; exact Hq|].
  destruct (Hblank post) as [Hpost1 Hpost2];
    [intros q Hq; apply Hempty, in_or_app; right; exact Hq|].
  assert (Htrim : strip (_get_control_section_part part name)
                  = _get_control_section_part part name)
    by (rewrite section_part_pieces; apply gap_joined_trimmed).
  assert (Hone : _gap_join EmptyString (_get_control_section_part part name)
                 = _get_control_section_part part name).
  { rewrite gap_join_initial. unfold gap_joined. cbn [map filter].
    rewrite Htrim.
    destruct (_get_control_section_part part name); reflexivity. }
  specialize (Hpre2 EmptyString). change (strip EmptyString)
    with EmptyString in Hpre2.
  specialize (Hpost2 (_get_control_section_part part name)).
  rewrite Htrim in Hpost2.
  rewrite Hconcat. unfold _get_control_section_prose. rewrite Heq.
  rewrite fold_left_app. cbn [fold_left].
  rewrite Hpre2, Hone, Hpost2, map_app. cbn [map].
  assert (Hcat : forall (l1 l2 : list string) (x : string),
            String.concat EmptyString l1 = EmptyString ->
            String.concat EmptyString l2 = EmptyString ->
            String.concat EmptyString (l1 ++ x :: l2) = x).
  { clear. intros l1 l2 x H1 H2.
    assert (Happ : forall a b : list string,
              String.concat EmptyString (a ++ b)
              = (String.concat EmptyString a
                 ++ String.concat EmptyString b)%string).
    { induction a as [|y a IH]; intros b; [reflexivity|].
      destruct a as [|z a].
      - destruct b; [cbn; rewrite string_app_empty_r; reflexivity
                    |reflexivity].
      - change (String.concat EmptyString ((y :: z :: a) ++ b))
          with (y ++ String.concat EmptyString ((z :: a) ++ b))%string.
        rewrite IH.
        change (String.concat EmptyString (y :: z :: a))
          with (y ++ String.concat EmptyString (z :: a))%string.
        rewrite string_app_assoc. reflexivity. }
    rewrite Happ, H1. cbn [append].
    change (x :: l2) with ([x] ++ l2). rewrite Happ, H2.
    cbn [String.concat]. apply string_app_empty_r. }
  apply Hcat; assumption.
Qed.

Lemma get_part_prose_concat_witness :
  get_part_prose
    (mkControl "ac-1" "Policy" None
       (Some [mkPart "ac-1_smt" "statement" None (Some "top") None None;
              mkPart "ac-1_gdn" "guidance" None (Some " first ") None
                (Some [mkPart "ac-1_gdn.a" "guidance" None (Some "second")
                         None None])]))
    "guidance"
  = _get_control_section_prose
      (mkControl "ac-1" "Policy" None
         (Some [mkPart "ac-1_smt" "statement" None (Some "top") None None;
                mkPart "ac-1_gdn" "guidance" None (Some " first ") None
                  (Some [mkPart "ac-1_gdn.a" "guidance" None (Some "second")
                           None None])]))
      "guidance".
Proof.
  refine (proj2 (get_part_prose_concat
                   (mkControl "ac-1" "Policy" None
                      (Some [mkPart "ac-1_smt" "statement" None (Some "top")
                               None None;
                             mkPart "ac-1_gdn" "guidance" None
                               (Some " first ") None
                               (Some [mkPart "ac-1_gdn.a" "guidance" None
                                        (Some "second") None None])]))
                   "guidance")
            [mkPart "ac-1_smt" "statement" None (Some "top") None None]
            (mkPart "ac-1_gdn" "guidance" None (Some " first ") None
               (Some [mkPart "ac-1_gdn.a" "guidance" None (Some "second")
                        None None]))
            [] eq_refl _).
  intros q [<-|[]]. reflexivity.
Defined.

Example get_part_prose_no_gap :
  get_part_prose
    (mkControl "ac-1" "Policy" None
       (Some [mkPart "g1" "guidance" None (Some "first") None None;
              mkPart "g2" "guidance" None (Some "second") None None]))
    "guidance"
  = "firstsecond"
  /\ _get_control_section_prose
       (mkControl "ac-1" "Policy" None
          (Some [mkPart "g1" "guidance" None (Some "first") None None;
                 mkPart "g2" "guidance" None (Some "second") None None]))
       "guidance"
     = ("first" ++ newline ++ "second")%string.
Proof. split; reflexivity. Qed.

(* ===================================================================== *)
(** * Labels made into NCNames: [strip_to_make_ncname] *)
(* ===================================================================== *)

Section NCNameFacts.
Variables first_char_option other_char_option : ascii -> bool.
Variable ncname_regex_search : string -> bool.

Lemma subseq_empty (s : string) : subseq EmptyString s.
Proof. induction s as [|d s IH]; cbn [subseq]; [reflexivity|left; exact IH]. Qed.

Lemma subseq_keep_other (s : string) :
  subseq (keep_other_chars other_char_option s) s.
Proof.
  induction s as [|d s IH]; cbn [keep_other_chars subseq]; [reflexivity|].
  destruct (other_char_option d); [right; split; [reflexivity|exact IH]|].
  left; exact IH.
Qed.

Lemma all_chars_keep_other (s : string) :
  all_chars other_char_option (keep_other_chars other_char_option s) = true.
Proof.
  induction s as [|d s IH]; cbn [keep_other_chars]; [reflexivity|].
  destruct (other_char_option d) eqn:E; [|exact IH].
  cbn [all_chars]. rewrite E, IH. reflexivity.
Qed.

Lemma keep_other_fixed (s : string) :
  all_chars other_char_option s = true ->
  keep_other_chars other_char_option s = s.
Proof.
  induction s as [|d s IH]; cbn [all_chars keep_other_chars]; [reflexivity|].
  intros H. apply andb_true_iff in H. destruct H as [Hd Hs].
  rewrite Hd, (IH Hs). reflexivity.
Qed.

Lemma drop_to_first_char_cases (label : string) :
  (drop_to_first_char first_char_option label = EmptyString
   \/ exists c r, drop_to_first_char first_char_option label = String c r
                  /\ first_char_option c = true)
  /\ forall x, subseq x (drop_to_first_char first_char_option label) ->
               subseq x label.
Proof.
  induction label as [|d label [IH1 IH2]]; cbn [drop_to_first_char].
  - split; [left; reflexivity|auto].
  - destruct (first_char_option d) eqn:E; cbn [negb].
    + split; [right; exists d, label; auto|auto].
    + split; [exact IH1|]. intros x Hx. cbn [subseq]. left. apply IH2, Hx.
Qed.

End NCNameFacts.

(** X14. When [strip_to_make_ncname] returns, the result is the label with
    some characters left out, it passes the NCName test, its first character
    is an allowed first character and every later one an allowed other
    character, and stripping it again gives it back.  When it raises, the
    message quotes the label as it was passed. *)
Theorem strip_to_make_ncname_returns :
  forall (first_char_option other_char_option : ascii -> bool)
         (ncname_regex_search : string -> bool) (label : string),
    let strip_label :=
      strip_to_make_ncname first_char_option other_char_option
                           ncname_regex_search in
    (forall result,
        strip_label label = Returns result ->
        subseq result label
        /\ ncname_regex_search result = true
        /\ match result with
           | EmptyString => True
           | String c r =>
               first_char_option c = true
               /\ all_chars other_char_option r = true
           end
        /\ strip_label result = Returns result)
    /\ (forall e,
           strip_label label = Raises e ->
           e = mkTrestleError (unable_to_convert_msg label)).
Proof.
  intros first_ok other_ok search label strip_label.
  unfold strip_label, strip_to_make_ncname.
  destruct (drop_to_first_char_cases first_ok label) as [Hcases Hsub].
  split.
  - intros result Hret.
    destruct Hcases as [Hempty|(c & r & Hdrop & Hc)].
    + rewrite Hempty in Hret.
      destruct (search EmptyString) eqn:Es; [|discriminate].
      injection Hret as <-. cbn [drop_to_first_char]. rewrite Es.
      repeat split. apply subseq_empty.
    + rewrite Hdrop in Hret.
      destruct (search (String c (keep_other_chars other_ok r))) eqn:Es;
        [|discriminate].
      injection Hret as <-.
      pose proof (all_chars_keep_other other_ok r) as Hall.
      split; [|split; [exact Es|split; [split; assumption|]]].
      * apply Hsub. rewrite Hdrop. cbn [subseq]. right.
        split; [reflexivity|apply subseq_keep_other].
      * cbn [drop_to_first_char]. rewrite Hc. cbn [negb].
        rewrite (keep_other_fixed other_ok _ Hall), Es. reflexivity.
  - intros e Hraise.
    destruct (negb (search _)); [|discriminate].
    injection Hraise as <-. reflexivity.
Qed.

Lemma strip_to_make_ncname_returns_witness :
  strip_to_make_ncname sample_first_char sample_other_char truthy "ac-"
  = Returns "ac-"
  /\ subseq "ac-" "1 ac-1".
Proof.
  destruct (proj1 (strip_to_make_ncname_returns sample_first_char
                     sample_other_char truthy "1 ac-1")
              "ac-" eq_refl) as (Hsub & _ & _ & Hagain).
  split; [exact Hagain|exact Hsub].
Defined.

(* ===================================================================== *)
(** * More on the deep merge *)
(* ===================================================================== *)

Lemma vget_vapp_absent (k : string) (d1 d2 : vdict) :
  vget k (vapp d1 d2)
  = match vget k d1 with Some v => Some v | None => vget k d2 end.
Proof.
  induction d1 as [|k' v' d1 IH]; cbn [vapp vget]; [reflexivity|].
  destruct (String.eqb k' k); [reflexivity|exact IH].
Qed.

Lemma vset_absent (k : string) (v : value) (d : vdict) :
  vget k d = None -> vset k v d = vapp d (DCons k v DNil).
Proof.
  induction d as [|k' v' d IH]; cbn [vget vset vapp]; [reflexivity|].
  destruct (String.eqb k' k); [discriminate|].
  intros Hnone. rewrite (IH Hnone). reflexivity.
Qed.

Lemma vapp_assoc (d1 d2 d3 : vdict) :
  vapp (vapp d1 d2) d3 = vapp d1 (vapp d2 d3).
Proof.
  induction d1 as [|k v d1 IH]; cbn [vapp]; [reflexivity|].
  rewrite IH. reflexivity.
Qed.

(** X15. When [dest] has none of the keys of [src], the merge is [dest]
    followed by the entries of [src] as they are, whatever the flag; merging
    into an empty mapping gives [src]. *)
Theorem merge_dicts_deep_disjoint :
  forall (src dest : vdict) (overwrite : bool),
    NoDup (vkeys src) ->
    (forall k, In k (vkeys src) -> vget k dest = None) ->
    merge_dicts_deep dest src overwrite = vapp dest src
    /\ merge_dicts_deep DNil src overwrite = src.
Proof.
  intros src dest overwrite Hnd Hdisj.
  assert (Hgen : forall src dest,
            NoDup (vkeys src) ->
            (forall k, In k (vkeys src) -> vget k dest = None) ->
            merge_dicts_deep dest src overwrite = vapp dest src).
  { clear. induction src as [|key sv rest IH]; intros dest Hnd Hdisj.
    - cbn [merge_dicts_deep]. clear. induction dest as [|k v d IHd];
        cbn [vapp]; [reflexivity|]. rewrite <- IHd. reflexivity.
    - cbn [vkeys] in Hnd. inversion Hnd as [|? ? Hnot Hrest]; subst.
      cbn [merge_dicts_deep].
      rewrite (Hdisj key (or_introl eq_refl)).
      rewrite (vset_absent key sv dest (Hdisj key (or_introl eq_refl))).
      rewrite IH; [rewrite vapp_assoc; reflexivity|exact Hrest|].
      intros k Hk. rewrite vget_vapp_absent.
      rewrite (Hdisj k (or_intror Hk)). cbn [vget].
      destruct (String.eqb key k) eqn:E; [|reflexivity].
      apply String.eqb_eq in E. subst k. contradiction. }
  split; [apply Hgen; assumption|].
  apply (Hgen src DNil Hnd). intros k _. reflexivity.
Qed.

Lemma merge_dicts_deep_disjoint_witness :
  merge_dicts_deep (DCons "title" (VStr "t") DNil)
                   (DCons "tags" (VList [VStr "a"]) (DCons "n" (VInt 1) DNil))
                   false
  = DCons "title" (VStr "t")
      (DCons "tags" (VList [VStr "a"]) (DCons "n" (VInt 1) DNil)).
Proof.
  refine (proj1 (merge_dicts_deep_disjoint
                   (DCons "tags" (VList [VStr "a"]) (DCons "n" (VInt 1) DNil))
                   (DCons "title" (VStr "t") DNil) false _ _)).
  - repeat constructor; simpl; intuition discriminate.
  - intros k [<-|[<-|[]]]; reflexivity.
Defined.

Section ValueInduction.
Variables (P : value -> Prop) (Q : vdict -> Prop).
Hypothesis HNone : P VNone.
Hypothesis HBool : forall b, P (VBool b).
Hypothesis HInt : forall z, P (VInt z).
Hypothesis HStr : forall s, P (VStr s).
Hypothesis HList : forall l, Forall P l -> P (VList l).
Hypothesis HDict : forall d, Q d -> P (VDict d).
Hypothesis HNil : Q DNil.
Hypothesis HCons : forall k v r, P v -> Q r -> Q (DCons k v r).

Fixpoint value_tree_ind (v : value) : P v :=
  match v with
  | VNone => HNone
  | VBool b => HBool b
  | VInt z => HInt z
  | VStr s => HStr s
  | VList l =>
      HList l
        ((fix go (l : list value) : Forall P l :=
            match l with
            | [] => Forall_nil P
            | x :: r => Forall_cons x (value_tree_ind x) (go r)
            end) l)
  | VDict d => HDict d (vdict_tree_ind d)
  end
with vdict_tree_ind (d : vdict) : Q d :=
  match d with
  | DNil => HNil
  | DCons k v r => HCons k v r (value_tree_ind v) (vdict_tree_ind r)
  end.
End ValueInduction.

Lemma vget_some_key (k : string) (v : value) (d : vdict) :
  vget k d = Some v -> In k (vkeys d).
Proof.
  induction d as [|k' v' d IH]; cbn [vget vkeys]; [discriminate|].
  destruct (String.eqb k' k) eqn:E.
  - apply String.eqb_eq in E. intros _. left; exact E.
  - intros H. right. apply IH, H.
Qed.

Lemma vset_same_value (k : string) (v : value) (d : vdict) :
  vget k d = Some v -> vset k v d = d.
Proof.
  induction d as [|k' v' d IH]; cbn [vget vset]; [discriminate|].
  destruct (String.eqb k' k).
  - intros [= ->]. reflexivity.
  - intros H. rewrite (IH H). reflexivity.
Qed.

Lemma extend_novel_all_in (src_list : list value) :
  forall dest_list : list value,
    (forall x, In x src_list -> py_in x dest_list = true) ->
    extend_novel dest_list src_list = dest_list.
Proof.
  unfold extend_novel.
  induction src_list as [|x r IH]; intros dest_list Hall; [reflexivity|].
  cbn [fold_left]. rewrite (Hall x (or_introl eq_refl)). cbn [negb].
  apply IH. intros y Hy. apply Hall. right; exact Hy.
Qed.

Lemma wf_list_forall (l : list value) :
  wf_value (VList l) -> forall x, In x l -> wf_value x.
Proof.
  induction l as [|y l IH]; intros Hwf x Hx; [destruct Hx|].
  destruct Hwf as [Hy Hl]. destruct Hx as [<-|Hx]; [exact Hy|].
  apply IH; assumption.
Qed.

Lemma self_stable_scalar (v : value) :
  match v with VList _ | VDict _ => False | _ => True end -> self_stable v.
Proof.
  intros Hv _. destruct v; try contradiction; split; try exact I.
  - reflexivity.
  - destruct b; reflexivity.
  - apply Z.eqb_refl.
  - apply String.eqb_refl.
Qed.

Lemma self_stable_list (l : list value) :
  Forall self_stable l -> self_stable (VList l).
Proof.
  intros Hall Hwf.
  assert (Hrefl : forall x, In x l -> py_eq x x = true).
  { intros x Hx. rewrite Forall_forall in Hall.
    apply (Hall x Hx). apply (wf_list_forall l Hwf x Hx). }
  split.
  - cbn [py_eq]. clear Hall Hwf. induction l as [|x l IH]; [reflexivity|].
    rewrite (Hrefl x (or_introl eq_refl)). cbn [andb].
    apply IH. intros y Hy. apply Hrefl. right; exact Hy.
  - apply extend_novel_all_in. intros x Hx. unfold py_in.
    apply existsb_exists. exists x. split; [exact Hx|apply Hrefl, Hx].
Qed.

Lemma self_stable_of_dict (d : vdict) :
  self_stable_dict d -> self_stable (VDict d).
Proof.
  intros Hd Hwf. destruct (Hd Hwf) as [Hle Hmerge]. split.
  - cbn [py_eq]. rewrite Nat.eqb_refl. cbn [andb]. apply Hle. auto.
  - intros overwrite. apply Hmerge. auto.
Qed.

Lemma self_stable_nil : self_stable_dict DNil.
Proof.
  intros _. split; [reflexivity|]. intros dest overwrite _. reflexivity.
Qed.

Lemma self_stable_cons (k : string) (v : value) (r : vdict) :
  self_stable v -> self_stable_dict r -> self_stable_dict (DCons k v r).
Proof.
  intros Hv Hr [Hk [Hwv Hwr]].
  destruct (Hv Hwv) as [Hrefl Hstable].
  destruct (Hr Hwr) as [Hle Hmerge].
  assert (Hsub : forall d2,
            (forall k0 v0, vget k0 (DCons k v r) = Some v0 ->
                           vget k0 d2 = Some v0) ->
            vget k d2 = Some v
            /\ forall k0 v0, vget k0 r = Some v0 -> vget k0 d2 = Some v0).
  { intros d2 Hd2. split.
    - apply Hd2. cbn [vget]. rewrite String.eqb_refl. reflexivity.
    - intros k0 v0 Hget. apply Hd2. cbn [vget].
      destruct (String.eqb k k0) eqn:E; [|exact Hget].
      apply String.eqb_eq in E. subst k0.
      apply vget_some_key in Hget. contradiction. }
  split.
  - intros d2 Hd2. destruct (Hsub d2 Hd2) as [Hhead Htail].
    cbn [py_dict_le]. rewrite Hhead, Hrefl. cbn [andb].
    apply Hle. exact Htail.
  - intros dest overwrite Hdest.
    destruct (Hsub dest Hdest) as [Hhead Htail].
    cbn [merge_dicts_deep]. rewrite Hhead.
    pose proof (vset_same_value k v dest Hhead) as Hset.
    destruct v; try (destruct overwrite; rewrite ?Hset;
                     apply Hmerge; exact Htail).
    + rewrite Hstable, Hset. apply Hmerge. exact Htail.
    + rewrite Hstable, Hset. apply Hmerge. exact Htail.
Qed.

(** X16. Merging a mapping with itself, or with an equal copy, leaves it as
    it is, whatever the flag: no sequence grows and no value changes.  Every
    value built without a repeated key is equal to itself under [py_eq]. *)
Theorem merge_dicts_deep_self :
  forall (d : vdict) (overwrite : bool),
    wf_dict d ->
    merge_dicts_deep d d overwrite = d
    /\ py_eq (VDict d) (VDict d) = true.
Proof.
  intros d overwrite Hwf.
  assert (Hscalar : forall v, match v with
                              | VList _ | VDict _ => False
                              | _ => True
                              end -> self_stable v)
    by exact self_stable_scalar.
  pose proof (vdict_tree_ind self_stable self_stable_dict
                (Hscalar VNone I) (fun b => Hscalar (VBool b) I)
                (fun z => Hscalar (VInt z) I) (fun s => Hscalar (VStr s) I)
                self_stable_list self_stable_of_dict self_stable_nil
                self_stable_cons d) as Hd.
  destruct (self_stable_of_dict d Hd Hwf) as [Hrefl Hmerge].
  split; [apply Hmerge|exact Hrefl].
Qed.

Lemma merge_dicts_deep_self_witness :
  merge_dicts_deep
    (DCons "tags" (VList [VStr "a"; VStr "a"; VInt 1])
       (DCons "x" (VDict (DCons "v" (VInt 1) DNil)) DNil))
    (DCons "tags" (VList [VStr "a"; VStr "a"; VInt 1])
       (DCons "x" (VDict (DCons "v" (VInt 1) DNil)) DNil))
    true
  = DCons "tags" (VList [VStr "a"; VStr "a"; VInt 1])
      (DCons "x" (VDict (DCons "v" (VInt 1) DNil)) DNil).
Proof.
  refine (proj1 (merge_dicts_deep_self _ true _)).
  cbn. intuition discriminate.
Defined.

(* ===================================================================== *)
(** * What the section search returns, whatever the identifiers are *)
(* ===================================================================== *)

Lemma find_section_loop_found (skip : list string) (sub : list Part) :
  Forall (fun sp =>
            _find_section_info sp skip = no_section
            \/ exists q, In q (preorder sp) /\ eligible skip q = true
                         /\ _find_section_info sp skip = info_of q) sub ->
  _find_section_loop sub skip = no_section
  \/ exists q, In q (flat_map preorder sub) /\ eligible skip q = true
               /\ _find_section_loop sub skip = info_of q.
Proof.
  induction 1 as [|sp sub Hsp _ IH]; [left; reflexivity|].
  cbn [_find_section_loop flat_map].
  destruct Hsp as [Hnone|(q & Hq & Helig & Hfound)].
  - rewrite Hnone. unfold no_section at 1. cbn [truthy].
    destruct IH as [IH|(q & Hq & Helig & Hfound)]; [left; exact IH|].
    right. exists q. split; [apply in_or_app; right; exact Hq|].
    split; assumption.
  - rewrite Hfound. unfold info_of. cbv beta iota zeta.
    destruct (truthy (part_id q)) eqn:Eid.
    + right. exists q. split; [apply in_or_app; left; exact Hq|].
      split; [exact Helig|reflexivity].
    + destruct IH as [IH|(q' & Hq' & Helig' & Hfound')]; [left; exact IH|].
      right. exists q'. split; [apply in_or_app; right; exact Hq'|].
      split; assumption.
Qed.

Lemma find_section_info_found (skip : list string) (part : Part) :
  _find_section_info part skip = no_section
  \/ exists q, In q (preorder part) /\ eligible skip q = true
               /\ _find_section_info part skip = info_of q.
Proof.
  induction part as [part IH] using Part_tree_ind.
  rewrite find_section_info_unfold, preorder_unfold.
  destruct (eligible skip part) eqn:E.
  - right. exists part. split; [left; reflexivity|]. split; [exact E|].
    reflexivity.
  - destruct (find_section_loop_found skip _ IH)
      as [Hnone|(q & Hq & Helig & Hfound)]; [left; exact Hnone|].
    right. exists q. split; [right; exact Hq|]. split; assumption.
Qed.

(** X17. Whatever the identifiers of the parts are, a section that the
    search returns with a non-empty id is that of a part of the control
    which has non-empty prose and whose name is not among [skip_names]: a
    name that was skipped is never returned again. *)
Theorem find_section_outside_skip :
  forall (control : Control) (skip_names : list string)
         (id name : string) (title : option string),
    _find_section control skip_names = (id, name, title) ->
    id <> EmptyString ->
    ~ In name skip_names
    /\ exists q, In q (control_preorder control)
                 /\ part_id q = id /\ part_name q = name
                 /\ part_title q = title
                 /\ truthy_opt (part_prose q) = true.
Proof.
  intros control skip id name title Hfind Hid.
  unfold _find_section in Hfind.
  destruct (find_section_loop_found skip (as_list (control_parts control)))
    as [Hnone|(q & Hq & Helig & Hfound)].
  - apply Forall_forall. intros sp _. apply find_section_info_found.
  - rewrite Hnone in Hfind. injection Hfind as <- _ _. congruence.
  - rewrite Hfound in Hfind. injection Hfind as <- <- <-.
    unfold eligible in Helig. apply andb_true_iff in Helig.
    destruct Helig as [Hprose Hskip]. apply negb_true_iff in Hskip.
    split.
    + intros Hin. apply str_in_In in Hin. congruence.
    + exists q. repeat split; assumption.
Qed.

Lemma find_section_outside_skip_witness :
  ~ In "guidance" ["statement"; "item"].
Proof.
  exact (proj1 (find_section_outside_skip sample_control ["statement"; "item"]
                  "ac-1_gdn" "guidance" (Some "Guidance") eq_refl
                  ltac:(discriminate))).
Defined.

(* ===================================================================== *)
(** * A rendered parameter is not blank *)
(* ===================================================================== *)

(** X18. For a parameter with a non-empty id, the label-or-choices text is
    never empty, and the modes [LABEL_OR_CHOICES] and
    [VALUE_OR_LABEL_OR_CHOICES] without a template always return a non-empty
    string. *)
Theorem param_to_str_never_blank :
  forall (param : CommonParameter) (verbose brackets : bool),
    param_id param <> EmptyString ->
    _param_label_choices_as_str param verbose brackets <> EmptyString
    /\ (forall rep,
           rep = LABEL_OR_CHOICES \/ rep = VALUE_OR_LABEL_OR_CHOICES ->
           exists s,
             param_to_str param rep verbose brackets None = Returns (Some s)
             /\ s <> EmptyString).
Proof.
  intros param verbose brackets Hid.
  assert (Htext : _param_label_choices_as_str param verbose brackets
                  <> EmptyString).
  { unfold _param_label_choices_as_str.
    destruct (truthy (_param_selection_as_str param verbose brackets)) eqn:E.
    - cbn [truthy_opt unwrap]. rewrite E. apply truthy_true_iff. exact E.
    - destruct (param_label param) as [l|]; cbn [truthy_opt unwrap];
        [|exact Hid].
      destruct (truthy l) eqn:El; [apply truthy_true_iff; exact El|exact Hid]. }
  split; [exact Htext|].
  intros rep [->| ->]; unfold param_to_str.
  - eexists. split; [reflexivity|exact Htext].
  - eexists. split; [reflexivity|].
    destruct (_param_values_as_str param false) as [s|];
      cbn [truthy_opt unwrap]; [|exact Htext].
    destruct (truthy s) eqn:Es; [apply truthy_true_iff; exact Es|exact Htext].
Qed.

Lemma param_to_str_never_blank_witness :
  _param_label_choices_as_str
    (mkParameter "ac-1_prm_1" (Some "") None None) false false
  <> EmptyString.
Proof.
  apply (proj1 (param_to_str_never_blank
                  (mkParameter "ac-1_prm_1" (Some "") None None)
                  false false ltac:(discriminate))).
Defined.

(* ===================================================================== *)
(** * The label a part gets when it has none *)
(* ===================================================================== *)






(* ===================================================================== *)
(** * Merging twice is merging once *)
(* ===================================================================== *)


Lemma wf_dict_nodup (d : vdict) : wf_dict d -> NoDup (vkeys d).
Proof.
  induction d as [|k v r IH]; cbn [wf_dict vkeys]; [constructor|].
  intros (Hk & _ & Hr). constructor; [exact Hk|apply IH, Hr].
Qed.







(* ===================================================================== *)
(** * The deep merge in the store, when no object is held twice *)
(* ===================================================================== *)

(* ---------- the store ---------- *)

Lemma heap_get_set_same (h : heap) (a : address) (o o' : object) :
  heap_get h a = Some o -> heap_get (heap_set h a o') a = Some o'.
Proof.
  unfold heap_get. revert a. induction h as [|x h IH]; intros [|a] H;
    try discriminate; cbn in *; [reflexivity|]. apply IH, H.
Qed.

Lemma heap_get_set_other (h : heap) (a b : address) (o : object) :
  a <> b -> heap_get (heap_set h a o) b = heap_get h b.
Proof.
  unfold heap_get. revert a b. induction h as [|x h IH]; intros [|a] [|b] H;
    cbn; try reflexivity; try congruence. apply IH. congruence.
Qed.

Lemma same_outside_refl (m : list address) (h : heap) : same_outside m h h.
Proof. intros a _. reflexivity. Qed.

Lemma same_outside_trans (m : list address) (h1 h2 h3 : heap) :
  same_outside m h1 h2 -> same_outside m h2 h3 -> same_outside m h1 h3.
Proof. intros H12 H23 a Ha. rewrite (H23 a Ha). apply H12, Ha. Qed.

Lemma same_outside_more (m m' : list address) (h h' : heap) :
  incl m m' -> same_outside m h h' -> same_outside m' h h'.
Proof. intros Hi H a Ha. apply H. intros Hin. apply Ha, Hi, Hin. Qed.

Lemma same_outside_set (h : heap) (a : address) (o : object) :
  same_outside [a] h (heap_set h a o).
Proof.
  intros b Hb. apply heap_get_set_other. intros ->. apply Hb. left; reflexivity.
Qed.

(* ---------- a layout stays when the store changes elsewhere ---------- *)

Lemma layout_frame (h h' : heap) :
  (forall v hv fp, layout h v hv fp ->
     (forall a, In a fp -> heap_get h' a = heap_get h a) -> layout h' v hv fp)
  /\ (forall l items fp, layout_items h l items fp ->
     (forall a, In a fp -> heap_get h' a = heap_get h a) ->
     layout_items h' l items fp)
  /\ (forall d entries fp, layout_entries h d entries fp ->
     (forall a, In a fp -> heap_get h' a = heap_get h a) ->
     layout_entries h' d entries fp).
Proof.
  apply layout_mutind.
  - intros _. constructor.
  - intros b _. constructor.
  - intros z _. constructor.
  - intros s _. constructor.
  - intros l items a fp Ha _ IH Hsame. apply (layout_List h' l items a fp).
    + rewrite (Hsame a (or_introl eq_refl)). exact Ha.
    + apply IH. intros b Hb. apply Hsame. right; exact Hb.
  - intros d entries a fp Ha _ IH Hsame.
    apply (layout_Dict h' d entries a fp).
    + rewrite (Hsame a (or_introl eq_refl)). exact Ha.
    + apply IH. intros b Hb. apply Hsame. right; exact Hb.
  - intros _. constructor.
  - intros v hv fv l items fp _ IHv _ IHl Hsame. constructor.
    + apply IHv. intros b Hb. apply Hsame, in_or_app. left; exact Hb.
    + apply IHl. intros b Hb. apply Hsame, in_or_app. right; exact Hb.
  - intros _. constructor.
  - intros k v hv fv d entries fp _ IHv _ IHd Hsame. constructor.
    + apply IHv. intros b Hb. apply Hsame, in_or_app. left; exact Hb.
    + apply IHd. intros b Hb. apply Hsame, in_or_app. right; exact Hb.
Qed.

(* ---------- reading a layout ---------- *)

Lemma layout_items_length (h : heap) (l : list value) (items : list hval)
  (fp : list address) :
  layout_items h l items fp -> length items = length l.
Proof. induction 1; cbn; congruence. Qed.

Lemma layout_entries_length (h : heap) (d : vdict) (entries : dict hval)
  (fp : list address) :
  layout_entries h d entries fp -> length entries = length (vkeys d).
Proof. induction 1; cbn; congruence. Qed.

Lemma layout_entries_keys (h : heap) (d : vdict) (entries : dict hval)
  (fp : list address) :
  layout_entries h d entries fp -> dict_keys entries = vkeys d.
Proof. induction 1; cbn; [reflexivity|]. unfold dict_keys in *. congruence. Qed.

Lemma layout_entries_get (h : heap) (d : vdict) (entries : dict hval)
  (fp : list address) (k : string) :
  layout_entries h d entries fp ->
  match vget k d, dict_get k entries with
  | Some v, Some hv => exists fv, layout h v hv fv /\ incl fv fp
  | None, None => True
  | _, _ => False
  end.
Proof.
  induction 1 as [|k' v hv fv d entries fp Hv Hd IH]; cbn [vget dict_get];
    [exact I|].
  destruct (String.eqb k' k).
  - exists fv. split; [exact Hv|]. apply incl_appl, incl_refl.
  - destruct (vget k d), (dict_get k entries); try exact IH.
    destruct IH as (fw & Hw & Hi). exists fw. split; [exact Hw|].
    apply incl_appr, Hi.
Qed.

Lemma same_or_apart (eq : hval -> hval -> option bool) (h : heap)
  (va vb : value) (a b : hval) (fa fb : list address) :
  layout h va a fa -> layout h vb b fb -> apart fa fb ->
  same_or eq a b = eq a b.
Proof.
  intros Ha Hb Hap. unfold same_or.
  destruct a as [| | | |p]; try reflexivity.
  destruct b as [| | | |q]; try reflexivity.
  destruct (Nat.eqb p q) eqn:E; [|reflexivity].
  apply Nat.eqb_eq in E. subst q. exfalso.
  inversion Ha; subst; inversion Hb; subst;
    apply (Hap p); left; reflexivity.
Qed.

(* ---------- equality ---------- *)

Definition eq_refines (vb : value) : Prop :=
  forall (fuel : nat) (h : heap) (va : value) (a b : hval)
         (fa fb : list address),
    layout h va a fa -> layout h vb b fb -> apart fa fb ->
    depth vb <= fuel ->
    py_eq_heap fuel h a b = Some (py_eq va vb).

Lemma py_eq_list_cons (x y : value) (xs ys : list value) :
  py_eq (VList (x :: xs)) (VList (y :: ys))
  = py_eq x y && py_eq (VList xs) (VList ys).
Proof. reflexivity. Qed.

Lemma py_eq_list_length (xs ys : list value) :
  length xs <> length ys -> py_eq (VList xs) (VList ys) = false.
Proof.
  revert ys. induction xs as [|x xs IH]; intros [|y ys] Hlen;
    try reflexivity; cbn [length] in Hlen; try congruence.
  rewrite py_eq_list_cons, IH by congruence. apply andb_false_r.
Qed.

Lemma apart_app_l (l1 l2 m : list address) :
  apart (l1 ++ l2) m -> apart l1 m /\ apart l2 m.
Proof.
  intros H. split; intros a Ha; apply H, in_or_app; [left|right]; exact Ha.
Qed.

Lemma apart_app_r (l m1 m2 : list address) :
  apart l (m1 ++ m2) -> apart l m1 /\ apart l m2.
Proof.
  intros H. split; intros a Ha Hm; apply (H a Ha), in_or_app;
    [left|right]; exact Hm.
Qed.

Lemma apart_sym (l m : list address) : apart l m -> apart m l.
Proof. intros H a Ha Hl. exact (H a Hl Ha). Qed.

Lemma apart_incl (l l' m m' : list address) :
  incl l' l -> incl m' m -> apart l m -> apart l' m'.
Proof. intros Hl Hm H a Ha Hb. exact (H a (Hl a Ha) (Hm a Hb)). Qed.

Lemma apart_cons_l (a : address) (l m : list address) :
  apart (a :: l) m -> ~ In a m /\ apart l m.
Proof.
  intros H. split; [apply H; left; reflexivity|].
  intros b Hb. apply H. right; exact Hb.
Qed.

Lemma all_eq_refines (fuel : nat) (h : heap) :
  forall (xs : list value) (xitems : list hval) (fx : list address),
    layout_items h xs xitems fx ->
    forall (ys : list value) (yitems : list hval) (fy : list address),
      layout_items h ys yitems fy ->
      apart fx fy ->
      Forall (fun y => eq_refines y /\ depth y <= fuel) ys ->
      length xs = length ys ->
      all_eq_with (same_or (py_eq_heap fuel h)) xitems yitems
      = Some (py_eq (VList xs) (VList ys)).
Proof.
  induction 1 as [|x hx fvx xs xitems fx Hx Hxs IH];
    intros ys yitems fy Hys Hap Hall Hlen.
  - destruct ys; [|discriminate]. inversion Hys; subst. reflexivity.
  - destruct Hys as [|y hy fvy ys yitems fy Hy Hys]; [discriminate|].
    apply apart_app_l in Hap. destruct Hap as [Hap1 Hap2].
    apply apart_app_r in Hap1. destruct Hap1 as [Hxy _].
    apply apart_app_r in Hap2. destruct Hap2 as [_ Hrest].
    inversion Hall as [|? ? [Hrefy Hdy] Hall']; subst.
    cbn [all_eq_with].
    rewrite (same_or_apart _ h x y hx hy fvx fvy Hx Hy Hxy).
    rewrite (Hrefy fuel h x hx hy fvx fvy Hx Hy Hxy Hdy).
    rewrite py_eq_list_cons.
    destruct (py_eq x y); [|reflexivity]. cbn [andb].
    apply (IH ys yitems fy Hys Hrest Hall'). cbn [length] in Hlen. congruence.
Qed.

Lemma dict_le_refines (fuel : nat) (h : heap) (d2 : vdict)
  (e2 : dict hval) (f2 : list address) :
  layout_entries h d2 e2 f2 ->
  (forall k w, vget k d2 = Some w -> eq_refines w /\ depth w <= fuel) ->
  forall (d1 : vdict) (e1 : dict hval) (f1 : list address),
    layout_entries h d1 e1 f1 ->
    apart f1 f2 ->
    dict_le_with (same_or (py_eq_heap fuel h)) e1 e2
    = Some (py_dict_le d1 d2).
Proof.
  intros H2 Hall. induction 1 as [|k v hv fv d1 e1 f1 Hv Hd1 IH]; intros Hap;
    [reflexivity|].
  apply apart_app_l in Hap. destruct Hap as [Hapv Hap1].
  cbn [dict_le_with py_dict_le].
  pose proof (layout_entries_get h d2 e2 f2 k H2) as Hget.
  destruct (vget k d2) as [w|] eqn:Ew, (dict_get k e2) as [hw|];
    try contradiction; [|reflexivity].
  destruct Hget as (fw & Hw & Hi).
  assert (Hvw : apart fv fw) by (apply (apart_incl fv fv f2 fw);
    [apply incl_refl|exact Hi|exact Hapv]).
  destruct (Hall k w Ew) as [Hrefw Hdw].
  rewrite (same_or_apart _ h v w hv hw fv fw Hv Hw Hvw).
  rewrite (Hrefw fuel h v hv hw fv fw Hv Hw Hvw Hdw).
  destruct (py_eq v w); [|reflexivity]. cbn [andb]. apply IH, Hap1.
Qed.

Lemma py_eq_refines (vb : value) : eq_refines vb.
Proof.
  apply (value_tree_ind eq_refines
           (fun d2 => forall k w, vget k d2 = Some w -> eq_refines w)).
  - intros fuel h va a b fa fb Ha Hb _ _.
    inversion Hb; subst. inversion Ha; subst; destruct fuel; reflexivity.
  - intros y fuel h va a b fa fb Ha Hb _ _.
    inversion Hb; subst. inversion Ha; subst; destruct fuel; reflexivity.
  - intros y fuel h va a b fa fb Ha Hb _ _.
    inversion Hb; subst. inversion Ha; subst; destruct fuel; reflexivity.
  - intros y fuel h va a b fa fb Ha Hb _ _.
    inversion Hb; subst. inversion Ha; subst; destruct fuel; reflexivity.
  - intros ys Hall fuel h va a b fa fb Ha Hb Hap Hd.
    inversion Hb as [| | | |? yitems q fy Hq Hys|]; subst.
    inversion Ha as [| | | |xs xitems p fx Hp Hxs|d1 e1 p f1 Hp Hd1]; subst;
      try (destruct fuel; reflexivity).
    + destruct fuel as [|fuel]; [cbn [depth] in Hd; lia|].
      cbn [py_eq_heap]. rewrite Hp, Hq.
      rewrite (layout_items_length _ _ _ _ Hxs),
              (layout_items_length _ _ _ _ Hys).
      destruct (Nat.eqb (length xs) (length ys)) eqn:E.
      * apply Nat.eqb_eq in E.
        apply apart_cons_l in Hap. destruct Hap as [_ Hap].
        apply (all_eq_refines fuel h xs xitems fx Hxs ys yitems fy Hys);
          [intros x Hx Hy; apply (Hap x Hx); right; exact Hy| |exact E].
        clear - Hall Hd. cbn [depth] in Hd. apply le_S_n in Hd.
        induction Hall as [|y ys Hy Hall IH]; constructor.
        -- split; [exact Hy|]. lia.
        -- apply IH. lia.
      * apply Nat.eqb_neq in E. rewrite (py_eq_list_length _ _ E).
        reflexivity.
    + destruct fuel as [|fuel]; [cbn [depth] in Hd; lia|].
      cbn [py_eq_heap]. rewrite Hp, Hq. reflexivity.
  - intros d2 Hall fuel h va a b fa fb Ha Hb Hap Hd.
    inversion Hb as [| | | | |? e2 q f2 Hq Hd2]; subst.
    inversion Ha as [| | | |xs xitems p fx Hp Hxs|d1 e1 p f1 Hp Hd1]; subst;
      try (destruct fuel; reflexivity).
    + destruct fuel as [|fuel]; [cbn [depth] in Hd; lia|].
      cbn [py_eq_heap]. rewrite Hp, Hq. reflexivity.
    + destruct fuel as [|fuel]; [cbn [depth] in Hd; lia|].
      cbn [py_eq_heap py_eq]. rewrite Hp, Hq.
      rewrite (layout_entries_length _ _ _ _ Hd1),
              (layout_entries_length _ _ _ _ Hd2).
      destruct (Nat.eqb (length (vkeys d1)) (length (vkeys d2)));
        [|reflexivity].
      cbn [andb].
      apply apart_cons_l in Hap. destruct Hap as [_ Hap].
      apply (dict_le_refines fuel h d2 e2 f2 Hd2) with (f1 := f1);
        [|exact Hd1|].
      * intros k w Hw. split; [exact (Hall k w Hw)|].
        cbn [depth] in Hd. apply le_S_n in Hd.
        clear - Hw Hd. induction d2 as [|k' v' d2 IH]; [discriminate|].
        cbn [vget depth_dict] in *.
        destruct (String.eqb k' k); [injection Hw as <-; lia|].
        apply IH; [lia|exact Hw].
      * intros x Hx Hy. apply (Hap x Hx). right; exact Hy.
  - intros k w Hw. discriminate.
  - intros k v r Hv Hr k' w Hw. cbn [vget] in Hw.
    destruct (String.eqb k k'); [injection Hw as <-; exact Hv|].
    exact (Hr k' w Hw).
Qed.

(* ---------- lists without repetition ---------- *)

Lemma nodup_app (l1 l2 : list address) :
  NoDup (l1 ++ l2) <-> NoDup l1 /\ NoDup l2 /\ apart l1 l2.
Proof.
  induction l1 as [|a l1 IH]; cbn [app].
  - split.
    + intros H. repeat split; [constructor|exact H|intros a []].
    + intros (_ & H & _). exact H.
  - split.
    + intros H. inversion H as [|? ? Hnin Hnd]; subst.
      apply IH in Hnd. destruct Hnd as (H1 & H2 & Hap).
      repeat split.
      * constructor; [|exact H1]. intros Hin. apply Hnin, in_or_app.
        left; exact Hin.
      * exact H2.
      * intros b [<-|Hb] Hb2; [apply Hnin, in_or_app; right; exact Hb2|].
        exact (Hap b Hb Hb2).
    + intros (H1 & H2 & Hap). inversion H1 as [|? ? Hnin Hnd]; subst.
      constructor.
      * intros Hin. apply in_app_or in Hin. destruct Hin as [Hin|Hin];
          [exact (Hnin Hin)|]. apply (Hap a); [left; reflexivity|exact Hin].
      * apply IH. repeat split; [exact Hnd|exact H2|].
        intros b Hb. apply Hap. right; exact Hb.
Qed.

Lemma layout_items_app (h : heap) (l1 : list value) (i1 : list hval)
  (f1 : list address) :
  layout_items h l1 i1 f1 ->
  forall (l2 : list value) (i2 : list hval) (f2 : list address),
    layout_items h l2 i2 f2 ->
    layout_items h (l1 ++ l2) (i1 ++ i2) (f1 ++ f2).
Proof.
  induction 1 as [|v hv fv l items fp Hv Hl IH]; intros l2 i2 f2 H2;
    [exact H2|].
  cbn [app]. rewrite <- app_assoc. constructor; [exact Hv|].
  apply IH, H2.
Qed.

Lemma layout_frame_value (h h' : heap) (m : list address) (v : value)
  (hv : hval) (fp : list address) :
  same_outside m h h' -> apart fp m -> layout h v hv fp -> layout h' v hv fp.
Proof.
  intros Hs Hap Hl. apply (proj1 (layout_frame h h') v hv fp Hl).
  intros a Ha. apply Hs. exact (Hap a Ha).
Qed.

Lemma layout_frame_items (h h' : heap) (m : list address) (l : list value)
  (items : list hval) (fp : list address) :
  same_outside m h h' -> apart fp m -> layout_items h l items fp ->
  layout_items h' l items fp.
Proof.
  intros Hs Hap Hl. apply (proj1 (proj2 (layout_frame h h')) l items fp Hl).
  intros a Ha. apply Hs. exact (Hap a Ha).
Qed.

Lemma layout_frame_entries (h h' : heap) (m : list address) (d : vdict)
  (entries : dict hval) (fp : list address) :
  same_outside m h h' -> apart fp m -> layout_entries h d entries fp ->
  layout_entries h' d entries fp.
Proof.
  intros Hs Hap Hl. apply (proj2 (proj2 (layout_frame h h')) d entries fp Hl).
  intros a Ha. apply Hs. exact (Hap a Ha).
Qed.

Lemma apart_single (a : address) (fp : list address) :
  ~ In a fp -> apart fp [a].
Proof. intros H b Hb [<-|[]]. exact (H Hb). Qed.

(* ---------- membership and the extension of a sequence ---------- *)

Lemma py_in_refines (fuel : nat) (h : heap) (vitem : value) (item : hval)
  (fi : list address) :
  layout h vitem item fi -> depth vitem <= fuel ->
  forall (l : list value) (items : list hval) (fl : list address),
    layout_items h l items fl -> apart fl fi ->
    py_in_heap fuel h item items = Some (py_in vitem l).
Proof.
  intros Hi Hd. induction 1 as [|x hx fx l items fl Hx Hl IH]; intros Hap;
    [reflexivity|].
  apply apart_app_l in Hap. destruct Hap as [Hapx Hapl].
  cbn [py_in_heap]. unfold same_or_eq_heap, py_in. cbn [existsb].
  rewrite (same_or_apart _ h x vitem hx item fx fi Hx Hi Hapx).
  rewrite (py_eq_refines vitem fuel h x hx item fx fi Hx Hi Hapx Hd).
  destruct (py_eq x vitem); [reflexivity|]. cbn [orb].
  apply IH, Hapl.
Qed.

Lemma extend_novel_cons (dl : list value) (x : value) (r : list value) :
  extend_novel dl (x :: r)
  = extend_novel (if negb (py_in x dl) then dl ++ [x] else dl) r.
Proof. reflexivity. Qed.

Lemma extend_refines (fuel : nat) (dest_list : address) :
  forall (sl : list value) (h : heap) (sitems : list hval)
         (fs : list address) (dl : list value) (ditems : list hval)
         (fd : list address),
    layout_items h sl sitems fs ->
    NoDup fs -> ~ In dest_list fs ->
    heap_get h dest_list = Some (OList ditems) ->
    layout_items h dl ditems fd ->
    ~ In dest_list fd -> apart fd fs ->
    Forall (fun v => depth v <= fuel) sl ->
    exists (h' : heap) (ditems' : list hval) (fd' : list address),
      extend_heap fuel h dest_list sitems = Done h'
      /\ heap_get h' dest_list = Some (OList ditems')
      /\ layout_items h' (extend_novel dl sl) ditems' fd'
      /\ incl fd' (fd ++ fs)
      /\ same_outside [dest_list] h h'.
Proof.
  induction sl as [|x sl IH];
    intros h sitems fs dl ditems fd Hs Hnd Hns Hget Hd Hnd' Hap Hdepth.
  - inversion Hs; subst. exists h, ditems, fd.
    split; [reflexivity|]. split; [exact Hget|]. split; [exact Hd|].
    split; [apply incl_appl, incl_refl|apply same_outside_refl].
  - inversion Hs as [|? hx fx ? sitems' fs' Hx Hs']; subst.
    apply nodup_app in Hnd. destruct Hnd as (Hndx & Hnds & Hxs).
    inversion Hdepth as [|? ? Hdx Hdepth']; subst.
    apply apart_app_r in Hap. destruct Hap as [Hapx Haps].
    cbn [extend_heap]. rewrite Hget.
    rewrite (py_in_refines fuel h x hx fx Hx Hdx dl ditems fd Hd Hapx).
    rewrite extend_novel_cons.
    assert (Hnsx : ~ In dest_list fx)
      by (intros Hin; apply Hns, in_or_app; left; exact Hin).
    assert (Hnss : ~ In dest_list fs')
      by (intros Hin; apply Hns, in_or_app; right; exact Hin).
    destruct (py_in x dl); cbn [negb].
    + destruct (IH h sitems' fs' dl ditems fd Hs' Hnds Hnss Hget Hd Hnd'
                  Haps Hdepth')
        as (h' & ditems' & fd' & Hrun & Hget' & Hl' & Hincl & Hsame).
      exists h', ditems', fd'.
      split; [exact Hrun|]. split; [exact Hget'|]. split; [exact Hl'|].
      split; [|exact Hsame].
      intros a Ha. apply Hincl in Ha. apply in_app_or in Ha.
      apply in_or_app. destruct Ha as [Ha|Ha]; [left; exact Ha|].
      right. apply in_or_app. right; exact Ha.
    + set (h1 := heap_set h dest_list (OList (ditems ++ [hx]))).
      assert (Hs1 : same_outside [dest_list] h h1)
        by apply same_outside_set.
      assert (Hget1 : heap_get h1 dest_list = Some (OList (ditems ++ [hx])))
        by (apply (heap_get_set_same h dest_list _ _ Hget)).
      assert (Hd1 : layout_items h1 (dl ++ [x]) (ditems ++ [hx])
                                 (fd ++ fx ++ [])).
      { apply layout_items_app.
        - apply (layout_frame_items h h1 [dest_list]); try assumption.
          apply apart_single, Hnd'.
        - constructor; [|constructor].
          apply (layout_frame_value h h1 [dest_list]); try assumption.
          apply apart_single, Hnsx. }
      rewrite app_nil_r in Hd1.
      assert (Hs1' : layout_items h1 sl sitems' fs').
      { apply (layout_frame_items h h1 [dest_list]); try assumption.
        apply apart_single, Hnss. }
      destruct (IH h1 sitems' fs' (dl ++ [x]) (ditems ++ [hx]) (fd ++ fx)
                  Hs1' Hnds Hnss Hget1 Hd1)
        as (h' & ditems' & fd' & Hrun & Hget' & Hl' & Hincl & Hsame).
      * intros Hin. apply in_app_or in Hin. destruct Hin; contradiction.
      * intros a Ha. apply in_app_or in Ha. destruct Ha as [Ha|Ha];
          [exact (Haps a Ha)|exact (Hxs a Ha)].
      * exact Hdepth'.
      * exists h', ditems', fd'.
        split; [exact Hrun|]. split; [exact Hget'|]. split; [exact Hl'|].
        split.
        -- intros a Ha. apply Hincl in Ha. rewrite <- app_assoc in Ha.
           exact Ha.
        -- apply (same_outside_trans _ h h1 h'); assumption.
Qed.

(* ---------- the entries of [dest] while the keys of [src] are gone
   through ---------- *)

Lemma dest_entries_keys (h : heap) (pend : list string) (d : vdict)
  (entries : dict hval) (fp fo : list address) :
  dest_entries h pend d entries fp fo -> dict_keys entries = vkeys d.
Proof.
  induction 1; cbn; [reflexivity| |]; unfold dict_keys in *; congruence.
Qed.

Lemma dest_entries_absent (h : heap) (pend : list string) (d : vdict)
  (entries : dict hval) (fp fo : list address) (k : string) :
  dest_entries h pend d entries fp fo ->
  dict_get k entries = None -> vget k d = None.
Proof.
  induction 1 as [|k' v hv fv d entries fp fo _ _ _ _ IH
                  |k' v hv fv d entries fp fo _ _ _ IH];
    cbn [dict_get vget]; [reflexivity| |];
    destruct (String.eqb k' k); try discriminate; exact IH.
Qed.

Lemma dest_entries_finish (h : heap) (d : vdict) (entries : dict hval)
  (fp fo : list address) :
  dest_entries h [] d entries fp fo ->
  fp = [] /\ layout_entries h d entries fo.
Proof.
  induction 1 as [|k v hv fv d entries fp fo Hin _ _ _ _
                  |k v hv fv d entries fp fo _ Hv _ [IH1 IH2]].
  - split; constructor.
  - destruct Hin.
  - split; [exact IH1|]. constructor; assumption.
Qed.

Lemma dest_entries_start (h : heap) (pend : list string) :
  forall (d : vdict) (entries : dict hval) (fd : list address),
    layout_entries h d entries fd -> wf_dict d -> NoDup fd ->
    exists fp fo : list address,
      dest_entries h pend d entries fp fo
      /\ NoDup fp /\ apart fp fo /\ incl fp fd /\ incl fo fd.
Proof.
  induction 1 as [|k v hv fv d entries fd Hv Hd IH]; intros Hwf Hnd.
  - exists [], []. repeat split; try constructor; intros a [].
  - cbn [wf_dict] in Hwf. destruct Hwf as (_ & Hwv & Hwd).
    apply nodup_app in Hnd. destruct Hnd as (Hndv & Hndd & Hap).
    destruct (IH Hwd Hndd) as (fp & fo & He & Hndp & Hpo & Hip & Hio).
    destruct (in_dec string_dec k pend) as [Hin|Hnin].
    + exists (fv ++ fp), fo. split; [constructor; assumption|].
      split; [|split; [|split]].
      * apply nodup_app. repeat split; try assumption.
        intros a Ha Hp. exact (Hap a Ha (Hip a Hp)).
      * intros a Ha Ho. apply in_app_or in Ha. destruct Ha as [Ha|Ha].
        -- exact (Hap a Ha (Hio a Ho)).
        -- exact (Hpo a Ha Ho).
      * apply incl_app; [apply incl_appl, incl_refl|apply incl_appr, Hip].
      * apply incl_appr, Hio.
    + exists fp, (fv ++ fo). split; [constructor; assumption|].
      split; [exact Hndp|]. split; [|split].
      * intros a Ha Ho. apply in_app_or in Ho. destruct Ho as [Ho|Ho].
        -- exact (Hap a Ho (Hip a Ha)).
        -- exact (Hpo a Ha Ho).
      * apply incl_appr, Hip.
      * apply incl_app; [apply incl_appl, incl_refl|apply incl_appr, Hio].
Qed.

(** The entries of another key are left as they are, in a store that is
    the same where they lie. *)
Lemma dest_entries_retag (h h' : heap) (k : string) (pend : list string)
  (m : list address) :
  same_outside m h h' ->
  forall (d : vdict) (entries : dict hval) (fp fo : list address),
    dest_entries h (k :: pend) d entries fp fo ->
    ~ In k (dict_keys entries) ->
    apart fp m -> apart fo m ->
    dest_entries h' pend d entries fp fo.
Proof.
  intros Hs. induction 1 as [|k' v hv fv d entries fp fo Hin Hwf Hv Hd IH
                             |k' v hv fv d entries fp fo Hnin Hv Hd IH];
    intros Hk Hfp Hfo.
  - constructor.
  - cbn in Hk. apply apart_app_l in Hfp. destruct Hfp as [Hfv Hfp].
    constructor.
    + destruct Hin as [->|Hin]; [|exact Hin]. exfalso. apply Hk.
      left; reflexivity.
    + exact Hwf.
    + exact (layout_frame_value h h' m v hv fv Hs Hfv Hv).
    + apply IH; try assumption. intros Hin'. apply Hk. right; exact Hin'.
  - cbn in Hk. apply apart_app_l in Hfo. destruct Hfo as [Hfv Hfo].
    constructor.
    + intros Hin. apply Hnin. right; exact Hin.
    + exact (layout_frame_value h h' m v hv fv Hs Hfv Hv).
    + apply IH; try assumption. intros Hin'. apply Hk. right; exact Hin'.
Qed.

(** A key that [dest] has not: the new entry goes last. *)
Lemma dest_entries_append (h h' : heap) (k : string) (pend : list string)
  (m : list address) (v' : value) (hv' : hval) (fv' : list address) :
  same_outside m h h' -> ~ In k pend -> layout h' v' hv' fv' ->
  forall (d : vdict) (entries : dict hval) (fp fo : list address),
    dest_entries h (k :: pend) d entries fp fo ->
    dict_get k entries = None ->
    apart fp m -> apart fo m ->
    dest_entries h' pend (vset k v' d) (dict_set k hv' entries) fp
                 (fo ++ fv').
Proof.
  intros Hs Hk Hv'.
  induction 1 as [|k' v hv fv d entries fp fo Hin Hwf Hv Hd IH
                  |k' v hv fv d entries fp fo Hnin Hv Hd IH];
    intros Hget Hfp Hfo.
  - cbn [vset dict_set app].
    rewrite <- (app_nil_r fv'). constructor; [exact Hk|exact Hv'|constructor].
  - cbn [dict_get] in Hget. cbn [vset dict_set].
    destruct (String.eqb k' k) eqn:E; [discriminate|].
    apply String.eqb_neq in E.
    apply apart_app_l in Hfp. destruct Hfp as [Hfv Hfp].
    constructor.
    + destruct Hin as [->|Hin]; [congruence|exact Hin].
    + exact Hwf.
    + exact (layout_frame_value h h' m v hv fv Hs Hfv Hv).
    + apply IH; assumption.
  - cbn [dict_get] in Hget. cbn [vset dict_set].
    destruct (String.eqb k' k) eqn:E; [discriminate|].
    apply apart_app_l in Hfo. destruct Hfo as [Hfv Hfo].
    rewrite <- app_assoc. constructor.
    + intros Hin. apply Hnin. right; exact Hin.
    + exact (layout_frame_value h h' m v hv fv Hs Hfv Hv).
    + apply IH; assumption.
Qed.

(** A key that [dest] has: its entry is pending; whatever the step makes of
    it, within its own objects and those of [src], it is settled
    afterwards, and the other entries are as they were. *)
Lemma dest_entries_step (h : heap) (k : string) (pend : list string)
  (pd : address) :
  ~ In k pend ->
  forall (d : vdict) (entries : dict hval) (fp fo : list address),
    dest_entries h (k :: pend) d entries fp fo ->
    NoDup (dict_keys entries) ->
    NoDup fp -> apart fp fo -> ~ In pd fp -> ~ In pd fo ->
    forall hv : hval,
      dict_get k entries = Some hv ->
      exists (v : value) (fv : list address),
        vget k d = Some v /\ wf_value v /\ layout h v hv fv
        /\ NoDup fv /\ incl fv fp
        /\ forall (h' : heap) (v' : value) (hv' : hval)
                  (fv' : list address),
             same_outside (pd :: fv) h h' ->
             layout h' v' hv' fv' ->
             exists fp' fo' : list address,
               dest_entries h' pend (vset k v' d) (dict_set k hv' entries)
                            fp' fo'
               /\ NoDup fp' /\ incl fp' fp /\ apart fp' fv
               /\ (forall a, In a fo' -> In a fo \/ In a fv').
Proof.
  intros Hk.
  induction 1 as [|k' v hv0 fv d entries fp fo Hin Hwf Hv Hd IH
                  |k' v hv0 fv d entries fp fo Hnin Hv Hd IH];
    intros Hkeys Hnd Hpo Hpp Hpf hv Hget.
  - discriminate.
  - cbn [dict_get] in Hget. cbn [dict_keys map fst] in Hkeys.
    inversion Hkeys as [|? ? Hk' Hkeys']; subst.
    apply nodup_app in Hnd. destruct Hnd as (Hndv & Hndp & Hvp).
    apply apart_app_l in Hpo. destruct Hpo as [Hvo Hpo].
    cbn [vget vset dict_set].
    destruct (String.eqb k' k) eqn:E.
    + apply String.eqb_eq in E. subst k'. injection Hget as <-.
      exists v, fv. split; [reflexivity|]. split; [exact Hwf|].
      split; [exact Hv|]. split; [exact Hndv|].
      split; [apply incl_appl, incl_refl|].
      intros h' v' hv' fv' Hs Hv'.
      exists fp, (fv' ++ fo). split; [|split; [|split; [|split]]].
      * constructor; [exact Hk|exact Hv'|].
        apply (dest_entries_retag h h' k pend (pd :: fv) Hs); try assumption.
        -- intros a Ha [<-|Hf].
           ++ apply Hpp, in_or_app. right; exact Ha.
           ++ exact (Hvp a Hf Ha).
        -- intros a Ha [<-|Hf]; [exact (Hpf Ha)|exact (Hvo a Hf Ha)].
      * exact Hndp.
      * apply incl_appr, incl_refl.
      * intros a Ha Hf. exact (Hvp a Hf Ha).
      * intros a Ha. apply in_app_or in Ha. destruct Ha; [right|left];
          assumption.
    + apply String.eqb_neq in E.
      assert (Hpp' : ~ In pd fp)
        by (intros Hx; apply Hpp, in_or_app; right; exact Hx).
      destruct (IH Hkeys' Hndp Hpo Hpp' Hpf hv Hget)
        as (w & fw & Hw & Hwfw & Hlw & Hndw & Hiw & Hcont).
      exists w, fw. split; [exact Hw|]. split; [exact Hwfw|].
      split; [exact Hlw|]. split; [exact Hndw|].
      split; [apply incl_appr, Hiw|].
      intros h' v' hv' fv' Hs Hv'.
      destruct (Hcont h' v' hv' fv' Hs Hv')
        as (fp' & fo' & He & Hnd' & Hi' & Hap' & Hfo').
      exists (fv ++ fp'), fo'. split; [|split; [|split; [|split]]].
      * constructor; try assumption.
        -- destruct Hin as [->|Hin]; [congruence|exact Hin].
        -- apply (layout_frame_value h h' (pd :: fw) v hv0 fv Hs); [|exact Hv].
           intros a Ha [<-|Hf].
           ++ apply Hpp, in_or_app. left; exact Ha.
           ++ exact (Hvp a Ha (Hiw a Hf)).
      * apply nodup_app. repeat split; try assumption.
        intros a Ha Hp. exact (Hvp a Ha (Hi' a Hp)).
      * apply incl_app; [apply incl_appl, incl_refl|apply incl_appr, Hi'].
      * intros a Ha Hf. apply in_app_or in Ha. destruct Ha as [Ha|Ha].
        -- exact (Hvp a Ha (Hiw a Hf)).
        -- exact (Hap' a Ha Hf).
      * exact Hfo'.
  - cbn [dict_get] in Hget. cbn [dict_keys map fst] in Hkeys.
    inversion Hkeys as [|? ? Hk' Hkeys']; subst.
    apply apart_app_r in Hpo. destruct Hpo as [Hpv Hpo].
    cbn [vget vset dict_set].
    destruct (String.eqb k' k) eqn:E.
    + apply String.eqb_eq in E. subst k'. exfalso. apply Hnin.
      left; reflexivity.
    + assert (Hpf' : ~ In pd fo)
        by (intros Hx; apply Hpf, in_or_app; right; exact Hx).
      destruct (IH Hkeys' Hnd Hpo Hpp Hpf' hv Hget)
        as (w & fw & Hw & Hwfw & Hlw & Hndw & Hiw & Hcont).
      exists w, fw. split; [exact Hw|]. split; [exact Hwfw|].
      split; [exact Hlw|]. split; [exact Hndw|].
      split; [exact Hiw|].
      intros h' v' hv' fv' Hs Hv'.
      destruct (Hcont h' v' hv' fv' Hs Hv')
        as (fp' & fo' & He & Hnd' & Hi' & Hap' & Hfo').
      exists fp', (fv ++ fo'). split; [|split; [|split; [|split]]].
      * constructor; try assumption.
        -- intros Hin. apply Hnin. right; exact Hin.
        -- apply (layout_frame_value h h' (pd :: fw) v hv0 fv Hs); [|exact Hv].
           intros a Ha [<-|Hf].
           ++ apply Hpf, in_or_app. left; exact Ha.
           ++ exact (Hpv a (Hiw a Hf) Ha).
      * exact Hnd'.
      * exact Hi'.
      * exact Hap'.
      * intros a Ha. apply in_app_or in Ha. destruct Ha as [Ha|Ha].
        -- left. apply in_or_app. left; exact Ha.
        -- destruct (Hfo' a Ha) as [Ho|Hf'].
           ++ left. apply in_or_app. right; exact Ho.
           ++ right; exact Hf'.
Qed.

(* ---------- the entries of [src] ---------- *)

Lemma layout_entries_lookup (h : heap) (d : vdict) (entries : dict hval)
  (fp : list address) (k : string) (v : value) :
  layout_entries h d entries fp -> vget k d = Some v -> NoDup fp ->
  exists (hv : hval) (fv : list address),
    dict_get k entries = Some hv /\ layout h v hv fv
    /\ incl fv fp /\ NoDup fv.
Proof.
  induction 1 as [|k' w hw fw d entries fp Hw Hd IH]; cbn [vget dict_get];
    [discriminate|].
  intros Hget Hnd. apply nodup_app in Hnd. destruct Hnd as (Hndw & Hndp & _).
  destruct (String.eqb k' k).
  - injection Hget as <-. exists hw, fw. repeat split; try assumption.
    apply incl_appl, incl_refl.
  - destruct (IH Hget Hndp) as (hv & fv & H1 & H2 & H3 & H4).
    exists hv, fv. repeat split; try assumption. apply incl_appr, H3.
Qed.

Lemma wf_dict_vget (d : vdict) (k : string) (v : value) :
  wf_dict d -> vget k d = Some v -> wf_value v.
Proof.
  induction d as [|k' w d IH]; cbn [wf_dict vget]; [discriminate|].
  intros (_ & Hw & Hd). destruct (String.eqb k' k).
  - intros [= <-]. exact Hw.
  - apply IH, Hd.
Qed.

Lemma depth_vget (d : vdict) (k : string) (v : value) :
  vget k d = Some v -> depth v <= depth_dict d.
Proof.
  induction d as [|k' w d IH]; cbn [vget depth_dict]; [discriminate|].
  destruct (String.eqb k' k).
  - intros [= <-]. lia.
  - intros H. apply IH in H. lia.
Qed.

Lemma depth_items (l : list value) (n : nat) :
  depth (VList l) <= S n -> Forall (fun v => depth v <= n) l.
Proof.
  cbn [depth]. intros H. apply le_S_n in H.
  induction l as [|x l IH]; constructor.
  - lia.
  - apply IH. lia.
Qed.

Lemma dict_set_same (k : string) (hv : hval) (entries : dict hval) :
  dict_get k entries = Some hv -> dict_set k hv entries = entries.
Proof.
  induction entries as [|[k' w] entries IH]; cbn [dict_get dict_set];
    [discriminate|].
  destruct (String.eqb k' k).
  - intros [= ->]. reflexivity.
  - intros H. rewrite (IH H). reflexivity.
Qed.

Lemma dict_keys_set_nodup (k : string) (hv : hval) (entries : dict hval) :
  NoDup (dict_keys entries) -> NoDup (dict_keys (dict_set k hv entries)).
Proof.
  unfold dict_keys.
  induction entries as [|[k' w] entries IH]; cbn [dict_set map fst].
  - intros _. constructor; [intros []|constructor].
  - intros H. inversion H as [|? ? Hnin Hnd]; subst.
    destruct (String.eqb k' k) eqn:E; cbn [map fst].
    + constructor; assumption.
    + constructor; [|apply IH, Hnd].
      intros Hin. apply Hnin. clear - Hin E.
      induction entries as [|[k2 w2] entries IH]; cbn [dict_set map fst] in *.
      * destruct Hin as [->|[]]. rewrite String.eqb_refl in E. discriminate.
      * destruct (String.eqb k2 k); cbn [map fst] in Hin.
        -- exact Hin.
        -- destruct Hin as [->|Hin]; [left; reflexivity|right; apply IH, Hin].
Qed.

(* ---------- one step of the loop over the keys of [src] ---------- *)

Lemma merge_loop_nil (nested : heap -> address -> address -> run heap)
  (fuel : nat) (dest src : address) (overwrite : bool) (h : heap)
  (src_entries dest_entries : dict hval) :
  heap_get h src = Some (ODict src_entries) ->
  heap_get h dest = Some (ODict dest_entries) ->
  merge_loop nested fuel dest src overwrite (length src_entries) [] h
  = Done h.
Proof.
  intros Hs Hd. cbn [merge_loop]. rewrite Hs, Hd, Nat.eqb_refl. reflexivity.
Qed.

Lemma merge_loop_cons (nested : heap -> address -> address -> run heap)
  (fuel : nat) (dest src : address) (overwrite : bool) (h : heap)
  (src_entries dest_entries : dict hval) (key : string)
  (keys : list string) (sv : hval) :
  heap_get h src = Some (ODict src_entries) ->
  heap_get h dest = Some (ODict dest_entries) ->
  dict_get key src_entries = Some sv ->
  let loop := merge_loop nested fuel dest src overwrite
                         (length src_entries) keys in
  let assigned :=
    heap_set h dest (ODict (dict_set key sv dest_entries)) in
  let otherwise := if overwrite then loop assigned else loop h in
  merge_loop nested fuel dest src overwrite (length src_entries)
             (key :: keys) h
  = match dict_get key dest_entries with
    | Some dv =>
        match dv, sv with
        | HRef d, HRef s =>
            match heap_get h d, heap_get h s with
            | Some (ODict _), Some (ODict _) =>
                match nested h d s with
                | Done h' => loop h'
                | other => other
                end
            | Some (OList _), Some (OList src_items) =>
                match extend_heap fuel h d src_items with
                | Done h' => loop h'
                | other => other
                end
            | Some _, Some _ => otherwise
            | _, _ => Unfinished
            end
        | _, _ => otherwise
        end
    | None => loop assigned
    end.
Proof.
  intros Hs Hd Hsv. cbn [merge_loop]. rewrite Hs, Hd, Nat.eqb_refl, Hsv.
  reflexivity.
Qed.

Lemma depth_items_le (l : list value) (n : nat) :
  depth (VList l) <= n -> Forall (fun v => depth v <= n) l.
Proof.
  intros H. apply depth_items. lia.
Qed.

Section LoopRefines.
Variable overwrite : bool.
Variable fuel : nat.
Variable nested : heap -> address -> address -> run heap.
Hypothesis nested_refines :
  forall (s d : vdict) (h : heap) (a q : address) (fd fs : list address),
    depth (VDict s) <= fuel ->
    layout h (VDict d) (HRef a) fd -> layout h (VDict s) (HRef q) fs ->
    NoDup (fd ++ fs) -> wf_dict d -> wf_dict s ->
    exists (h' : heap) (f' : list address),
      nested h a q = Done h'
      /\ layout h' (VDict (merge_dicts_deep d s overwrite)) (HRef a) f'
      /\ incl f' (fd ++ fs)
      /\ same_outside fd h h'.
Variables pd ps : address.
Variable src_full : vdict.
Variable se : dict hval.
Variable fs : list address.
Hypothesis src_wf : wf_dict src_full.
Hypothesis src_depth : depth_dict src_full <= fuel.
Hypothesis fs_nodup : NoDup fs.
Hypothesis pd_fs : ~ In pd fs.
Hypothesis pd_ps : pd <> ps.
Variable U : list address.
Hypothesis fs_U : incl fs U.

Lemma merge_loop_refines :
  forall (rest : vdict) (h : heap) (dcur : vdict) (de : dict hval)
         (fp fo : list address),
    NoDup (vkeys rest) ->
    (forall k, In k (vkeys rest) -> vget k src_full = vget k rest) ->
    heap_get h ps = Some (ODict se) ->
    layout_entries h src_full se fs ->
    heap_get h pd = Some (ODict de) ->
    dest_entries h (vkeys rest) dcur de fp fo ->
    NoDup (dict_keys de) ->
    NoDup fp -> apart fp fo -> ~ In pd fp -> ~ In pd fo ->
    apart fp (ps :: fs) -> incl fp U -> incl fo U ->
    exists (h' : heap) (de' : dict hval) (fo' : list address),
      merge_loop nested fuel pd ps overwrite (length se) (vkeys rest) h
      = Done h'
      /\ heap_get h' pd = Some (ODict de')
      /\ layout_entries h' (merge_dicts_deep dcur rest overwrite) de' fo'
      /\ incl fo' U /\ ~ In pd fo'
      /\ same_outside (pd :: fp) h h'.
Proof.
  induction rest as [|k vs rest IH];
    intros h dcur de fp fo Hnd Hsub Hsrc Hls Hdest Hde Hkeys Hndp Hpo Hpp Hpf
           HpB HpU HoU.
  - cbn [vkeys merge_dicts_deep] in *.
    rewrite (merge_loop_nil nested fuel pd ps overwrite h se de Hsrc Hdest).
    destruct (dest_entries_finish h dcur de fp fo Hde) as [_ Hl].
    exists h, de, fo.
    split; [reflexivity|]. split; [exact Hdest|]. split; [exact Hl|].
    split; [exact HoU|]. split; [exact Hpf|apply same_outside_refl].
  - cbn [vkeys] in *.
    inversion Hnd as [|? ? Hk Hnd']; subst.
    assert (Hvs : vget k src_full = Some vs).
    { rewrite (Hsub k (or_introl eq_refl)). cbn [vget].
      rewrite String.eqb_refl. reflexivity. }
    assert (Hsub' : forall k', In k' (vkeys rest) ->
                               vget k' src_full = vget k' rest).
    { intros k' Hk'. rewrite (Hsub k' (or_intror Hk')). cbn [vget].
      destruct (String.eqb k k') eqn:E; [|reflexivity].
      apply String.eqb_eq in E. subst k'. contradiction. }
    destruct (layout_entries_lookup h src_full se fs k vs Hls Hvs fs_nodup)
      as (hs & fsk & Hgs & Hlvs & Hisk & Hndsk).
    assert (Hdvs : depth vs <= fuel)
      by (pose proof (depth_vget src_full k vs Hvs); lia).
    assert (Hwvs : wf_value vs) by exact (wf_dict_vget src_full k vs src_wf Hvs).
    apply apart_sym in HpB. apply apart_cons_l in HpB.
    destruct HpB as [Hpsp HsB]. apply apart_sym in HsB.
    assert (Hpdsk : ~ In pd fsk) by (intros Hx; exact (pd_fs (Hisk pd Hx))).
    rewrite (merge_loop_cons nested fuel pd ps overwrite h se de k
               (vkeys rest) hs Hsrc Hdest Hgs).
    cbv zeta. cbn [merge_dicts_deep].
    set (h_assigned := heap_set h pd (ODict (dict_set k hs de))).
    assert (Hsa : same_outside [pd] h h_assigned) by apply same_outside_set.
    assert (Hga : heap_get h_assigned pd = Some (ODict (dict_set k hs de)))
      by (apply (heap_get_set_same h pd _ _ Hdest)).
    assert (Hla : layout h_assigned vs hs fsk).
    { apply (layout_frame_value h h_assigned [pd]); try assumption.
      apply apart_single, Hpdsk. }
    destruct (dict_get k de) as [dv|] eqn:Egd.
    + (* the key is in dest *)
      destruct (dest_entries_step h k (vkeys rest) pd Hk dcur de fp fo Hde
                  Hkeys Hndp Hpo Hpp Hpf dv Egd)
        as (v & fv & Hgv & Hwv & Hlv & Hndv & Hiv & Hcont).
      rewrite Hgv.
      assert (Hpdv : ~ In pd fv) by (intros Hx; exact (Hpp (Hiv pd Hx))).
      assert (Hpsv : ~ In ps fv) by (intros Hx; exact (Hpsp (Hiv ps Hx))).
      assert (Hvfs : apart fv fs)
        by (intros a Ha Hf; exact (HsB a (Hiv a Ha) Hf)).
      assert (Hvsk : apart fv fsk)
        by (intros a Ha Hf; exact (Hvfs a Ha (Hisk a Hf))).
      assert (Hfinish :
        forall (h1 : heap) (v' : value) (hv' : hval) (fv' : list address),
          same_outside (pd :: fv) h h1 ->
          layout h1 v' hv' fv' ->
          incl fv' (fv ++ fsk) ->
          heap_get h1 pd = Some (ODict (dict_set k hv' de)) ->
          exists (h' : heap) (de' : dict hval) (fo' : list address),
            merge_loop nested fuel pd ps overwrite (length se) (vkeys rest)
                       h1 = Done h'
            /\ heap_get h' pd = Some (ODict de')
            /\ layout_entries h'
                 (merge_dicts_deep (vset k v' dcur) rest overwrite) de' fo'
            /\ incl fo' U /\ ~ In pd fo'
            /\ same_outside (pd :: fp) h h').
      { intros h1 v' hv' fv' Hs1 Hl1 Hi1 Hg1.
        destruct (Hcont h1 v' hv' fv' Hs1 Hl1)
          as (fp' & fo' & Hde' & Hndp' & Hip' & Hapv & Hfo').
        assert (Hfo'' : forall a, In a fo' ->
                          In a fo \/ In a fv \/ In a fsk).
        { intros a Ha. destruct (Hfo' a Ha) as [Ho|Hf]; [left; exact Ho|].
          right. apply in_app_or, Hi1, Hf. }
        destruct (IH h1 (vset k v' dcur) (dict_set k hv' de) fp' fo' Hnd'
                    Hsub')
          as (h' & de' & fo2 & Hrun & Hg' & Hl' & Hi' & Hp' & Hs').
        - rewrite (Hs1 ps); [exact Hsrc|].
          intros [Hx|Hx]; [exact (pd_ps Hx)|exact (Hpsv Hx)].
        - apply (layout_frame_entries h h1 (pd :: fv)); try assumption.
          intros a Ha [<-|Hx]; [exact (pd_fs Ha)|exact (Hvfs a Hx Ha)].
        - exact Hg1.
        - exact Hde'.
        - apply dict_keys_set_nodup, Hkeys.
        - exact Hndp'.
        - intros a Ha Ho. destruct (Hfo'' a Ho) as [Hx|[Hx|Hx]].
          + exact (Hpo a (Hip' a Ha) Hx).
          + exact (Hapv a Ha Hx).
          + exact (HsB a (Hip' a Ha) (Hisk a Hx)).
        - intros Hx. exact (Hpp (Hip' pd Hx)).
        - intros Hx. destruct (Hfo'' pd Hx) as [Hy|[Hy|Hy]];
            [exact (Hpf Hy)|exact (Hpdv Hy)|exact (Hpdsk Hy)].
        - intros a Ha [<-|Hx]; [exact (Hpsp (Hip' _ Ha))|].
          exact (HsB a (Hip' a Ha) Hx).
        - intros a Ha. exact (HpU a (Hip' a Ha)).
        - intros a Ha. destruct (Hfo'' a Ha) as [Hx|[Hx|Hx]].
          + exact (HoU a Hx).
          + exact (HpU a (Hiv a Hx)).
          + exact (fs_U a (Hisk a Hx)).
        - exists h', de', fo2.
          split; [exact Hrun|]. split; [exact Hg'|]. split; [exact Hl'|].
          split; [exact Hi'|]. split; [exact Hp'|].
          apply (same_outside_trans _ h h1 h').
          + apply (same_outside_more (pd :: fv)); [|exact Hs1].
            intros a [<-|Ha]; [left; reflexivity|right; exact (Hiv a Ha)].
          + apply (same_outside_more (pd :: fp')); [|exact Hs'].
            intros a [<-|Ha]; [left; reflexivity|right; exact (Hip' a Ha)]. }
      assert (Hother :
        exists (h' : heap) (de' : dict hval) (fo' : list address),
          (if overwrite
           then merge_loop nested fuel pd ps overwrite (length se)
                           (vkeys rest) h_assigned
           else merge_loop nested fuel pd ps overwrite (length se)
                           (vkeys rest) h) = Done h'
          /\ heap_get h' pd = Some (ODict de')
          /\ layout_entries h'
               (merge_dicts_deep (if overwrite then vset k vs dcur else dcur)
                                 rest overwrite) de' fo'
          /\ incl fo' U /\ ~ In pd fo'
          /\ same_outside (pd :: fp) h h').
      { destruct overwrite.
        - apply (Hfinish h_assigned vs hs fsk); try assumption.
          + apply (same_outside_more [pd]); [|exact Hsa].
            intros a [<-|[]]. left; reflexivity.
          + apply incl_appr, incl_refl.
        - rewrite <- (vset_same_value k v dcur Hgv).
          apply (Hfinish h v dv fv); try assumption.
          + apply same_outside_refl.
          + apply incl_appl, incl_refl.
          + rewrite (dict_set_same k dv de Egd). exact Hdest. }
      destruct v as [|b1|z1|s1|dl|d]; destruct vs as [|b2|z2|s2|sl|s];
        try (inversion Hlv; subst; inversion Hlvs; subst; exact Hother);
        try (inversion Hlv; subst; inversion Hlvs; subst;
             match goal with
             | Ha : heap_get h ?a = Some _, Hq : heap_get h ?q = Some _
               |- context [heap_get h ?a] => rewrite Ha, Hq; exact Hother
             end).
      * (* two sequences *)
        inversion Hlv as [| | | |? ditems a fd Hha Hld|]; subst.
        inversion Hlvs as [| | | |? sitems q fs' Hhq Hlsl|]; subst.
        rewrite Hha, Hhq.
        inversion Hndv as [|? ? Hafd Hndfd]; subst.
        inversion Hndsk as [|? ? Hqfs Hndfs]; subst.
        destruct (extend_refines fuel a sl h sitems fs' dl ditems fd
                    Hlsl Hndfs)
          as (h1 & ditems' & fd' & Hrun & Hg1 & Hl1 & Hi1 & Hs1).
        -- intros Hx. apply (Hvsk a); [left; reflexivity|right; exact Hx].
        -- exact Hha.
        -- exact Hld.
        -- exact Hafd.
        -- intros x Hx Hy. apply (Hvsk x); right; assumption.
        -- apply depth_items_le. exact Hdvs.
        -- rewrite Hrun.
           apply (Hfinish h1 (VList (extend_novel dl sl)) (HRef a)
                    (a :: fd')).
           ++ apply (same_outside_more [a]); [|exact Hs1].
              intros x [<-|[]]. right; left; reflexivity.
           ++ econstructor; eassumption.
           ++ intros x [<-|Hx]; [left; reflexivity|].
              apply Hi1 in Hx. apply in_app_or in Hx.
              destruct Hx as [Hx|Hx].
              ** right. apply in_or_app. left; exact Hx.
              ** apply in_or_app. right. right; exact Hx.
           ++ rewrite (dict_set_same k (HRef a) de Egd).
              rewrite (Hs1 pd); [exact Hdest|].
              intros [Hx|[]]. apply Hpdv. left; exact Hx.
      * (* two mappings *)
        inversion Hlv as [| | | | |? ed a fd Hha Hld]; subst.
        inversion Hlvs as [| | | | |? es q fs' Hhq Hlsl]; subst.
        rewrite Hha, Hhq.
        destruct (nested_refines s d h a q (a :: fd) (q :: fs') Hdvs Hlv Hlvs)
          as (h1 & f1 & Hrun & Hl1 & Hi1 & Hs1).
        -- apply nodup_app. repeat split; assumption.
        -- exact Hwv.
        -- exact Hwvs.
        -- rewrite Hrun.
           apply (Hfinish h1 (VDict (merge_dicts_deep d s overwrite))
                    (HRef a) f1).
           ++ apply (same_outside_more (a :: fd)); [|exact Hs1].
              intros x Hx. right; exact Hx.
           ++ exact Hl1.
           ++ exact Hi1.
           ++ rewrite (dict_set_same k (HRef a) de Egd).
              rewrite (Hs1 pd); [exact Hdest|exact Hpdv].
    + (* the key is new to dest *)
      rewrite (dest_entries_absent h (k :: vkeys rest) dcur de fp fo k Hde Egd).
      assert (Hde' : dest_entries h_assigned (vkeys rest) (vset k vs dcur)
                                  (dict_set k hs de) fp (fo ++ fsk)).
      { apply (dest_entries_append h h_assigned k (vkeys rest) [pd] vs hs fsk
                 Hsa Hk Hla dcur de fp fo Hde Egd).
        - intros a Ha [<-|[]]. exact (Hpp Ha).
        - intros a Ha [<-|[]]. exact (Hpf Ha). }
      destruct (IH h_assigned (vset k vs dcur) (dict_set k hs de) fp
                  (fo ++ fsk) Hnd' Hsub')
        as (h' & de' & fo2 & Hrun & Hg' & Hl' & Hi' & Hp' & Hs').
      * rewrite (Hsa ps); [exact Hsrc|]. intros [Hx|[]]. exact (pd_ps Hx).
      * apply (layout_frame_entries h h_assigned [pd]); try assumption.
        apply apart_single, pd_fs.
      * exact Hga.
      * exact Hde'.
      * apply dict_keys_set_nodup, Hkeys.
      * exact Hndp.
      * intros a Ha Ho. apply in_app_or in Ho. destruct Ho as [Ho|Ho].
        -- exact (Hpo a Ha Ho).
        -- exact (HsB a Ha (Hisk a Ho)).
      * exact Hpp.
      * intros Hx. apply in_app_or in Hx. destruct Hx as [Hx|Hx];
          [exact (Hpf Hx)|exact (Hpdsk Hx)].
      * intros a Ha [<-|Hx]; [exact (Hpsp Ha)|exact (HsB a Ha Hx)].
      * exact HpU.
      * apply incl_app; [exact HoU|]. intros a Ha. exact (fs_U a (Hisk a Ha)).
      * exists h', de', fo2.
        split; [exact Hrun|]. split; [exact Hg'|]. split; [exact Hl'|].
        split; [exact Hi'|]. split; [exact Hp'|].
        apply (same_outside_trans _ h h_assigned h'); [|exact Hs'].
        apply (same_outside_more [pd]); [|exact Hsa].
        intros a [<-|[]]. left; reflexivity.
Qed.

End LoopRefines.

(* ---------- the merge ---------- *)

Lemma merge_dicts_deep_heap_refines (overwrite : bool) :
  forall (fuel : nat) (s d : vdict) (h : heap) (a q : address)
         (fd fs : list address),
    depth (VDict s) <= fuel ->
    layout h (VDict d) (HRef a) fd -> layout h (VDict s) (HRef q) fs ->
    NoDup (fd ++ fs) -> wf_dict d -> wf_dict s ->
    exists (h' : heap) (f' : list address),
      merge_dicts_deep_heap fuel h a q overwrite = Done h'
      /\ layout h' (VDict (merge_dicts_deep d s overwrite)) (HRef a) f'
      /\ incl f' (fd ++ fs)
      /\ same_outside fd h h'.
Proof.
  induction fuel as [|fuel IH]; intros s d h a q fd fs Hdepth Hd Hs Hnd Hwd Hws.
  - cbn [depth] in Hdepth. lia.
  - inversion Hd as [| | | | |? de ? fd' Hha Hlde]; subst.
    inversion Hs as [| | | | |? se ? fs' Hhq Hlse]; subst.
    apply nodup_app in Hnd. destruct Hnd as (Hndd & Hnds & Hap).
    inversion Hndd as [|? ? Hafd Hndfd]; subst.
    inversion Hnds as [|? ? Hqfs Hndfs]; subst.
    assert (Haq : a <> q)
      by (intros ->; apply (Hap q); left; reflexivity).
    assert (Hafs : ~ In a fs')
      by (intros Hx; apply (Hap a); [left; reflexivity|right; exact Hx]).
    destruct (dest_entries_start h (vkeys s) d de fd' Hlde Hwd Hndfd)
      as (fp & fo & Hde & Hndp & Hpo & Hip & Hio).
    cbn [merge_dicts_deep_heap]. rewrite Hhq.
    rewrite (layout_entries_keys h s se fs' Hlse).
    destruct (merge_loop_refines overwrite fuel
                (fun h d s => merge_dicts_deep_heap fuel h d s overwrite)
                IH a q s se fs' Hws) with (U := fd' ++ fs') (rest := s)
                (h := h) (dcur := d) (de := de) (fp := fp) (fo := fo)
      as (h' & de' & fo' & Hrun & Hg' & Hl' & Hi' & Hp' & Hs').
    + cbn [depth] in Hdepth. lia.
    + exact Hndfs.
    + exact Hafs.
    + exact Haq.
    + apply incl_appr, incl_refl.
    + apply wf_dict_nodup, Hws.
    + intros k _. reflexivity.
    + exact Hhq.
    + exact Hlse.
    + exact Hha.
    + exact Hde.
    + rewrite (layout_entries_keys h d de fd' Hlde).
      apply wf_dict_nodup, Hwd.
    + exact Hndp.
    + exact Hpo.
    + intros Hx. exact (Hafd (Hip a Hx)).
    + intros Hx. exact (Hafd (Hio a Hx)).
    + intros x Hx Hy. apply (Hap x); [right; exact (Hip x Hx)|exact Hy].
    + intros x Hx. apply in_or_app. left; exact (Hip x Hx).
    + intros x Hx. apply in_or_app. left; exact (Hio x Hx).
    + exists h', (a :: fo'). split; [exact Hrun|]. split; [|split].
      * econstructor; eassumption.
      * intros x [<-|Hx]; [left; reflexivity|].
        apply Hi' in Hx. apply in_app_or in Hx. destruct Hx as [Hx|Hx].
        -- right. apply in_or_app. left; exact Hx.
        -- apply in_or_app. right. right; exact Hx.
      * apply (same_outside_more (a :: fp)); [|exact Hs'].
        intros x [<-|Hx]; [left; reflexivity|right; exact (Hip x Hx)].
Qed.

(** C1 fails as stated when one object is held in two places.  In
    [shared_heap], [dest] is [{'a': l, 'b': l}] with the one sequence
    [l = [1]] under both keys, and [src] is [{'a': [2], 'b': [3]}].  The
    elements of [src['a']] not equal to an element of [dest['a']] are [2]
    alone, yet the merge leaves [[1, 2, 3]] under ['a']: the element that
    key ['b'] appends to [l] shows under ['a'] too. *)
Lemma merge_dicts_deep_shared_counterexample :
  decode 2 shared_heap (HRef 0)
  = Some (VDict (DCons "a" (VList [VInt 1])
                   (DCons "b" (VList [VInt 1]) DNil)))
  /\ decode 2 shared_heap (HRef 2)
     = Some (VDict (DCons "a" (VList [VInt 2])
                      (DCons "b" (VList [VInt 3]) DNil)))
  /\ exists h' : heap,
      merge_dicts_deep_heap 2 shared_heap 0 2 false = Done h'
      /\ decode 2 h' (HRef 0)
         = Some (VDict (DCons "a" (VList [VInt 1; VInt 2; VInt 3])
                          (DCons "b" (VList [VInt 1; VInt 2; VInt 3])
                             DNil)))
      /\ [VInt 1; VInt 2; VInt 3] <> [VInt 1] ++ novel [VInt 1] [VInt 2].
Proof.
  split; [reflexivity|]. split; [reflexivity|].
  eexists. split; [reflexivity|]. split; [reflexivity|].
  discriminate.
Qed.

(** C1, amended. Let [dest] and [src] be two mappings of a store in which
    no sequence and no mapping is held in two places: they stand for the
    trees [dest_value] and [src_value], and the addresses of their objects,
    one for each place that holds an object, are all different.  Then, for
    either setting of [overwrite] and with fuel for the depth of [src], the
    merge returns; it leaves [src] as it was, and it leaves under every key
    of [dest]: the value of [src] when only [src] has the key; the value of
    [dest] when only [dest] has it; the merge of the two values when both
    are mappings; when both are sequences, the sequence of [dest] followed
    by the elements of [src]'s sequence, in order, that are not yet equal to
    an element of it; otherwise the value of [dest], or that of [src] when
    [overwrite] is set.  The keys of [dest] keep their order and the keys
    that only [src] has follow in the order of [src].  The elements appended
    to a sequence are the elements of [src]'s sequence that are not equal to
    an element of [dest]'s sequence, when [src]'s sequence has no two equal
    elements.  The four sample merges of the spec come out as it says. *)
Theorem merge_dicts_deep_unshared :
  (forall (h : heap) (dest src : address) (dest_value src_value : vdict)
          (dest_objects src_objects : list address) (overwrite : bool)
          (fuel : nat),
      layout h (VDict dest_value) (HRef dest) dest_objects ->
      layout h (VDict src_value) (HRef src) src_objects ->
      NoDup (dest_objects ++ src_objects) ->
      wf_dict dest_value -> wf_dict src_value ->
      depth (VDict src_value) <= fuel ->
      exists (h' : heap) (merged : vdict) (objects : list address),
        merge_dicts_deep_heap fuel h dest src overwrite = Done h'
        /\ layout h' (VDict merged) (HRef dest) objects
        /\ layout h' (VDict src_value) (HRef src) src_objects
        /\ (forall k : string,
               vget k merged
               = match vget k dest_value, vget k src_value with
                 | None, sv => sv
                 | Some dv, None => Some dv
                 | Some (VDict d), Some (VDict s) =>
                     Some (VDict (merge_dicts_deep d s overwrite))
                 | Some (VList dl), Some (VList sl) =>
                     Some (VList (dl ++ novel dl sl))
                 | Some dv, Some sv => Some (if overwrite then sv else dv)
                 end)
        /\ vkeys merged
           = vkeys dest_value
             ++ filter (fun k => negb (str_in k (vkeys dest_value)))
                       (vkeys src_value)
        /\ merged = merge_dicts_deep dest_value src_value overwrite)
  /\ (forall dl sl : list value,
         distinct sl ->
         novel dl sl = filter (fun x => negb (py_in x dl)) sl)
  /\ merge_dicts_deep_heap 2 [ODict []; ODict [("a", HInt 1)]] 0 1 false
     = Done [ODict [("a", HInt 1)]; ODict [("a", HInt 1)]]
  /\ merge_dicts_deep_heap 2 [ODict [("a", HInt 1)]; ODict [("a", HInt 2)]]
                           0 1 false
     = Done [ODict [("a", HInt 1)]; ODict [("a", HInt 2)]]
  /\ merge_dicts_deep_heap 2 [ODict [("a", HInt 1)]; ODict [("a", HInt 2)]]
                           0 1 true
     = Done [ODict [("a", HInt 2)]; ODict [("a", HInt 2)]]
  /\ merge_dicts_deep_heap 2
       [ODict [("a", HRef 1)]; OList [HInt 1];
        ODict [("a", HRef 3)]; OList [HInt 1; HInt 2]]
       0 2 false
     = Done [ODict [("a", HRef 1)]; OList [HInt 1; HInt 2];
             ODict [("a", HRef 3)]; OList [HInt 1; HInt 2]].
Proof.
  split; [|split; [|repeat split]].
  - intros h dest src dest_value src_value dest_objects src_objects
           overwrite fuel Hd Hs Hnd Hwd Hws Hdepth.
    destruct (merge_dicts_deep_heap_refines overwrite fuel src_value
                dest_value h dest src dest_objects src_objects Hdepth Hd Hs
                Hnd Hwd Hws)
      as (h' & f' & Hrun & Hl' & _ & Hsame).
    exists h', (merge_dicts_deep dest_value src_value overwrite), f'.
    split; [exact Hrun|]. split; [exact Hl'|]. split; [|split; [|split]].
    + apply (layout_frame_value h h' dest_objects); [exact Hsame| |exact Hs].
      apply nodup_app in Hnd. destruct Hnd as (_ & _ & Hap).
      apply apart_sym, Hap.
    + intros k.
      rewrite (merge_dicts_deep_lookup src_value (wf_dict_nodup _ Hws)).
      unfold merged_entry.
      destruct (vget k src_value) as [sv|];
        destruct (vget k dest_value) as [dv|]; try reflexivity.
      * destruct dv, sv; try reflexivity.
        rewrite extend_novel_novel. reflexivity.
      * destruct dv; reflexivity.
    + apply (merge_dicts_deep_keys src_value (wf_dict_nodup _ Hws)).
    + reflexivity.
  - intros dl sl Hd. apply (novel_filter sl Hd). reflexivity.
Qed.

Lemma merge_dicts_deep_unshared_witness :
  exists (h' : heap) (merged : vdict) (objects : list address),
    merge_dicts_deep_heap 2 unshared_heap 0 3 false = Done h'
    /\ layout h' (VDict merged) (HRef 0) objects
    /\ vget "tags" merged = Some (VList [VStr "a"; VStr "b"])
    /\ vget "title" merged = Some (VStr "old")
    /\ vget "extra" merged = Some VNone.
Proof.
  assert (Hd : layout unshared_heap (VDict sample_dest_value) (HRef 0)
                      [0; 1; 2]).
  { apply (layout_Dict unshared_heap _ _ 0 [1; 2] eq_refl).
    apply (layout_entries_cons _ _ _ _ [] _ _ [1; 2]); [constructor|].
    apply (layout_entries_cons _ _ _ _ [1] _ _ [2]).
    - apply (layout_List unshared_heap _ _ 1 [] eq_refl).
      apply (layout_items_cons _ _ _ [] _ _ []); constructor.
    - apply (layout_entries_cons _ _ _ _ [2] _ _ []); [|constructor].
      apply (layout_Dict unshared_heap _ _ 2 [] eq_refl).
      apply (layout_entries_cons _ _ _ _ [] _ _ []); constructor. }
  assert (Hs : layout unshared_heap (VDict sample_src_value) (HRef 3)
                      [3; 4; 5]).
  { apply (layout_Dict unshared_heap _ _ 3 [4; 5] eq_refl).
    apply (layout_entries_cons _ _ _ _ [4] _ _ [5]).
    - apply (layout_List unshared_heap _ _ 4 [] eq_refl).
      apply (layout_items_cons _ _ _ [] _ _ []); [constructor|].
      apply (layout_items_cons _ _ _ [] _ _ []); [constructor|].
      apply (layout_items_cons _ _ _ [] _ _ []); constructor.
    - apply (layout_entries_cons _ _ _ _ [] _ _ [5]); [constructor|].
      apply (layout_entries_cons _ _ _ _ [5] _ _ []).
      + apply (layout_Dict unshared_heap _ _ 5 [] eq_refl).
        apply (layout_entries_cons _ _ _ _ [] _ _ []); constructor.
      + apply (layout_entries_cons _ _ _ _ [] _ _ []); constructor. }
  assert (Hnd : NoDup ([0; 1; 2] ++ [3; 4; 5])).
  { cbn [app]. repeat constructor; cbn [In]; lia. }
  assert (Hwd : wf_dict sample_dest_value).
  { cbn. intuition discriminate. }
  assert (Hws : wf_dict sample_src_value).
  { cbn. intuition discriminate. }
  destruct (proj1 merge_dicts_deep_unshared unshared_heap 0 3
              sample_dest_value sample_src_value [0; 1; 2] [3; 4; 5] false 2
              Hd Hs Hnd Hwd Hws)
    as (h' & merged & objects & Hrun & Hl & _ & Hk & _).
  - cbn. lia.
  - exists h', merged, objects.
    split; [exact Hrun|]. split; [exact Hl|].
    rewrite !Hk. repeat split.
Defined.
